(** * URL risk assessment pipeline: normalizer, heuristic scorer,
      rate limiter, reputation client and engine orchestrator.

    The development follows the Python sources
    [core/heuristic_engine.py], [core/api_client.py] and
    [ui/scanner_tab.py].  Python strings are sequences of Unicode code
    points; Python floats are idealised as exact numbers (rationals where
    the program only adds, multiplies and divides, reals where it takes
    logarithms); exceptions are explicit results. *)

From Stdlib Require Import String Ascii.
From Stdlib Require Import ZArith NArith QArith Qround Qminmax Reals Qreals.
From Stdlib Require Import Lia Psatz List Bool DecimalN Sorted.
Import ListNotations.

(* ------------------------------------------------------------------ *)
(** * Python strings                                                    *)
(* ------------------------------------------------------------------ *)

Module Py.

(** A [str] is the sequence of its code points. *)
Definition str := list N.

(** An ASCII literal of the source. *)
Definition lit (s : string) : str :=
  List.map N_of_ascii (list_ascii_of_string s).

Definition ch (a : ascii) : N := N_of_ascii a.

Fixpoint str_eqb (a b : str) : bool :=
  match a, b with
  | [], [] => true
  | x :: a', y :: b' => N.eqb x y && str_eqb a' b'
  | _, _ => false
  end.

(** The truth value of a sequence. *)
Definition nonempty {A : Type} (s : list A) : bool :=
  match s with [] => false | _ => true end.

(** [c in s] for a single character. *)
Definition mem (c : N) (s : str) : bool := existsb (N.eqb c) s.

(** [s.startswith(p)] *)
Fixpoint startswith (p s : str) : bool :=
  match p, s with
  | [], _ => true
  | x :: p', y :: s' => N.eqb x y && startswith p' s'
  | _ :: _, [] => false
  end.

(** [s.endswith(p)] *)
Definition endswith (p s : str) : bool :=
  (length p <=? length s)%nat &&
  str_eqb p (skipn (length s - length p) s).

(** [sub in s] *)
Fixpoint contains (sub s : str) : bool :=
  startswith sub s ||
  match s with
  | [] => false
  | _ :: s' => contains sub s'
  end.

(** [s.count(c)] for a single character. *)
Definition count (c : N) (s : str) : nat :=
  length (filter (N.eqb c) s).

(** [s.find(c)]: [None] stands for -1. *)
Fixpoint find (c : N) (s : str) : option nat :=
  match s with
  | [] => None
  | x :: s' => if N.eqb c x then Some O else option_map S (find c s')
  end.

(** [s.find(c, start)] *)
Definition find_from (c : N) (start : nat) (s : str) : option nat :=
  option_map (fun i => (start + i)%nat) (find c (skipn start s)).

(** [s.rfind(c)] *)
Fixpoint rfind (c : N) (s : str) : option nat :=
  match s with
  | [] => None
  | x :: s' =>
      match rfind c s' with
      | Some i => Some (S i)
      | None => if N.eqb c x then Some O else None
      end
  end.

(** [s.partition(c)]: the text before the first [c], whether [c] was
    found, and the text after it. *)
Definition partition (c : N) (s : str) : str * bool * str :=
  match find c s with
  | Some i => (firstn i s, true, skipn (S i) s)
  | None => (s, false, [])
  end.

(** [s.rpartition(c)]: when [c] is absent the whole text is the last
    component. *)
Definition rpartition (c : N) (s : str) : str * bool * str :=
  match rfind c s with
  | Some i => (firstn i s, true, skipn (S i) s)
  | None => ([], false, s)
  end.

(** [s.split(c)] *)
Fixpoint split (c : N) (s : str) : list str :=
  match s with
  | [] => [[]]
  | x :: s' =>
      if N.eqb c x then [] :: split c s'
      else match split c s' with
           | [] => [[x]]
           | w :: ws => (x :: w) :: ws
           end
  end.

(** [s.replace(c, "")] *)
Definition remove_char (c : N) (s : str) : str :=
  filter (fun x => negb (N.eqb c x)) s.

(** [s.lstrip(chars)], [s.rstrip(chars)] with the set given as a predicate. *)
Fixpoint lstrip_of (p : N -> bool) (s : str) : str :=
  match s with
  | [] => []
  | x :: s' => if p x then lstrip_of p s' else s
  end.

Definition rstrip_of (p : N -> bool) (s : str) : str :=
  rev (lstrip_of p (rev s)).

(** [str.isspace] on one character: the code points whose bidirectional
    class is WS, B or S or whose category is Zs. *)
Definition isspace (c : N) : bool :=
  ((9 <=? c) && (c <=? 13) || (28 <=? c) && (c <=? 32)
   || (c =? 133) || (c =? 160) || (c =? 5760)
   || (8192 <=? c) && (c <=? 8202)
   || (c =? 8232) || (c =? 8233) || (c =? 8239) || (c =? 8287)
   || (c =? 12288))%N.

(** [s.strip()] *)
Definition strip (s : str) : str := rstrip_of isspace (lstrip_of isspace s).

(** [url if url.startswith(("http://", "https://")) else "http://" + url] *)
Definition with_http_prefix (url : str) : str :=
  if startswith (lit "http://") url || startswith (lit "https://") url
  then url else lit "http://" ++ url.

Definition isascii (c : N) : bool := (c <? 128)%N.
Definition str_isascii (s : str) : bool := forallb isascii s.

Definition is_ascii_digit (c : N) : bool := ((48 <=? c) && (c <=? 57))%N.
Definition is_ascii_upper (c : N) : bool := ((65 <=? c) && (c <=? 90))%N.
Definition is_ascii_lower (c : N) : bool := ((97 <=? c) && (c <=? 122))%N.
Definition is_ascii_alpha (c : N) : bool := is_ascii_upper c || is_ascii_lower c.
Definition is_hexdig (c : N) : bool :=
  (is_ascii_digit c || (65 <=? c) && (c <=? 70) || (97 <=? c) && (c <=? 102))%N.

Definition ascii_lower (c : N) : N :=
  if is_ascii_upper c then (c + 32)%N else c.

(** What the program reaches of the Unicode character database and of
    the [ipaddress] module beyond ASCII.  These tables are not part of the
    repository; every general statement below holds for all of them. *)
Class Tables := {
  (** [s.lower()] for a string that has a non-ASCII character *)
  uc_lower : str -> str;
  (** [c.isdigit()] for a non-ASCII character *)
  uc_isdigit : N -> bool;
  (** category Nd (what [\d] matches) for a non-ASCII character *)
  uc_isdecimal : N -> bool;
  (** [unicodedata.normalize('NFKC', s)] *)
  nfkc : str -> str;
  (** [ipaddress.ip_address(s)]: [Some true] for an IPv4 address,
      [Some false] for an IPv6 address, [None] for [ValueError] *)
  ip_address : str -> option bool
}.

Section WithTables.
Context {T : Tables}.

(** [s.lower()] *)
Definition lower (s : str) : str :=
  if str_isascii s then List.map ascii_lower s else uc_lower s.

(** [c.isdigit()] *)
Definition isdigit (c : N) : bool :=
  if isascii c then is_ascii_digit c else uc_isdigit c.

(** [\d] of a [str] pattern *)
Definition isdecimal (c : N) : bool :=
  if isascii c then is_ascii_digit c else uc_isdecimal c.

End WithTables.

(** [str(n)] for a natural number. *)
Fixpoint chars_of_uint (u : Decimal.uint) : str :=
  match u with
  | Decimal.Nil => []
  | Decimal.D0 u' => 48%N :: chars_of_uint u'
  | Decimal.D1 u' => 49%N :: chars_of_uint u'
  | Decimal.D2 u' => 50%N :: chars_of_uint u'
  | Decimal.D3 u' => 51%N :: chars_of_uint u'
  | Decimal.D4 u' => 52%N :: chars_of_uint u'
  | Decimal.D5 u' => 53%N :: chars_of_uint u'
  | Decimal.D6 u' => 54%N :: chars_of_uint u'
  | Decimal.D7 u' => 55%N :: chars_of_uint u'
  | Decimal.D8 u' => 56%N :: chars_of_uint u'
  | Decimal.D9 u' => 57%N :: chars_of_uint u'
  end.

Definition str_of_N (n : N) : str := chars_of_uint (N.to_uint n).

(** [int(s)] for a string of ASCII digits. *)
Fixpoint uint_of_chars (s : str) : Decimal.uint :=
  match s with
  | [] => Decimal.Nil
  | c :: s' =>
      let u := uint_of_chars s' in
      match (c - 48)%N with
      | 0 => Decimal.D0 u | 1 => Decimal.D1 u | 2 => Decimal.D2 u
      | 3 => Decimal.D3 u | 4 => Decimal.D4 u | 5 => Decimal.D5 u
      | 6 => Decimal.D6 u | 7 => Decimal.D7 u | 8 => Decimal.D8 u
      | _ => Decimal.D9 u
      end%N
  end.

Definition int_of_digits (s : str) : N := N.of_uint (uint_of_chars s).

End Py.

(* ------------------------------------------------------------------ *)
(** * Exceptions                                                        *)
(* ------------------------------------------------------------------ *)

(** The [ValueError]s of [urllib.parse]. *)
Inductive value_error :=
| InvalidIPv6URL        (* "Invalid IPv6 URL" *)
| InvalidIPvFuture      (* "IPvFuture address is invalid" *)
| InvalidBracketedHost  (* raised by, or after, [ipaddress.ip_address] *)
| NetlocNFKC            (* "netloc ... contains invalid characters under NFKC normalization" *)
| PortNotInteger        (* "Port could not be cast to integer value as ..." *)
| PortOutOfRange        (* "Port out of range 0-65535" *)
| JSONDecodeError.      (* raised by [Response.json()], a [ValueError] *)

(** The [RuntimeError]s of [scan_url], one per message. *)
Inductive runtime_error :=
| NotConfigured          (* "VirusTotal API key is not configured" *)
| NetworkError           (* "Network error submitting URL: ..." *)
| AuthError              (* "Invalid VirusTotal API key" *)
| RateLimited            (* "VirusTotal rate limit exceeded ..." *)
| SubmissionFailed (status_code : Z)  (* "VirusTotal submission failed (HTTP ...)" *)
| UnexpectedResponse     (* "Unexpected response from VirusTotal submission" *)
| TimedOut.              (* "VirusTotal analysis timed out" *)

Inductive exn :=
| ValueError (e : value_error)
| RuntimeError (e : runtime_error)
| TypeError              (* indexing or adding a JSON value of another type *)
| AttributeError         (* [.get] on a JSON value that is not an object *)
| StorageError.          (* any exception of the persistence layer *)

(** A computation that returns or raises. *)
Inductive res (A : Type) :=
| Ok (a : A)
| Raise (e : exn).
Arguments Ok {A} a.
Arguments Raise {A} e.

Definition bind {A B} (m : res A) (f : A -> res B) : res B :=
  match m with
  | Ok a => f a
  | Raise e => Raise e
  end.

Notation "x <- m ;; k" := (bind m (fun x => k))
  (at level 61, m at next level, right associativity).
Notation "' pat <- m ;; k" :=
  (bind m (fun x => match x with pat => k end))
  (at level 61, pat pattern, m at next level, right associativity).

(* ------------------------------------------------------------------ *)
(** * Regular expressions                                               *)
(* ------------------------------------------------------------------ *)

(** The fragment of [re] syntax that the patterns of the program use,
    with a backtracking matcher in continuation-passing style. *)
Module Re.
Import Py.

Inductive re :=
| Cls (p : N -> bool)                        (* one character of a class *)
| Rep (p : N -> bool) (lo : nat) (hi : option nat)
                                             (* [c{lo,hi}], [c+]: greedy *)
| Times (r : re) (n : nat)                   (* [(r){n}] *)
| Seq (a b : re)
| Alt (a b : re)
| Opt (a : re)                               (* [a?] *)
| Bos                                        (* [^], [\A] *)
| Dollar                                     (* [$] *)
| EndZ.                                      (* [\Z] *)

Definition below (hi : option nat) (n : nat) : bool :=
  match hi with
  | None => true
  | Some h => (n <? h)%nat
  end.

(** Greedy repetition of a class: [n] characters taken so far. *)
Fixpoint rep (p : N -> bool) (lo : nat) (hi : option nat)
         (n pos : nat) (s : str) (k : nat -> str -> bool) : bool :=
  match s with
  | c :: s' =>
      if p c && below hi n
      then rep p lo hi (S n) (S pos) s' k || ((lo <=? n)%nat && k pos s)
      else (lo <=? n)%nat && k pos s
  | [] => (lo <=? n)%nat && k pos s
  end.

Fixpoint run (r : re) (pos : nat) (s : str) (k : nat -> str -> bool) : bool :=
  match r with
  | Cls p =>
      match s with
      | c :: s' => p c && k (S pos) s'
      | [] => false
      end
  | Rep p lo hi => rep p lo hi 0 pos s k
  | Times a n =>
      (fix times (n : nat) (pos : nat) (s : str) : bool :=
         match n with
         | O => k pos s
         | S n' => run a pos s (times n')
         end) n pos s
  | Seq a b => run a pos s (fun pos' s' => run b pos' s' k)
  | Alt a b => run a pos s k || run b pos s k
  | Opt a => run a pos s k || k pos s
  | Bos => (pos =? 0)%nat && k pos s
  | Dollar =>
      match s with
      | [] => k pos s
      | [c] => (c =? 10)%N && k pos s
      | _ => false
      end
  | EndZ =>
      match s with
      | [] => k pos s
      | _ => false
      end
  end.

(** [bool(re.match(r, s))] *)
Definition matches (r : re) (s : str) : bool :=
  run r 0 s (fun _ _ => true).

Definition chr_is (a : ascii) (c : N) : bool := (c =? N_of_ascii a)%N.

(** [.] without DOTALL *)
Definition dot (c : N) : bool := negb (c =? 10)%N.

End Re.

(* ------------------------------------------------------------------ *)
(** * urllib.parse (CPython 3.11)                                       *)
(* ------------------------------------------------------------------ *)

Module UrlLib.
Import Py.

(** ** Percent-decoding *)

Definition is_cont (b : N) : bool := ((128 <=? b) && (b <=? 191))%N.

(** U+FFFD, written for each undecodable range under [errors='replace']. *)
Definition REPLACEMENT : N := 65533%N.

(** [bytes.decode('utf-8', 'replace')]: an invalid start byte is replaced
    alone, an invalid continuation replaces the bytes read before it, and
    a truncated sequence at the end is replaced as a whole. *)
Fixpoint utf8_decode (s : list N) : str :=
  match s with
  | [] => []
  | c1 :: s1 =>
      if (c1 <? 128)%N then c1 :: utf8_decode s1
      else if (c1 <? 194)%N then REPLACEMENT :: utf8_decode s1
      else if (c1 <? 224)%N then
        match s1 with
        | [] => [REPLACEMENT]
        | c2 :: s2 =>
            if is_cont c2
            then ((c1 - 192) * 64 + (c2 - 128))%N :: utf8_decode s2
            else REPLACEMENT :: utf8_decode s1
        end
      else if (c1 <? 240)%N then
        match s1 with
        | [] => [REPLACEMENT]
        | c2 :: s2 =>
            if negb (is_cont c2)
               || (if (c2 <? 160)%N then (c1 =? 224)%N else (c1 =? 237)%N)
            then REPLACEMENT :: utf8_decode s1
            else
              match s2 with
              | [] => [REPLACEMENT]
              | c3 :: s3 =>
                  if is_cont c3
                  then ((c1 - 224) * 4096 + (c2 - 128) * 64 + (c3 - 128))%N
                         :: utf8_decode s3
                  else REPLACEMENT :: utf8_decode s2
              end
        end
      else if (c1 <? 245)%N then
        match s1 with
        | [] => [REPLACEMENT]
        | c2 :: s2 =>
            if negb (is_cont c2)
               || (if (c2 <? 144)%N then (c1 =? 240)%N else (c1 =? 244)%N)
            then REPLACEMENT :: utf8_decode s1
            else
              match s2 with
              | [] => [REPLACEMENT]
              | c3 :: s3 =>
                  if negb (is_cont c3) then REPLACEMENT :: utf8_decode s2
                  else
                    match s3 with
                    | [] => [REPLACEMENT]
                    | c4 :: s4 =>
                        if is_cont c4
                        then ((c1 - 240) * 262144 + (c2 - 128) * 4096
                              + (c3 - 128) * 64 + (c4 - 128))%N
                               :: utf8_decode s4
                        else REPLACEMENT :: utf8_decode s3
                    end
              end
        end
      else REPLACEMENT :: utf8_decode s1
  end.

Definition hexval (c : N) : N :=
  if is_ascii_digit c then (c - 48)%N
  else if (c <=? 70)%N then (c - 55)%N
  else (c - 87)%N.

(** One piece after a ['%']: [_hextobyte[item[:2]]] or the [KeyError] path. *)
Definition unquote_item (item : str) : list N :=
  match item with
  | a :: b :: rest =>
      if is_hexdig a && is_hexdig b
      then (16 * hexval a + hexval b)%N :: rest
      else 37%N :: item
  | _ => 37%N :: item
  end.

(** [unquote_to_bytes] on an ASCII string. *)
Definition unquote_to_bytes (s : str) : list N :=
  match split 37 s with
  | [] => s
  | b0 :: items => b0 ++ flat_map unquote_item items
  end.

(** The loop of [unquote] over [_asciire.split(string)]: every maximal
    ASCII run is percent-decoded and decoded as UTF-8, the characters
    between the runs are kept.  [run] is the current run, reversed. *)
Fixpoint unquote_runs (run : str) (s : str) : str :=
  match s with
  | [] => utf8_decode (unquote_to_bytes (rev run))
  | c :: s' =>
      if isascii c then unquote_runs (c :: run) s'
      else utf8_decode (unquote_to_bytes (rev run)) ++ c :: unquote_runs [] s'
  end.

(** [unquote(string)] *)
Definition unquote (s : str) : str :=
  if mem 37 s then unquote_runs [] s else s.

(** ** Splitting *)

Record SplitResult := {
  sr_scheme : str; sr_netloc : str; sr_path : str;
  sr_query : str; sr_fragment : str
}.

Record ParseResult := {
  scheme : str; netloc : str; path : str;
  params : str; query : str; fragment : str
}.

Definition uses_params : list str :=
  List.map lit [""; "ftp"; "hdl"; "prospero"; "http"; "imap"; "https"; "shttp";
                "rtsp"; "rtspu"; "sip"; "sips"; "mms"; "sftp"; "tel"]%string.

Definition scheme_chars (c : N) : bool :=
  is_ascii_alpha c || is_ascii_digit c
  || (c =? 43)%N || (c =? 45)%N || (c =? 46)%N.

(** [_WHATWG_C0_CONTROL_OR_SPACE] *)
Definition c0_control_or_space (c : N) : bool := (c <=? 32)%N.

(** [_UNSAFE_URL_BYTES_TO_REMOVE] *)
Definition unsafe_url_bytes : list N := [9; 13; 10]%N.

Definition _splitnetloc (url : str) (start : nat) : str * str :=
  let delim :=
    fold_left
      (fun delim c =>
         match find_from c start url with
         | Some wdelim => Nat.min delim wdelim
         | None => delim
         end)
      (lit "/?#") (length url) in
  (skipn start (firstn delim url), skipn delim url).

(** [\Av[a-fA-F0-9]+\..+\Z] *)
Definition ipvfuture_re : Re.re :=
  Re.Seq Re.Bos
    (Re.Seq (Re.Cls (Re.chr_is "v"))
       (Re.Seq (Re.Rep is_hexdig 1 None)
          (Re.Seq (Re.Cls (Re.chr_is "."))
             (Re.Seq (Re.Rep Re.dot 1 None) Re.EndZ)))).

Section WithTables.
Context {T : Tables}.

Definition _checknetloc (netloc : str) : res unit :=
  if negb (nonempty netloc) || str_isascii netloc then Ok tt
  else
    let n := remove_char 63 (remove_char 35 (remove_char 58
               (remove_char 64 netloc))) in
    let netloc2 := nfkc n in
    if str_eqb n netloc2 then Ok tt
    else if existsb (fun c => mem c netloc2) (lit "/?#@:")
         then Raise (ValueError NetlocNFKC)
         else Ok tt.

Definition _check_bracketed_host (hostname : str) : res unit :=
  if startswith (lit "v") hostname then
    if Re.matches ipvfuture_re hostname then Ok tt
    else Raise (ValueError InvalidIPvFuture)
  else
    match ip_address hostname with
    | Some false => Ok tt
    | _ => Raise (ValueError InvalidBracketedHost)
    end.

Definition _check_bracketed_netloc (netloc : str) : res unit :=
  let '(_, _, hostname_and_port) := rpartition 64 netloc in
  let '(before_bracket, have_open_br, bracketed) :=
    partition 91 hostname_and_port in
  if have_open_br then
    if nonempty before_bracket then Raise (ValueError InvalidIPv6URL)
    else
      let '(hostname, _, port) := partition 93 bracketed in
      if nonempty port && negb (startswith (lit ":") port)
      then Raise (ValueError InvalidIPv6URL)
      else _check_bracketed_host hostname
  else
    let '(hostname, _, _) := partition 58 hostname_and_port in
    _check_bracketed_host hostname.

(** The scheme part of [urlsplit]: the text before the first [':'] when it
    is made of scheme characters and starts with an ASCII letter. *)
Definition split_scheme (url : str) : str * str :=
  match find 58 url, url with
  | Some (S i'), c0 :: _ =>
      if isascii c0 && is_ascii_alpha c0
         && forallb scheme_chars (firstn (S i') url)
      then (lower (firstn (S i') url), skipn (S (S i')) url)
      else ([], url)
  | _, _ => ([], url)
  end.

(** The authority part of [urlsplit], with its checks of the brackets. *)
Definition split_authority (url : str) : res (str * str) :=
  if str_eqb (firstn 2 url) (lit "//") then
    let '(netloc, url) := _splitnetloc url 2 in
    if (mem 91 netloc && negb (mem 93 netloc))
       || (mem 93 netloc && negb (mem 91 netloc))
    then Raise (ValueError InvalidIPv6URL)
    else
      _ <- (if mem 91 netloc && mem 93 netloc
            then _check_bracketed_netloc netloc else Ok tt) ;;
      Ok (netloc, url)
  else Ok ([], url).

(** [url.split(c, 1)] when [c in url], else the text and an empty rest. *)
Definition split_off (c : N) (url : str) : str * str :=
  if mem c url then let '(a, _, b) := partition c url in (a, b)
  else (url, []).

(** [urlsplit(url)] with the default [scheme=''] and fragments allowed. *)
Definition urlsplit (url : str) : res SplitResult :=
  let url := lstrip_of c0_control_or_space url in
  let url := fold_left (fun u b => remove_char b u) unsafe_url_bytes url in
  let '(scheme, url) := split_scheme url in
  '(netloc, url) <- split_authority url ;;
  let '(url, fragment) := split_off 35 url in
  let '(url, query) := split_off 63 url in
  _ <- _checknetloc netloc ;;
  Ok {| sr_scheme := scheme; sr_netloc := netloc; sr_path := url;
        sr_query := query; sr_fragment := fragment |}.

Definition _splitparams (url : str) : str * str :=
  if mem 47 url then
    match rfind 47 url with
    | Some j =>
        match find_from 59 j url with
        | Some i => (firstn i url, skipn (S i) url)
        | None => (url, [])
        end
    | None => (url, [])
    end
  else
    match find 59 url with
    | Some i => (firstn i url, skipn (S i) url)
    | None => (firstn (length url - 1) url, url)
    end.

(** [urlparse(url)] *)
Definition urlparse (url : str) : res ParseResult :=
  sr <- urlsplit url ;;
  let '(url, params) :=
    if existsb (str_eqb (sr_scheme sr)) uses_params && mem 59 (sr_path sr)
    then _splitparams (sr_path sr)
    else (sr_path sr, []) in
  Ok {| scheme := sr_scheme sr; netloc := sr_netloc sr; path := url;
        params := params; query := sr_query sr;
        fragment := sr_fragment sr |}.

(** The [_hostinfo] property: host text and port text. *)
Definition _hostinfo (p : ParseResult) : str * option str :=
  let '(_, _, hostinfo) := rpartition 64 (netloc p) in
  let '(_, have_open_br, bracketed) := partition 91 hostinfo in
  let '(hostname, port) :=
    if have_open_br then
      let '(hostname, _, port) := partition 93 bracketed in
      let '(_, _, port) := partition 58 port in
      (hostname, port)
    else
      let '(hostname, _, port) := partition 58 hostinfo in
      (hostname, port) in
  (hostname, if nonempty port then Some port else None).

(** The [hostname] property; [None] is Python's [None]. *)
Definition hostname (p : ParseResult) : option str :=
  let hostname := fst (_hostinfo p) in
  if nonempty hostname then
    let '(hostname, percent, zone) := partition 37 hostname in
    Some (lower hostname ++ (if percent then lit "%" else []) ++ zone)
  else None.

(** The [port] property. *)
Definition port (p : ParseResult) : res (option N) :=
  match snd (_hostinfo p) with
  | None => Ok None
  | Some port =>
      if forallb is_ascii_digit port then
        let port := int_of_digits port in
        if (port <=? 65535)%N then Ok (Some port)
        else Raise (ValueError PortOutOfRange)
      else Raise (ValueError PortNotInteger)
  end.

End WithTables.
End UrlLib.

(** Tables that are empty beyond ASCII.  They serve to run the program on
    ASCII inputs without brackets, where no table is consulted. *)
#[global] Instance ascii_tables : Py.Tables := {|
  Py.uc_lower := fun s => s;
  Py.uc_isdigit := fun _ => false;
  Py.uc_isdecimal := fun _ => false;
  Py.nfkc := fun s => s;
  Py.ip_address := fun _ => None
|}.

(* ------------------------------------------------------------------ *)
(** * Numbers and the result contract                                   *)
(* ------------------------------------------------------------------ *)

Definition Qltb (a b : Q) : bool := negb (Qle_bool b a).

(** Round to the nearest integer, ties to the even one: the rule of
    Python's [round]. *)
Definition Qround_half_even (q : Q) : Z :=
  let f := Qfloor q in
  let d := (q - inject_Z f)%Q in
  if Qltb d (1 # 2) then f
  else if Qltb (1 # 2) d then (f + 1)%Z
  else if Z.even f then f else (f + 1)%Z.

(** [round(q, ndigits)] on a rational. *)
Definition round_Q (q : Q) (ndigits : nat) : Q :=
  let m := inject_Z (10 ^ Z.of_nat ndigits) in
  (inject_Z (Qround_half_even (q * m)) / m)%Q.

Definition Rround_half_even (x : R) : Z :=
  let f := Int_part x in
  let d := (x - IZR f)%R in
  if Rlt_dec d (1 / 2) then f
  else if Rlt_dec (1 / 2) d then (f + 1)%Z
  else if Z.even f then f else (f + 1)%Z.

(** [round(x, ndigits)] on a real. *)
Definition round_R (x : R) (ndigits : nat) : R :=
  (IZR (Rround_half_even (x * 10 ^ ndigits)) / 10 ^ ndigits)%R.

Inductive Classification := Safe | Suspicious | Phishing | Error.

(** The value of the ["engine"] key. *)
Inductive engine_id :=
| HeuristicEngine_v2_0            (* "Heuristic Engine v2.0" *)
| VirusTotalAPI (total_engines : Z)  (* "VirusTotal API (n engines)" *)
| ML_RandomForest_v1_0            (* "ML RandomForest v1.0" *)
| EngineNA.                       (* "N/A" *)

(** One line of ["reasoning"]: the check that wrote it and the discrete
    values it prints.  The penalty printed with a line is the one the same
    check adds to the score. *)
Inductive reason :=
| LongDomain (domain_len : nat)
| HighEntropy
| MultipleHyphens (hyphen_count : nat)
| SuspiciousKeywords (found_keywords : list Py.str)
| HighRiskTLD
| RawIPAddress
| DeepSubdomains (subdomain_depth : Z)
| HomographChars (homographs : list (N * N))
| BrandSpoofing (brands : list Py.str)
| NoHTTPS
| DeepPath (path_depth : nat)
| AtSign
| HighDigitRatio
| NoIndicators                     (* "No suspicious indicators detected" *)
| VTDetection (malicious suspicious total_engines : Z)
| VTDetectionRatio
| VTHarmless (harmless undetected : Z)
| ModelLine                        (* a line of the statistical model *)
| ErrorText (e : exn).             (* [str(e)] *)

(** The ["features"] dictionary of the heuristic engine. *)
Record Features := {
  f_domain_length : nat;
  f_entropy : R;
  f_hyphen_count : nat;
  f_suspicious_keywords : list Py.str;
  f_tld_risk : Q;
  f_is_ip_address : bool;
  f_subdomain_depth : Z;
  f_homograph_chars : list (N * N);
  f_brand_spoofing : list (Py.str * nat);
  f_uses_https : bool;
  f_path_depth : nat;
  f_has_at_sign : bool;
  f_digit_ratio : Q
}.

(** A dictionary of integers with string keys, in insertion order. *)
Definition dict := list (string * Z).

Fixpoint dict_get (d : dict) (key : string) (default : Z) : Z :=
  match d with
  | [] => default
  | (k, v) :: d' => if String.eqb k key then v else dict_get d' key default
  end.

(** The result dictionary shared by the engines.  A key that an engine
    does not write is [None]. *)
Record Assessment := {
  risk_score : R;
  classification : Classification;
  confidence : Q;
  reasoning : list reason;
  engine : engine_id;
  features : option Features;
  api_used : option bool;
  raw_stats : option dict
}.

(** [result["api_used"] = b] *)
Definition set_api_used (r : Assessment) (b : bool) : Assessment :=
  {| risk_score := risk_score r; classification := classification r;
     confidence := confidence r; reasoning := reasoning r;
     engine := engine r; features := features r;
     api_used := Some b; raw_stats := raw_stats r |}.

(* ------------------------------------------------------------------ *)
(** * core/heuristic_engine.py                                          *)
(* ------------------------------------------------------------------ *)

Module HeuristicEngine.
Import Py UrlLib.

Definition SUSPICIOUS_KEYWORDS : list str :=
  List.map lit
    ["login"; "signin"; "sign-in"; "verify"; "secure"; "account";
     "update"; "confirm"; "bank"; "paypal"; "password"; "credential";
     "suspend"; "alert"; "urgent"; "click"; "free"; "winner"; "prize";
     "bonus"; "offer"; "gift"; "reward"; "billing"; "invoice";
     "authenticate"; "wallet"; "recover"; "unlock"; "validate";
     "webscr"; "cmd"; "token"; "auth"; "sso"; "oauth"]%string.

Definition HIGH_RISK_TLDS : list (str * Q) :=
  List.map (fun kv => (lit (fst kv), inject_Z (snd kv)))
    [(".tk", 8); (".ml", 8); (".ga", 8); (".cf", 8); (".gq", 8);
     (".xyz", 6); (".top", 6); (".pw", 7); (".cc", 5); (".club", 5);
     (".work", 5); (".buzz", 6); (".icu", 6); (".cam", 5); (".surf", 5);
     (".link", 4); (".click", 5); (".info", 3); (".biz", 3); (".online", 4);
     (".site", 4); (".store", 3); (".fun", 4)]%string%Z.

Definition TARGET_BRANDS : list (str * list str) :=
  List.map (fun kv => (lit (fst kv), List.map lit (snd kv)))
    [("facebook",  ["faceb00k"; "facbook"; "facebk"; "fb-login"; "faceb0ok"]);
     ("google",    ["g00gle"; "gogle"; "googl"; "go0gle"; "goog1e"]);
     ("paypal",    ["paypa1"; "paypall"; "pay-pal"; "payp4l"]);
     ("microsoft", ["micros0ft"; "microsft"; "m1crosoft"; "micr0soft"]);
     ("apple",     ["app1e"; "appie"; "apple-id"; "appl3"]);
     ("amazon",    ["amaz0n"; "amazn"; "arnazon"; "amzon"]);
     ("netflix",   ["netf1ix"; "netflex"; "netfl1x"]);
     ("instagram", ["1nstagram"; "instagran"; "lnstagram"]);
     ("twitter",   ["tw1tter"; "tvvitter"; "twiiter"]);
     ("linkedin",  ["linkedln"; "l1nkedin"; "linkdin"])]%string.

(** A dictionary display stores the last value written for a key, at the
    place of the key's first occurrence. *)
Fixpoint dict_set (d : list (N * N)) (k v : N) : list (N * N) :=
  match d with
  | [] => [(k, v)]
  | (k', v') :: d' =>
      if (k' =? k)%N then (k', v) :: d' else (k', v') :: dict_set d' k v
  end.

Definition HOMOGRAPH_MAP : list (N * N) :=
  fold_left (fun d kv => dict_set d (fst kv) (ch (snd kv)))
    [(0x0430, "a"); (0x0435, "e"); (0x043e, "o"); (0x0440, "p");
     (0x0441, "c"); (0x0443, "y"); (0x0445, "x"); (0x04bb, "h");
     (0x0456, "i"); (0x0458, "j"); (0x04cf, "l"); (0x043d, "n");
     (0x0455, "s"); (0x0442, "t"); (0x044a, "b"); (0x0432, "v");
     (0x0448, "w"); (0x0443, "u"); (0x0437, "3")]%N%char [].

Fixpoint homograph_lookup (d : list (N * N)) (c : N) : option N :=
  match d with
  | [] => None
  | (k, v) :: d' => if (k =? c)%N then Some v else homograph_lookup d' c
  end.

(** ** Feature extraction helpers *)

(** [Counter(text)]: the characters in order of first occurrence, each
    with its number of occurrences. *)
Fixpoint counter_incr (c : N) (freq : list (N * nat)) : list (N * nat) :=
  match freq with
  | [] => [(c, 1%nat)]
  | (k, v) :: freq' =>
      if (k =? c)%N then (k, S v) :: freq'
      else (k, v) :: counter_incr c freq'
  end.

Definition Counter (text : str) : list (N * nat) :=
  fold_left (fun freq c => counter_incr c freq) text [].

Definition log2 (x : R) : R := (ln x / ln 2)%R.

(** [sum(xs)] *)
Definition Rsum (xs : list R) : R := fold_left Rplus xs 0%R.

Definition _shannon_entropy (text : str) : R :=
  match text with
  | [] => 0%R
  | _ =>
      let freq := Counter text in
      let len := INR (length text) in
      (- Rsum (List.map (fun c => INR c / len * log2 (INR c / len))
                        (List.map snd freq)))%R
  end.

(** [_levenshtein]: one row of the table.  [prev] is [prev_row[j:]] and
    [last] is [curr_row[j]]. *)
Fixpoint lev_row (c1 : N) (s2 : str) (prev : list nat) (last : nat)
  : list nat :=
  match s2, prev with
  | c2 :: s2', pj :: ((pj1 :: _) as prev') =>
      let insertions := (pj1 + 1)%nat in
      let deletions := (last + 1)%nat in
      let substitutions := (pj + (if (c1 =? c2)%N then 0 else 1))%nat in
      let v := Nat.min insertions (Nat.min deletions substitutions) in
      v :: lev_row c1 s2' prev' v
  | _, _ => []
  end.

Fixpoint lev_rows (s1 s2 : str) (i : nat) (prev_row : list nat) : list nat :=
  match s1 with
  | [] => prev_row
  | c1 :: s1' =>
      let curr_row := S i :: lev_row c1 s2 prev_row (S i) in
      lev_rows s1' s2 (S i) curr_row
  end.

Definition lev_ordered (s1 s2 : str) : nat :=
  match s2 with
  | [] => length s1
  | _ => last (lev_rows s1 s2 0 (seq 0 (length s2 + 1))) 0%nat
  end.

Definition _levenshtein (s1 s2 : str) : nat :=
  if (length s1 <? length s2)%nat then lev_ordered s2 s1
  else lev_ordered s1 s2.

Definition _detect_homographs (domain : str) : list (N * N) :=
  flat_map
    (fun c =>
       match homograph_lookup HOMOGRAPH_MAP c with
       | Some looks_like => [(c, looks_like)]
       | None => []
       end)
    domain.

Section WithTables.
Context {T : Tables}.

(** [^(\d{1,3}\.){3}\d{1,3}$|^\[?[0-9a-fA-F:]+\]?$] *)
Definition ip_pattern : Re.re :=
  Re.Alt
    (Re.Seq Re.Bos
       (Re.Seq
          (Re.Times (Re.Seq (Re.Rep isdecimal 1 (Some 3%nat))
                            (Re.Cls (Re.chr_is "."))) 3)
          (Re.Seq (Re.Rep isdecimal 1 (Some 3%nat)) Re.Dollar)))
    (Re.Seq Re.Bos
       (Re.Seq (Re.Opt (Re.Cls (Re.chr_is "[")))
          (Re.Seq (Re.Rep (fun c => is_hexdig c || Re.chr_is ":" c) 1 None)
             (Re.Seq (Re.Opt (Re.Cls (Re.chr_is "]"))) Re.Dollar)))).

Definition _is_ip_address (host : str) : bool :=
  Re.matches ip_pattern host.

Definition _detect_brand_spoofing (domain : str) : list (str * nat) :=
  let domain_lower := lower domain in
  flat_map
    (fun bv =>
       let '(brand, variants) := bv in
       (if contains brand domain_lower then
          let core := hd [] (split 46 domain_lower) in
          if negb (str_eqb core brand) then [(brand, 0%nat)] else []
        else [])
       ++ flat_map
            (fun variant =>
               if contains variant domain_lower then
                 let dist := _levenshtein variant brand in
                 [(brand ++ lit " (variant: " ++ variant ++ lit ")", dist)]
               else [])
            variants)
    TARGET_BRANDS.

(** ** The checks of [analyze_url]

    A check yields the penalty it adds to the score together with the line
    it appends to the reasons, or nothing. *)

Definition check_domain_length (host : str) : option (Q * reason) :=
  let domain_len := length host in
  if (30 <? domain_len)%nat then
    let penalty :=
      Qmin ((inject_Z (Z.of_nat domain_len) - 30) * (1 # 2)) 12 in
    Some (penalty, LongDomain domain_len)
  else None.

Definition check_entropy (host : str) : option (R * reason) :=
  let entropy := _shannon_entropy host in
  if Rlt_dec (38 / 10) entropy then
    let penalty := Rmin ((entropy - 38 / 10) * 8) 15 in
    Some (penalty, HighEntropy)
  else None.

Definition check_hyphens (host : str) : option (Q * reason) :=
  let hyphen_count := count 45 host in
  if (2 <=? hyphen_count)%nat then
    let penalty := Qmin (inject_Z (Z.of_nat hyphen_count * 3)) 12 in
    Some (penalty, MultipleHyphens hyphen_count)
  else None.

Definition find_keywords (full : str) : list str :=
  filter (fun kw => contains kw (lower full)) SUSPICIOUS_KEYWORDS.

Definition check_keywords (full : str) : option (Q * reason) :=
  let found_keywords := find_keywords full in
  if nonempty found_keywords then
    let penalty := Qmin (inject_Z (Z.of_nat (length found_keywords) * 4)) 20 in
    Some (penalty, SuspiciousKeywords found_keywords)
  else None.

(** The loop over [HIGH_RISK_TLDS] with its [break]. *)
Fixpoint tld_risk_in (tlds : list (str * Q)) (host : str) : Q :=
  match tlds with
  | [] => 0
  | (tld, risk) :: tlds' =>
      if endswith tld host then risk else tld_risk_in tlds' host
  end.

Definition tld_risk (host : str) : Q := tld_risk_in HIGH_RISK_TLDS host.

Definition check_tld (host : str) : option (Q * reason) :=
  let tld_score := tld_risk host in
  if negb (Qeq_bool tld_score 0) then Some (tld_score, HighRiskTLD)
  else None.

Definition check_ip (host : str) : option (Q * reason) :=
  if _is_ip_address host then Some (15, RawIPAddress) else None.

Definition subdomain_depth_of (host : str) : Z :=
  if nonempty host then (Z.of_nat (count 46 host) - 1)%Z else 0%Z.

Definition check_subdomains (host : str) : option (Q * reason) :=
  let subdomain_depth := subdomain_depth_of host in
  if (3 <=? subdomain_depth)%Z then
    let penalty := Qmin (inject_Z ((subdomain_depth - 2) * 4)) 12 in
    Some (penalty, DeepSubdomains subdomain_depth)
  else None.

Definition check_homographs (host : str) : option (Q * reason) :=
  let homographs := _detect_homographs host in
  if nonempty homographs then
    let penalty := Qmin (inject_Z (Z.of_nat (length homographs) * 8)) 20 in
    Some (penalty, HomographChars homographs)
  else None.

Definition check_brands (host : str) : option (Q * reason) :=
  let brand_hits := _detect_brand_spoofing host in
  if nonempty brand_hits then
    let penalty := Qmin (inject_Z (Z.of_nat (length brand_hits) * 8)) 20 in
    Some (penalty, BrandSpoofing (List.map fst brand_hits))
  else None.

Definition uses_https_of (parsed : ParseResult) : bool :=
  str_eqb (scheme parsed) (lit "https").

Definition check_https (parsed : ParseResult) : option (Q * reason) :=
  if negb (uses_https_of parsed) then Some (5, NoHTTPS) else None.

Definition path_depth_of (path : str) : nat :=
  length (filter nonempty (split 47 path)).

Definition check_path_depth (path : str) : option (Q * reason) :=
  let path_depth := path_depth_of path in
  if (5 <? path_depth)%nat then
    let penalty := Qmin (inject_Z ((Z.of_nat path_depth - 5) * 2)) 8 in
    Some (penalty, DeepPath path_depth)
  else None.

Definition check_at_sign (url : str) : option (Q * reason) :=
  if mem 64 url then Some (10, AtSign) else None.

Definition digit_ratio_of (host : str) : Q :=
  match host with
  | [] => 0
  | _ => inject_Z (Z.of_nat (length (filter isdigit host)))
         / inject_Z (Z.of_nat (length host))
  end.

Definition check_digit_ratio (host : str) : option (Q * reason) :=
  let digit_ratio := digit_ratio_of host in
  if Qltb (3 # 10) digit_ratio then
    let penalty := Qmin (digit_ratio * 20) 10 in
    Some (penalty, HighDigitRatio)
  else None.

Definition inR (c : option (Q * reason)) : option (R * reason) :=
  option_map (fun pr => (Q2R (fst pr), snd pr)) c.

Definition host_of (parsed : ParseResult) : str :=
  match hostname parsed with Some h => h | None => [] end.

(** The checks that fired, in evaluation order; [url] is the URL after the
    normalising prologue. *)
Definition fired_checks (url : str) (parsed : ParseResult)
  : list (R * reason) :=
  let host := host_of parsed in
  let path := path parsed in
  let full := host ++ path in
  flat_map (fun c => match c with Some x => [x] | None => [] end)
    [ inR (check_domain_length host);
      check_entropy host;
      inR (check_hyphens host);
      inR (check_keywords full);
      inR (check_tld host);
      inR (check_ip host);
      inR (check_subdomains host);
      inR (check_homographs host);
      inR (check_brands host);
      inR (check_https parsed);
      inR (check_path_depth path);
      inR (check_at_sign url);
      inR (check_digit_ratio host) ].

(** The running [score] before the clamp. *)
Definition total_score (url : str) (parsed : ParseResult) : R :=
  Rsum (List.map fst (fired_checks url parsed)).

(** [max(0.0, min(100.0, score))] *)
Definition clamp (score : R) : R := Rmax 0 (Rmin 100 score).

Definition classify (score : R) : Classification :=
  if Rlt_dec score 30 then Safe
  else if Rlt_dec score 65 then Suspicious
  else Phishing.

Definition extract_features (url : str) (parsed : ParseResult) : Features :=
  let host := host_of parsed in
  {| f_domain_length := length host;
     f_entropy := round_R (_shannon_entropy host) 3;
     f_hyphen_count := count 45 host;
     f_suspicious_keywords := find_keywords (host ++ path parsed);
     f_tld_risk := tld_risk host;
     f_is_ip_address := _is_ip_address host;
     f_subdomain_depth := Z.max (subdomain_depth_of host) 0;
     f_homograph_chars := _detect_homographs host;
     f_brand_spoofing := _detect_brand_spoofing host;
     f_uses_https := uses_https_of parsed;
     f_path_depth := path_depth_of (path parsed);
     f_has_at_sign := mem 64 url;
     f_digit_ratio := round_Q (digit_ratio_of host) 3 |}.

(** The body of [analyze_url] after parsing. *)
Definition assess (url : str) (parsed : ParseResult) : Assessment :=
  let reasons := List.map snd (fired_checks url parsed) in
  let score := clamp (total_score url parsed) in
  let active_features := length reasons in
  let total_checks := 12%Z in
  let confidence :=
    Qmin ((1 # 2) + inject_Z (Z.of_nat active_features)
                    / inject_Z total_checks * (1 # 2)) 1 in
  let reasons :=
    match reasons with [] => [NoIndicators] | _ => reasons end in
  {| risk_score := round_R score 2;
     classification := classify score;
     confidence := round_Q confidence 3;
     reasoning := reasons;
     engine := HeuristicEngine_v2_0;
     features := Some (extract_features url parsed);
     api_used := None;
     raw_stats := None |}.

(** The normalising prologue of [analyze_url]. *)
Definition prepare (url : str) : str :=
  let url := strip (unquote url) in
  with_http_prefix url.

Definition analyze_url (url : str) : res Assessment :=
  let url := prepare url in
  parsed <- urlparse url ;;
  Ok (assess url parsed).

End WithTables.
End HeuristicEngine.

(* ------------------------------------------------------------------ *)
(** * core/api_client.py                                                *)
(* ------------------------------------------------------------------ *)

Module ApiClient.
Import Py UrlLib.

Definition _RATE_LIMIT : nat := 4.
Definition _RATE_WINDOW : Q := 60.

(** ** The rate limiter

    The process-wide state is the list [_request_times]; the clock is the
    value that [time.time()] returns.  The whole body runs under
    [_rate_lock], so calls are steps of one sequential machine. *)
Record Limiter := {
  clock : Q;
  _request_times : list Q
}.

(** [[t for t in _request_times if now - t < _RATE_WINDOW]] *)
Definition prune (now : Q) (times : list Q) : list Q :=
  filter (fun t => Qltb (now - t) _RATE_WINDOW) times.

(** The time spent in [time.sleep], as the code requests it. *)
Definition requested_sleep (now : Q) (times : list Q) : Q :=
  if (_RATE_LIMIT <=? length times)%nat then
    let sleep_time := _RATE_WINDOW - (now - hd 0 times) + (1 # 2) in
    if Qltb 0 sleep_time then sleep_time else 0
  else 0.

(** One call of [_rate_limit_wait].  [lag] is the time that passes on top
    of the requested sleep before the second reading of the clock. *)
Definition _rate_limit_wait (lag : Q) (l : Limiter) : Limiter :=
  let now := clock l in
  let times := prune now (_request_times l) in
  let stamp := now + requested_sleep now times + lag in
  {| clock := stamp; _request_times := times ++ [stamp] |}.

(** Time passing between two calls. *)
Definition elapse (gap : Q) (l : Limiter) : Limiter :=
  {| clock := clock l + gap; _request_times := _request_times l |}.

(** A schedule gives, for each acquisition, the time since the previous
    call returned and the lag inside the call.  [acquisitions] runs it and
    lists the recorded timestamps of the admissions. *)
Fixpoint acquisitions (schedule : list (Q * Q)) (l : Limiter) : list Q :=
  match schedule with
  | [] => []
  | (gap, lag) :: rest =>
      let l' := _rate_limit_wait lag (elapse gap l) in
      clock l' :: acquisitions rest l'
  end.

Definition nonnegative (schedule : list (Q * Q)) : Prop :=
  Forall (fun gl => 0 <= fst gl /\ 0 <= snd gl) schedule.

(** The module is loaded with an empty [_request_times]. *)
Definition initial (start : Q) : Limiter :=
  {| clock := start; _request_times := [] |}.

(** The admissions whose timestamp lies in [[a, a + 60)]. *)
Definition in_window (a : Q) (stamps : list Q) : list Q :=
  filter (fun t => Qle_bool a t && Qltb t (a + _RATE_WINDOW)) stamps.

(** ** Normalization *)

Section WithTables.
Context {T : Tables}.

(** [f"{parsed.scheme.lower()}://{(parsed.hostname or '').lower()}"] *)
Definition scheme_and_host (parsed : ParseResult) : str :=
  lower (scheme parsed) ++ lit "://"
  ++ lower (match hostname parsed with Some h => h | None => [] end).

(** What [if parsed.port and parsed.port not in (80, 443)] appends. *)
Definition port_text (port : option N) : str :=
  match port with
  | Some p =>
      if negb (p =? 0)%N && negb ((p =? 80)%N || (p =? 443)%N)
      then lit ":" ++ str_of_N p
      else []
  | None => []
  end.

(** [parsed.path.rstrip("/") or "/"] *)
Definition path_text (path : str) : str :=
  let p := rstrip_of (Re.chr_is "/") path in
  if nonempty p then p else lit "/".

(** What [if parsed.query] appends. *)
Definition query_text (query : str) : str :=
  if nonempty query then lit "?" ++ query else [].

Definition _normalize_url (url : str) : res str :=
  let url := strip url in
  let url := with_http_prefix url in
  parsed <- urlparse url ;;
  let normalized := scheme_and_host parsed in
  port <- port parsed ;;
  let normalized := normalized ++ port_text port in
  let normalized := normalized ++ path_text (path parsed) in
  let normalized := normalized ++ query_text (query parsed) in
  Ok normalized.

End WithTables.

(** ** Building the result *)

Definition vt_classify (risk_score : Q) : Classification :=
  if Qltb risk_score 15 then Safe
  else if Qltb risk_score 50 then Suspicious
  else Phishing.

Definition total_engines_of (stats : dict) : Z :=
  let malicious := dict_get stats "malicious" 0 in
  let suspicious := dict_get stats "suspicious" 0 in
  let harmless := dict_get stats "harmless" 0 in
  let undetected := dict_get stats "undetected" 0 in
  let total_engines := (malicious + suspicious + harmless + undetected)%Z in
  if (total_engines =? 0)%Z then 1%Z else total_engines.

(** The [risk_score] of [_build_result], as a rational. *)
Definition vt_risk_score (stats : dict) : Q :=
  let malicious := dict_get stats "malicious" 0 in
  let suspicious := dict_get stats "suspicious" 0 in
  let total_engines := total_engines_of stats in
  let detection_ratio :=
    inject_Z (malicious + suspicious) / inject_Z total_engines in
  round_Q (detection_ratio * 100) 2.

Definition _build_result (url : str) (stats : dict) : Assessment :=
  let malicious := dict_get stats "malicious" 0 in
  let suspicious := dict_get stats "suspicious" 0 in
  let harmless := dict_get stats "harmless" 0 in
  let undetected := dict_get stats "undetected" 0 in
  let total_engines := total_engines_of stats in
  let risk_score := vt_risk_score stats in
  let classification := vt_classify risk_score in
  let confidence :=
    round_Q (Qmin (inject_Z total_engines / 70) 1) 3 in
  let reasoning :=
    [ VTDetection malicious suspicious total_engines;
      VTDetectionRatio;
      VTHarmless harmless undetected ] in
  {| risk_score := Q2R risk_score;
     classification := classification;
     confidence := confidence;
     reasoning := reasoning;
     engine := VirusTotalAPI total_engines;
     features := None;
     api_used := Some true;
     raw_stats := Some stats |}.

(** ** The submit/poll protocol *)

(** What [scan_url] does to the outside, in order. *)
Inductive event :=
| RateLimitWait                    (* [_rate_limit_wait()] *)
| Sleep (seconds : Z)              (* [time.sleep(seconds)] *)
| Post (url : str)                 (* [requests.post(VT_API_URL, ...)] *)
| Get (analysis_id : str).         (* [requests.get(analysis_url, ...)] *)

(** The outcome of an HTTP call: [requests.RequestException], or a
    response with its status code and what [.json()] gives. *)
Inductive http (Body : Type) :=
| RequestException
| Response (status_code : Z) (body : Body).
Arguments RequestException {Body}.
Arguments Response {Body} status_code body.

(** The body of the submission response, as far as
    [submit_resp.json()["data"]["id"]] reads it. *)
Inductive submit_body :=
| SubmitNotJSON                    (* [ValueError] *)
| SubmitNoId                       (* [KeyError] *)
| SubmitOtherShape                 (* the document, or its ["data"], is not
                                      an object: [TypeError] *)
| SubmitId (analysis_id : str).

(** The body of a poll response: [data.attributes.status] and
    [data.attributes.stats], each with the default of its [.get].  In
    [PollJSON] the statistics are an object whose counts are integers.
    [PollOtherShape] is a document that is not an object, or whose
    ["data"] or ["attributes"] is not an object; the last two are
    documents whose ["stats"] is not an object, or holds a count that is
    not a number.  The service reports its counts as integers; counts
    with a fractional part are not represented. *)
Inductive poll_body :=
| PollNotJSON
| PollJSON (status : option str) (stats : dict)
| PollOtherShape                             (* [AttributeError] *)
| PollStatsNotObject (status : option str)   (* [AttributeError] on use *)
| PollStatsNotNumbers (status : option str). (* [TypeError] on use *)

(** The reputation service: the answer to the submission and the answer
    to each poll attempt, numbered from 0. *)
Record Service := {
  submit : str -> http submit_body;
  poll : nat -> str -> http poll_body
}.

(** A computation that performs events and returns or raises. *)
Definition M (A : Type) : Type := list event * res A.

Definition ret {A} (a : A) : M A := ([], Ok a).
Definition raise {A} (e : exn) : M A := ([], Raise e).
Definition emit (e : event) : M unit := ([e], Ok tt).
Definition lift {A} (r : res A) : M A := ([], r).

Definition mbind {A B} (m : M A) (f : A -> M B) : M B :=
  match m with
  | (t, Ok a) => let '(t', r) := f a in (t ++ t', r)
  | (t, Raise e) => (t, Raise e)
  end.

Notation "x <~ m ;; k" := (mbind m (fun x => k))
  (at level 61, m at next level, right associativity).

(** [_get_api_key()], from the value of the environment variable (the
    empty string when it is unset). *)
Definition _get_api_key (env_value : str) : option str :=
  let key := strip env_value in
  if nonempty key then Some key else None.

Definition api_key_available (env_value : str) : bool :=
  match _get_api_key env_value with
  | Some key => (32 <=? length key)%nat
  | None => false
  end.

Definition completed : str := lit "completed".

(** The polling loop: [remaining] iterations are left and [attempt] have
    been made. *)
Fixpoint poll_loop (svc : Service) (url analysis_id : str)
         (remaining attempt : nat) : M Assessment :=
  match remaining with
  | O => raise (RuntimeError TimedOut)
  | S remaining' =>
      _ <~ emit (Sleep 5) ;;
      _ <~ emit RateLimitWait ;;
      _ <~ emit (Get analysis_id) ;;
      match poll svc attempt analysis_id with
      | RequestException =>
          poll_loop svc url analysis_id remaining' (S attempt)
      | Response status_code body =>
          if negb (status_code =? 200)%Z
          then poll_loop svc url analysis_id remaining' (S attempt)
          else
            match body with
            | PollNotJSON => raise (ValueError JSONDecodeError)
            | PollJSON status stats =>
                match status with
                | Some s =>
                    if str_eqb s completed
                    then ret (_build_result url stats)
                    else poll_loop svc url analysis_id remaining' (S attempt)
                | None =>
                    poll_loop svc url analysis_id remaining' (S attempt)
                end
            | PollOtherShape => raise AttributeError
            | PollStatsNotObject status =>
                match status with
                | Some s =>
                    if str_eqb s completed
                    then raise AttributeError
                    else poll_loop svc url analysis_id remaining' (S attempt)
                | None =>
                    poll_loop svc url analysis_id remaining' (S attempt)
                end
            | PollStatsNotNumbers status =>
                match status with
                | Some s =>
                    if str_eqb s completed
                    then raise TypeError
                    else poll_loop svc url analysis_id remaining' (S attempt)
                | None =>
                    poll_loop svc url analysis_id remaining' (S attempt)
                end
            end
      end
  end.

Section WithTables.
Context {T : Tables}.

Definition scan_url (env_value : str) (svc : Service) (url : str)
  : M Assessment :=
  match _get_api_key env_value with
  | None => raise (RuntimeError NotConfigured)
  | Some api_key =>
      url <~ lift (_normalize_url url) ;;
      _ <~ emit RateLimitWait ;;
      _ <~ emit (Post url) ;;
      match submit svc url with
      | RequestException => raise (RuntimeError NetworkError)
      | Response status_code body =>
          if (status_code =? 401)%Z then raise (RuntimeError AuthError)
          else if (status_code =? 429)%Z then raise (RuntimeError RateLimited)
          else if negb ((status_code =? 200)%Z || (status_code =? 201)%Z)
          then raise (RuntimeError (SubmissionFailed status_code))
          else
            match body with
            | SubmitNotJSON | SubmitNoId =>
                raise (RuntimeError UnexpectedResponse)
            | SubmitOtherShape => raise TypeError
            | SubmitId analysis_id =>
                poll_loop svc url analysis_id 12 0
            end
      end
  end.

End WithTables.
End ApiClient.

(* ------------------------------------------------------------------ *)
(** * ui/scanner_tab.py                                                 *)
(* ------------------------------------------------------------------ *)

Module ScannerTab.
Import Py.

(** What [_run_scan] finds around it: the credential and the reputation
    service, the statistical model, and the storage of the result. *)
Record World := {
  VIRUSTOTAL_API_KEY : str;
  service : ApiClient.Service;
  model_available : bool;
  predict : str -> res (option Assessment);
  insert_scan : str -> Assessment -> res unit
}.

(** The dictionary of the outer [except] clause.  It writes ["features"]
    as the empty dictionary, which has no feature value: the record holds
    [None] for it, as for the keys that are not written. *)
Definition error_result (e : exn) : Assessment :=
  {| risk_score := 0%R;
     classification := Error;
     confidence := 0;
     reasoning := [ErrorText e];
     engine := EngineNA;
     features := None;
     api_used := None;
     raw_stats := None |}.

Section WithTables.
Context {T : Tables}.

(** The engines in their order; [None] is the empty dictionary. *)
Definition select_engine (w : World) (url : str) : res Assessment :=
  let result :=
    if ApiClient.api_key_available (VIRUSTOTAL_API_KEY w) then
      match snd (ApiClient.scan_url (VIRUSTOTAL_API_KEY w) (service w) url) with
      | Ok r => Some r
      | Raise _ => None
      end
    else None in
  result <-
    (match result with
     | None =>
         if model_available w then
           ml_result <- predict w url ;;
           match ml_result with
           | Some r => Ok (Some (set_api_used r false))
           | None => Ok None
           end
         else Ok None
     | Some r => Ok (Some r)
     end) ;;
  match result with
  | None =>
      r <- HeuristicEngine.analyze_url url ;;
      Ok (set_api_used r false)
  | Some r => Ok r
  end.

(** [_run_scan]: the result that is emitted on [result_ready]. *)
Definition _run_scan (w : World) (url : str) : Assessment :=
  match (result <- select_engine w url ;;
         _ <- insert_scan w url result ;;
         Ok result) with
  | Ok result => result
  | Raise e => error_result e
  end.

End WithTables.
End ScannerTab.

(* ------------------------------------------------------------------ *)
(** * core/ml_engine.py                                                 *)
(* ------------------------------------------------------------------ *)

Module MlEngine.

(** The verdict of [predict] for a [risk_score]. *)
Definition ml_classify (risk_score : Q) : Classification :=
  if Qltb risk_score 30 then Safe
  else if Qltb risk_score 65 then Suspicious
  else Phishing.

(** The dictionary that [predict] returns, from the probability
    [phishing_prob] that the loaded model gave and the lines written from
    its feature importances. *)
Definition predict_result (phishing_prob : Q) (reasoning : list reason)
  : Assessment :=
  let risk_score := round_Q (phishing_prob * 100) 2 in
  let classification := ml_classify risk_score in
  let confidence := round_Q (Qmax phishing_prob (1 - phishing_prob)) 3 in
  {| risk_score := Q2R risk_score;
     classification := classification;
     confidence := confidence;
     reasoning := reasoning;
     engine := ML_RandomForest_v1_0;
     features := None;
     api_used := None;
     raw_stats := None |}.

End MlEngine.

(* ------------------------------------------------------------------ *)
(** * ui/scanner_tab.py: the colour and the gauge                       *)
(* ------------------------------------------------------------------ *)

From Stdlib Require Import Qabs.

Module RiskDisplay.

Inductive QColor :=
| SUCCESS                          (* "#22c55e" *)
| WARNING                          (* "#f59e0b" *)
| DANGER.                          (* "#ef4444" *)

Definition _risk_color (score : R) : QColor :=
  if Rlt_dec score 30 then SUCCESS
  else if Rlt_dec score 65 then WARNING
  else DANGER.

(** The state of a [RiskGauge]; [timer_active] tells whether [_timer]
    is running. *)
Record RiskGauge := {
  _score : Q;
  _target : Q;
  _label : string;
  timer_active : bool
}.

(** [RiskGauge.__init__] *)
Definition new_gauge : RiskGauge :=
  {| _score := 0; _target := 0; _label := "—"; timer_active := false |}.

Definition set_score (self : RiskGauge) (score : Q) (label : string)
  : RiskGauge :=
  {| _score := _score self;
     _target := Qmax 0 (Qmin 100 score);
     _label := label;
     timer_active := true |}.

Definition _animate (self : RiskGauge) : RiskGauge :=
  let diff := _target self - _score self in
  if Qltb (Qabs diff) (1 # 2) then
    {| _score := _target self; _target := _target self;
       _label := _label self; timer_active := false |}
  else
    {| _score := _score self + diff * (12 # 100); _target := _target self;
       _label := _label self; timer_active := timer_active self |}.

(** One period of the timer: [_animate] runs when the timer is running. *)
Definition tick (self : RiskGauge) : RiskGauge :=
  if timer_active self then _animate self else self.

Fixpoint ticks (n : nat) (self : RiskGauge) : RiskGauge :=
  match n with
  | O => self
  | S n' => ticks n' (tick self)
  end.

End RiskDisplay.

(* ================================================================== *)
(** * Properties                                                        *)
(* ================================================================== *)

(** ** Comparisons and rounding *)

Lemma Qltb_lt (a b : Q) : Qltb a b = true <-> (a < b)%Q.
Proof.
  unfold Qltb. rewrite negb_true_iff.
  split; intro H.
  - apply Qnot_le_lt. intro L. apply Qle_bool_iff in L. congruence.
  - destruct (Qle_bool b a) eqn:E; [|reflexivity].
    apply Qle_bool_iff in E. exfalso. apply (Qlt_not_le _ _ H E).
Qed.

Lemma Qltb_ge (a b : Q) : Qltb a b = false <-> (b <= a)%Q.
Proof.
  unfold Qltb. rewrite negb_false_iff. apply Qle_bool_iff.
Qed.

Lemma Q2R_inject_Z (z : Z) : Q2R (inject_Z z) = IZR z.
Proof. unfold Q2R, inject_Z. simpl. lra. Qed.

(** ** The reputation client's thresholds (C2) *)

Module ApiClientFacts.
Import Py ApiClient.

Definition sample_stats : dict := [("malicious", 1%Z); ("harmless", 4%Z)]%string.

(** C2, refuted as stated: with one malicious and four harmless detectors
    the risk score is 20, which the thresholds of the heuristic scorer put
    in Safe, and [_build_result] classifies it as Suspicious. *)
Lemma build_result_not_heuristic_thresholds :
  let r := _build_result (lit "http://example.com/") sample_stats in
  (risk_score r < 30)%R /\ classification r = Suspicious.
Proof.
  cbv zeta. split.
  - unfold _build_result. cbn [risk_score].
    replace (vt_risk_score sample_stats) with (2000 # 100)%Q
      by (vm_compute; reflexivity).
    unfold Q2R. cbn [Qnum Qden]. lra.
  - vm_compute. reflexivity.
Qed.

(** C2, amended: for every set of detector statistics, the classification
    of [_build_result] is the bucket of its own risk score under the
    thresholds 15 and 50: below 15 Safe, from 15 and below 50 Suspicious,
    from 50 Phishing. *)
Theorem build_result_thresholds (url : str) (stats : dict) :
  let r := _build_result url stats in
  (risk_score r < 15 /\ classification r = Safe)%R
  \/ (15 <= risk_score r < 50 /\ classification r = Suspicious)%R
  \/ (50 <= risk_score r /\ classification r = Phishing)%R.
Proof.
  cbv zeta. unfold _build_result. cbn [risk_score classification].
  set (q := vt_risk_score stats). unfold vt_classify.
  assert (E15 : Q2R 15 = 15%R) by (apply (Q2R_inject_Z 15)).
  assert (E50 : Q2R 50 = 50%R) by (apply (Q2R_inject_Z 50)).
  destruct (Qltb q 15) eqn:H15.
  - left. apply Qltb_lt in H15. apply Qlt_Rlt in H15. split; [lra|reflexivity].
  - apply Qltb_ge in H15. apply Qle_Rle in H15.
    destruct (Qltb q 50) eqn:H50.
    + right; left. apply Qltb_lt in H50. apply Qlt_Rlt in H50.
      split; [lra|reflexivity].
    + right; right. apply Qltb_ge in H50. apply Qle_Rle in H50.
      split; [lra|reflexivity].
Qed.

End ApiClientFacts.

(** ** The submit/poll protocol (C5) *)

Module ProtocolFacts.
Import Py ApiClient.

(** A poll answer that leaves the job unfinished: a network failure, a
    status code other than 200, or a document whose status is absent or
    different from "completed". *)
Definition pending (r : http poll_body) : bool :=
  match r with
  | RequestException => true
  | Response status_code body =>
      if negb (status_code =? 200)%Z then true
      else match body with
           | PollNotJSON => false
           | PollJSON (Some s) _ => negb (str_eqb s completed)
           | PollJSON None _ => true
           | PollOtherShape => false
           | PollStatsNotObject (Some s) => negb (str_eqb s completed)
           | PollStatsNotObject None => true
           | PollStatsNotNumbers (Some s) => negb (str_eqb s completed)
           | PollStatsNotNumbers None => true
           end
  end.

(** What one poll attempt does. *)
Definition attempt_events (analysis_id : str) : list event :=
  [Sleep 5; RateLimitWait; Get analysis_id].

Definition is_get (e : event) : bool :=
  match e with Get _ => true | _ => false end.

Definition is_post (e : event) : bool :=
  match e with Post _ => true | _ => false end.

Lemma mbind_emit {A} (e : event) (k : M A) :
  mbind (emit e) (fun _ => k) = (e :: fst k, snd k).
Proof. destruct k as [t r]. reflexivity. Qed.

Lemma poll_loop_pending (svc : Service) (url analysis_id : str) :
  forall remaining attempt,
    (forall k, (attempt <= k < attempt + remaining)%nat ->
               pending (poll svc k analysis_id) = true) ->
    poll_loop svc url analysis_id remaining attempt
    = (concat (repeat (attempt_events analysis_id) remaining),
       Raise (RuntimeError TimedOut)).
Proof.
  induction remaining as [|n IH]; intros attempt H.
  - reflexivity.
  - assert (Hn : poll_loop svc url analysis_id n (S attempt)
                 = (concat (repeat (attempt_events analysis_id) n),
                    Raise (RuntimeError TimedOut))).
    { apply IH. intros k Hk. apply H. lia. }
    assert (H0 : pending (poll svc attempt analysis_id) = true)
      by (apply H; lia).
    cbn [poll_loop]. rewrite !mbind_emit. cbn [repeat concat attempt_events app].
    unfold pending in H0.
    destruct (poll svc attempt analysis_id) as [|code body].
    + rewrite Hn. reflexivity.
    + destruct (negb (code =? 200)%Z).
      * rewrite Hn. reflexivity.
      * destruct body as [|[s|] stats| |[s|]|[s|]]; try discriminate;
          try (destruct (str_eqb s completed); [discriminate|]);
          rewrite Hn; reflexivity.
Qed.

Lemma count_gets (analysis_id : str) (n : nat) :
  length (filter is_get (concat (repeat (attempt_events analysis_id) n))) = n.
Proof.
  induction n as [|n IH]; [reflexivity|].
  cbn [repeat concat]. rewrite filter_app, length_app, IH. reflexivity.
Qed.

Section WithTables.
Context {T : Tables}.

(** C5: with a credential configured and a URL that normalizes to [u],
    (1) a submission answered with HTTP 401 ends in [AuthError] after the
    events "rate-limiter acquisition, POST" and nothing else, so no poll is
    attempted; (2) when the submission is accepted and none of the twelve
    poll answers is a completed job, the call ends in [TimedOut] after the
    one submission followed by exactly twelve attempts, each of them a
    5-second sleep, a rate-limiter acquisition and a GET, in this order. *)
Theorem scan_url_auth_error_and_timeout
        (env_value : str) (svc : Service) (url u : str) :
  nonempty (strip env_value) = true ->
  _normalize_url url = Ok u ->
  (forall body,
      submit svc u = Response 401 body ->
      scan_url env_value svc url
      = ([RateLimitWait; Post u], Raise (RuntimeError AuthError)))
  /\
  (forall status_code analysis_id,
      submit svc u = Response status_code (SubmitId analysis_id) ->
      status_code = 200%Z \/ status_code = 201%Z ->
      (forall k, (k < 12)%nat -> pending (poll svc k analysis_id) = true) ->
      let trace := fst (scan_url env_value svc url) in
      scan_url env_value svc url
      = ([RateLimitWait; Post u]
           ++ concat (repeat (attempt_events analysis_id) 12),
         Raise (RuntimeError TimedOut))
      /\ length (filter is_get trace) = 12%nat
      /\ length (filter is_post trace) = 1%nat).
Proof.
  intros Hkey Hnorm.
  assert (K : exists key, _get_api_key env_value = Some key).
  { unfold _get_api_key. rewrite Hkey. eauto. }
  destruct K as [key K].
  split.
  - intros body Hs. unfold scan_url. rewrite K, Hnorm.
    cbn [lift mbind]. rewrite !mbind_emit. rewrite Hs. reflexivity.
  - intros code id Hs Hcode Hpend. cbv zeta.
    assert (E : scan_url env_value svc url
                = ([RateLimitWait; Post u]
                     ++ concat (repeat (attempt_events id) 12),
                   Raise (RuntimeError TimedOut))).
    { unfold scan_url. rewrite K, Hnorm.
      cbn [lift mbind]. rewrite !mbind_emit. rewrite Hs.
      rewrite poll_loop_pending by (intros k Hk; apply Hpend; lia).
      destruct Hcode as [-> | ->]; reflexivity. }
    rewrite E. split; [reflexivity|]. cbn [fst]. split.
    + rewrite filter_app, length_app, count_gets. reflexivity.
    + reflexivity.
Qed.

End WithTables.

(** A service that rejects the credential. *)
Definition service_401 : Service :=
  {| submit := fun _ => Response 401 SubmitNotJSON;
     poll := fun _ _ => RequestException |}.

(** A service whose job stays queued. *)
Definition service_queued : Service :=
  {| submit := fun _ => Response 200 (SubmitId (lit "u-1"));
     poll := fun k _ =>
               if Nat.even k then Response 200 (PollJSON (Some (lit "queued")) [])
               else Response 503 PollNotJSON |}.

Definition sample_key : str := lit "0123456789abcdef0123456789abcdef".

Lemma scan_url_auth_error_and_timeout_witness :
  scan_url sample_key service_401 (lit "example.com")
  = ([RateLimitWait; Post (lit "http://example.com/")],
     Raise (RuntimeError AuthError))
  /\ snd (scan_url sample_key service_queued (lit "example.com"))
     = Raise (RuntimeError TimedOut)
  /\ length (filter is_get
               (fst (scan_url sample_key service_queued (lit "example.com"))))
     = 12%nat.
Proof.
  assert (Hk : nonempty (strip sample_key) = true) by (vm_compute; reflexivity).
  assert (Hn : _normalize_url (lit "example.com") = Ok (lit "http://example.com/"))
    by (vm_compute; reflexivity).
  split.
  - apply (proj1 (scan_url_auth_error_and_timeout
                    sample_key service_401 (lit "example.com") _ Hk Hn)
                 SubmitNotJSON).
    reflexivity.
  - assert (Hp : forall k, (k < 12)%nat ->
                           pending (poll service_queued k (lit "u-1")) = true).
    { intros k _. cbn [poll service_queued].
      destruct (Nat.even k); vm_compute; reflexivity. }
    destruct (proj2 (scan_url_auth_error_and_timeout
                       sample_key service_queued (lit "example.com") _ Hk Hn)
                    200%Z (lit "u-1") eq_refl (or_introl eq_refl) Hp)
      as [E [G _]].
    split; [rewrite E; reflexivity | exact G].
Defined.

End ProtocolFacts.

(** ** The rate limiter (C6) *)

Module LimiterFacts.
Import ApiClient.

Lemma filter_filter_impl {A} (p q : A -> bool) (l : list A) :
  (forall x, p x = true -> q x = true) ->
  filter p (filter q l) = filter p l.
Proof.
  intro H. induction l as [|x l IH]; [reflexivity|].
  cbn [filter]. destruct (q x) eqn:Q.
  - cbn [filter]. rewrite IH. reflexivity.
  - destruct (p x) eqn:P; [|exact IH].
    apply H in P. congruence.
Qed.

Lemma filter_length_impl {A} (p q : A -> bool) (l : list A) :
  (forall x, p x = true -> q x = true) ->
  (length (filter p l) <= length (filter q l))%nat.
Proof.
  intro H. induction l as [|x l IH]; [apply le_n|].
  cbn [filter]. destruct (p x) eqn:P.
  - rewrite (H _ P). cbn [length]. lia.
  - destruct (q x); cbn [length]; lia.
Qed.

Lemma prune_keeps (now t : Q) :
  Qltb (now - t) _RATE_WINDOW = true <-> now - t < 60.
Proof. apply Qltb_lt. Qed.

(** A later reading of the clock prunes at least as much. *)
Lemma prune_later (c now : Q) (l : list Q) :
  c <= now -> prune now (prune c l) = prune now l.
Proof.
  intro H. apply filter_filter_impl. intros x Hx.
  apply prune_keeps in Hx. apply prune_keeps. lra.
Qed.

Lemma prune_later_length (c now : Q) (l : list Q) :
  c <= now -> (length (prune now l) <= length (prune c l))%nat.
Proof.
  intro H. apply filter_length_impl. intros x Hx.
  apply prune_keeps in Hx. apply prune_keeps. lra.
Qed.

Lemma prune_app (now : Q) (l1 l2 : list Q) :
  prune now (l1 ++ l2) = prune now l1 ++ prune now l2.
Proof. apply filter_app. Qed.

(** The state of the limiter against the history [h] of all admissions:
    the stored list agrees with the history on what is still inside the
    window, at most four admissions are inside the window at any later
    reading of the clock, and no interval of 60 seconds holds more than
    four admissions. *)
Record Inv (l : Limiter) (h : list Q) : Prop := {
  inv_times : prune (clock l) (_request_times l) = prune (clock l) h;
  inv_bound : forall now, clock l <= now -> (length (prune now h) <= 4)%nat;
  inv_window : forall a, (length (in_window a h) <= 4)%nat
}.

Lemma Inv_initial (start : Q) : Inv (initial start) [].
Proof.
  split; cbn; intros; try reflexivity; lia.
Qed.

Lemma Inv_elapse (l : Limiter) (h : list Q) (gap : Q) :
  0 <= gap -> Inv l h -> Inv (elapse gap l) h.
Proof.
  intros Hg [I1 I2 I3]. split; cbn [elapse clock _request_times].
  - rewrite <- (prune_later (clock l) (clock l + gap) (_request_times l)) by lra.
    rewrite I1. apply prune_later. lra.
  - intros now Hn. apply I2. lra.
  - exact I3.
Qed.

(** The recorded timestamp is not before the first reading of the clock,
    and fewer than four earlier admissions are within 60 seconds of it. *)
Lemma stamp_spec (l : Limiter) (h : list Q) (lag : Q) :
  0 <= lag -> Inv l h ->
  let stamp := clock (_rate_limit_wait lag l) in
  clock l <= stamp /\ (length (prune stamp h) <= 3)%nat.
Proof.
  intros Hl [I1 I2 I3]. cbv zeta.
  cbn [_rate_limit_wait clock].
  set (now := clock l) in *.
  remember (prune now (_request_times l)) as times eqn:Et.
  unfold requested_sleep.
  destruct (_RATE_LIMIT <=? length times)%nat eqn:Hfull.
  - apply Nat.leb_le in Hfull. unfold _RATE_LIMIT in Hfull.
    assert (Hlen : (length times <= 4)%nat)
      by (rewrite I1; apply I2; lra).
    destruct times as [|t0 rest]; [cbn in Hfull; lia|].
    cbn [hd].
    assert (Ht0 : now - t0 < 60).
    { apply prune_keeps.
      assert (Hin : In t0 (prune now h))
        by (rewrite <- I1; left; reflexivity).
      unfold prune in Hin. apply filter_In in Hin. apply Hin. }
    assert (Hpos : Qltb 0 (_RATE_WINDOW - (now - t0) + (1 # 2)) = true).
    { apply Qltb_lt. unfold _RATE_WINDOW. lra. }
    rewrite Hpos. unfold _RATE_WINDOW.
    set (stamp := now + (60 - (now - t0) + (1 # 2)) + lag).
    assert (Hs : now <= stamp) by (unfold stamp; lra).
    split; [exact Hs|].
    rewrite <- (prune_later now stamp h Hs).
    rewrite <- I1.
    cbn [length] in Hlen.
    unfold prune. cbn [filter].
    assert (Hout : Qltb (stamp - t0) _RATE_WINDOW = false).
    { apply Qltb_ge. unfold _RATE_WINDOW, stamp. lra. }
    rewrite Hout.
    pose proof (filter_length_le (fun t => Qltb (stamp - t) _RATE_WINDOW) rest).
    lia.
  - apply Nat.leb_gt in Hfull. unfold _RATE_LIMIT in Hfull.
    set (stamp := now + 0 + lag).
    assert (Hs : now <= stamp) by (unfold stamp; lra).
    split; [exact Hs|].
    pose proof (prune_later_length _ _ h Hs) as Hle.
    rewrite <- I1 in Hle. lia.
Qed.

Lemma Inv_wait (l : Limiter) (h : list Q) (lag : Q) :
  0 <= lag -> Inv l h ->
  Inv (_rate_limit_wait lag l) (h ++ [clock (_rate_limit_wait lag l)]).
Proof.
  intros Hl HI.
  destruct (stamp_spec l h lag Hl HI) as [Hs H3].
  destruct HI as [I1 I2 I3].
  set (stamp := clock (_rate_limit_wait lag l)) in *.
  split.
  - change (_request_times (_rate_limit_wait lag l))
      with (prune (clock l) (_request_times l) ++ [stamp]).
    fold stamp. rewrite !prune_app. f_equal.
    rewrite I1. apply prune_later. exact Hs.
  - fold stamp. intros now Hn. rewrite prune_app, length_app.
    pose proof (prune_later_length _ _ h Hn).
    pose proof (filter_length_le (fun t => Qltb (now - t) _RATE_WINDOW) [stamp]).
    unfold prune at 2. cbn [length] in *. lia.
  - intro a. unfold in_window. rewrite filter_app, length_app.
    fold (in_window a h).
    destruct (Qle_bool a stamp && Qltb stamp (a + _RATE_WINDOW)) eqn:Hw.
    + apply andb_true_iff in Hw. destruct Hw as [Ha Hb].
      apply Qle_bool_iff in Ha. apply Qltb_lt in Hb. unfold _RATE_WINDOW in Hb.
      assert (Hsub : (length (in_window a h) <= length (prune stamp h))%nat).
      { apply filter_length_impl. intros x Hx.
        apply andb_true_iff in Hx. destruct Hx as [Hx _].
        apply Qle_bool_iff in Hx. apply prune_keeps. lra. }
      pose proof (filter_length_le
                    (fun t => Qle_bool a t && Qltb t (a + _RATE_WINDOW)) [stamp]).
      cbn [length] in *. lia.
    + cbn [filter]. rewrite Hw. cbn [length]. specialize (I3 a). lia.
Qed.

(** The admissions of a run extend the history and keep the invariant. *)
Lemma acquisitions_window (schedule : list (Q * Q)) :
  forall l h a,
    nonnegative schedule -> Inv l h ->
    (length (in_window a (h ++ acquisitions schedule l)) <= 4)%nat.
Proof.
  induction schedule as [|[gap lag] rest IH]; intros l h a Hn HI.
  - cbn [acquisitions]. rewrite app_nil_r. apply HI.
  - inversion Hn as [|? ? [Hg Hl] Hrest]; subst. cbn [fst snd] in *.
    cbn [acquisitions].
    set (l' := _rate_limit_wait lag (elapse gap l)).
    change (clock l' :: acquisitions rest l')
      with ([clock l'] ++ acquisitions rest l').
    rewrite app_assoc. apply IH; [exact Hrest|].
    apply Inv_wait; [exact Hl|]. apply Inv_elapse; assumption.
Qed.

(** The timestamps of a run do not go back in time. *)
Lemma acquisitions_from (schedule : list (Q * Q)) :
  forall l, nonnegative schedule ->
            Forall (fun t => clock l <= t) (acquisitions schedule l).
Proof.
  induction schedule as [|[gap lag] rest IH]; intros l Hn.
  - constructor.
  - inversion Hn as [|? ? [Hg Hl] Hrest]; subst. cbn [fst snd] in *.
    cbn [acquisitions].
    set (l' := _rate_limit_wait lag (elapse gap l)).
    assert (Hc : clock l <= clock l').
    { unfold l'. cbn [_rate_limit_wait clock elapse _request_times].
      unfold requested_sleep.
      destruct (_RATE_LIMIT <=? _)%nat; [|lra].
      destruct (Qltb 0 _) eqn:E; [|lra].
      apply Qltb_lt in E. lra. }
    constructor; [exact Hc|].
    specialize (IH l' Hrest).
    eapply Forall_impl; [|exact IH].
    intros t Ht. cbv beta in *. apply (Qle_trans _ _ _ Hc Ht).
Qed.

Lemma acquisitions_sorted (schedule : list (Q * Q)) :
  forall l, nonnegative schedule ->
            StronglySorted Qle (acquisitions schedule l).
Proof.
  induction schedule as [|[gap lag] rest IH]; intros l Hn.
  - constructor.
  - inversion Hn as [|? ? [Hg Hl] Hrest]; subst.
    cbn [acquisitions]. constructor.
    + apply IH. exact Hrest.
    + apply acquisitions_from. exact Hrest.
Qed.

(** C6: along every run of the limiter from its initial state in which
    time does not go backwards, no interval [[a, a + 60)] contains more
    than four admission timestamps; and of five consecutive admissions the
    fifth is stamped at least 60 seconds after the first, that is, once
    the first has left the window. *)
Theorem rate_limiter_sliding_window
        (schedule : list (Q * Q)) (start : Q) :
  nonnegative schedule ->
  (forall a,
      (length (in_window a (acquisitions schedule (initial start))) <= 4)%nat)
  /\
  (forall before t1 t2 t3 t4 t5 after,
      acquisitions schedule (initial start)
      = before ++ [t1; t2; t3; t4; t5] ++ after ->
      t1 + 60 <= t5).
Proof.
  intro Hn.
  assert (W : forall a,
             (length (in_window a (acquisitions schedule (initial start)))
              <= 4)%nat).
  { intro a.
    apply (acquisitions_window schedule (initial start) [] a Hn).
    apply Inv_initial. }
  split; [exact W|].
  intros before t1 t2 t3 t4 t5 after E.
  pose proof (acquisitions_sorted schedule (initial start) Hn) as S.
  rewrite E in S.
  assert (S5 : StronglySorted Qle ([t1; t2; t3; t4; t5] ++ after)).
  { clear -S. induction before as [|b before IH]; [exact S|].
    apply IH. inversion S; assumption. }
  assert (O : t1 <= t2 /\ t2 <= t3 /\ t3 <= t4 /\ t4 <= t5).
  { inversion S5 as [|? ? S4 F1]; subst.
    inversion S4 as [|? ? S3 F2]; subst.
    inversion S3 as [|? ? S2 F3]; subst.
    inversion S2 as [|? ? S1 F4]; subst.
    inversion F1; inversion F2; inversion F3; inversion F4; subst.
    repeat split; assumption. }
  destruct O as [O1 [O2 [O3 O4]]].
  destruct (Qlt_le_dec t5 (t1 + 60)) as [Hlt|Hge]; [|exact Hge].
  exfalso. specialize (W t1). rewrite E in W.
  unfold in_window in W. rewrite !filter_app, !length_app in W.
  assert (K : forall t, t1 <= t -> t <= t5 ->
                        Qle_bool t1 t && Qltb t (t1 + _RATE_WINDOW) = true).
  { intros t Ha Hb. apply andb_true_iff. split.
    - apply Qle_bool_iff. exact Ha.
    - apply Qltb_lt. unfold _RATE_WINDOW. lra. }
  cbn [filter] in W.
  rewrite (K t1), (K t2), (K t3), (K t4), (K t5) in W by lra.
  cbn [length] in W. lia.
Qed.

(** Five calls in a row, one millisecond apart, from an empty limiter. *)
Definition back_to_back : list (Q * Q) :=
  [(0, 0); (1 # 1000, 0); (1 # 1000, 0); (1 # 1000, 0); (1 # 1000, 0)].

Lemma rate_limiter_sliding_window_witness :
  let stamps := acquisitions back_to_back (initial 0) in
  length stamps = 5%nat
  /\ (length (in_window 0 stamps) <= 4)%nat
  /\ nth 0 stamps 0 + 60 <= nth 4 stamps 0.
Proof.
  assert (Hn : nonnegative back_to_back).
  { unfold nonnegative, back_to_back.
    repeat constructor; cbn; discriminate. }
  destruct (rate_limiter_sliding_window back_to_back 0 Hn) as [W F].
  cbv zeta. split; [reflexivity|]. split; [apply W|].
  set (stamps := acquisitions back_to_back (initial 0)).
  apply (F [] (nth 0 stamps 0) (nth 1 stamps 0) (nth 2 stamps 0)
           (nth 3 stamps 0) (nth 4 stamps 0) []).
  vm_compute. reflexivity.
Defined.

End LimiterFacts.

(** ** Normalization and the port (C9) *)

Module NormalizeFacts.
Import Py UrlLib ApiClient.

Section WithTables.
Context {T : Tables}.

Lemma normalize_unfold (url : str) (parsed : ParseResult) (p : option N) :
  urlparse (with_http_prefix (strip url)) = Ok parsed ->
  port parsed = Ok p ->
  _normalize_url url
  = Ok (scheme_and_host parsed ++ port_text p
        ++ path_text (path parsed) ++ query_text (query parsed)).
Proof.
  intros Hp Hport. unfold _normalize_url. rewrite Hp. cbn [bind].
  rewrite Hport. cbn [bind]. rewrite <- !app_assoc. reflexivity.
Qed.

(** C9, amended: a port is dropped exactly when it is 0, 80 or 443, and
    the scheme plays no part: 443 is dropped from an http URL and 80 from
    an https URL as well; every other port is kept, written in decimal
    after the host. *)
Theorem normalize_port_rule (url : str) (parsed : ParseResult) (p : N) :
  urlparse (with_http_prefix (strip url)) = Ok parsed ->
  port parsed = Ok (Some p) ->
  (p = 0%N \/ p = 80%N \/ p = 443%N ->
   _normalize_url url
   = Ok (scheme_and_host parsed ++ path_text (path parsed) ++ query_text (query parsed)))
  /\
  (p <> 0%N -> p <> 80%N -> p <> 443%N ->
   _normalize_url url
   = Ok (scheme_and_host parsed ++ lit ":" ++ str_of_N p
         ++ path_text (path parsed) ++ query_text (query parsed))).
Proof.
  intros Hp Hport.
  rewrite (normalize_unfold url parsed (Some p) Hp Hport).
  unfold port_text. split.
  - intros [-> | [-> | ->]]; reflexivity.
  - intros H0 H80 H443.
    apply N.eqb_neq in H0, H80, H443. rewrite H0, H80, H443.
    cbn [negb andb orb]. rewrite <- !app_assoc. reflexivity.
Qed.

End WithTables.

(** C9, refuted as stated: port 443 on an http URL is dropped. *)
Lemma normalize_drops_443_on_http :
  _normalize_url (lit "http://example.com:443/login")
  = Ok (lit "http://example.com/login")
  /\ contains (lit ":443") (lit "http://example.com/login") = false.
Proof. split; vm_compute; reflexivity. Qed.

Definition parsed_https_80 : ParseResult :=
  {| scheme := lit "https"; netloc := lit "example.com:80";
     path := lit "/a"; params := []; query := []; fragment := [] |}.

Lemma normalize_port_rule_witness :
  _normalize_url (lit "https://example.com:80/a")
  = Ok (lit "https://example.com/a").
Proof.
  assert (Hp : urlparse (with_http_prefix (strip (lit "https://example.com:80/a")))
               = Ok parsed_https_80) by (vm_compute; reflexivity).
  assert (Hq : port parsed_https_80 = Ok (Some 80%N)) by (vm_compute; reflexivity).
  exact (proj1 (normalize_port_rule _ _ _ Hp Hq) (or_intror (or_introl eq_refl))).
Defined.

End NormalizeFacts.

(** ** Facts about the string functions *)

Module StrFacts.
Import Py.

(** Facts about code points: turn the boolean comparisons into
    propositions and leave the arithmetic to [lia]. *)
Ltac char_lia :=
  intros;
  repeat (progress rewrite ?andb_true_iff, ?orb_true_iff, ?negb_true_iff,
            ?andb_false_iff, ?orb_false_iff, ?negb_false_iff,
            ?N.leb_le, ?N.leb_gt, ?N.ltb_lt, ?N.ltb_ge,
            ?N.eqb_eq, ?N.eqb_neq in * );
  lia.

Lemma mem_false_iff (c : N) (s : str) :
  mem c s = false <-> forallb (fun x => negb (c =? x)%N) s = true.
Proof.
  unfold mem. induction s as [|x s IH]; cbn; [tauto|].
  rewrite orb_false_iff, andb_true_iff, IH, negb_true_iff. tauto.
Qed.

Lemma mem_app (c : N) (a b : str) : mem c (a ++ b) = mem c a || mem c b.
Proof. unfold mem. apply existsb_app. Qed.

Lemma forallb_impl {A} (p q : A -> bool) (l : list A) :
  (forall x, p x = true -> q x = true) ->
  forallb p l = true -> forallb q l = true.
Proof.
  intros H. induction l as [|x l IH]; cbn; [auto|].
  rewrite !andb_true_iff. intros [Hx Hl]. auto.
Qed.

Lemma forallb_firstn {A} (p : A -> bool) (n : nat) (l : list A) :
  forallb p l = true -> forallb p (firstn n l) = true.
Proof.
  revert n. induction l as [|x l IH]; intros [|n]; cbn; auto.
  rewrite !andb_true_iff. intros [Hx Hl]. auto.
Qed.

Lemma forallb_skipn {A} (p : A -> bool) (n : nat) (l : list A) :
  forallb p l = true -> forallb p (skipn n l) = true.
Proof.
  revert n. induction l as [|x l IH]; intros [|n]; cbn; auto.
  rewrite !andb_true_iff. intros [Hx Hl]. auto.
Qed.

Lemma forallb_filter {A} (p q : A -> bool) (l : list A) :
  forallb p l = true -> forallb p (filter q l) = true.
Proof.
  induction l as [|x l IH]; cbn; auto.
  rewrite andb_true_iff. intros [Hx Hl].
  destruct (q x); cbn; auto. rewrite Hx. auto.
Qed.

Lemma forallb_rev {A} (p : A -> bool) (l : list A) :
  forallb p (rev l) = forallb p l.
Proof.
  induction l as [|x l IH]; cbn; [reflexivity|].
  rewrite forallb_app, IH. cbn. rewrite andb_true_r. apply andb_comm.
Qed.

Lemma forallb_lstrip_of (p q : N -> bool) (s : str) :
  forallb p s = true -> forallb p (lstrip_of q s) = true.
Proof.
  induction s as [|x s IH]; cbn; auto.
  intro H. destruct (q x); [|exact H].
  apply andb_true_iff in H. apply IH, H.
Qed.

Lemma forallb_rstrip_of (p q : N -> bool) (s : str) :
  forallb p s = true -> forallb p (rstrip_of q s) = true.
Proof.
  intro H. unfold rstrip_of. rewrite forallb_rev.
  apply forallb_lstrip_of. rewrite forallb_rev. exact H.
Qed.

Lemma forallb_strip (p : N -> bool) (s : str) :
  forallb p s = true -> forallb p (strip s) = true.
Proof.
  intro H. unfold strip. apply forallb_rstrip_of, forallb_lstrip_of, H.
Qed.

(** A string without occurrences of [c] is left alone by [replace]. *)
Lemma remove_char_absent (c : N) (s : str) :
  mem c s = false -> remove_char c s = s.
Proof.
  unfold remove_char, mem. induction s as [|x s IH]; cbn; [reflexivity|].
  rewrite orb_false_iff. intros [Hx Hs]. rewrite Hx. cbn. f_equal. auto.
Qed.

Lemma lstrip_of_none (p : N -> bool) (s : str) :
  forallb (fun c => negb (p c)) s = true -> lstrip_of p s = s.
Proof.
  destruct s as [|x s]; cbn; [reflexivity|].
  rewrite andb_true_iff, negb_true_iff. intros [-> _]. reflexivity.
Qed.

Lemma rstrip_of_none (p : N -> bool) (s : str) :
  forallb (fun c => negb (p c)) s = true -> rstrip_of p s = s.
Proof.
  intro H. unfold rstrip_of. rewrite lstrip_of_none.
  - apply rev_involutive.
  - rewrite forallb_rev. exact H.
Qed.

Lemma lstrip_of_idem (p : N -> bool) (s : str) :
  lstrip_of p (lstrip_of p s) = lstrip_of p s.
Proof.
  induction s as [|x s IH]; cbn; [reflexivity|].
  destruct (p x) eqn:E; [exact IH|]. cbn. rewrite E. reflexivity.
Qed.

Lemma rstrip_of_idem (p : N -> bool) (s : str) :
  rstrip_of p (rstrip_of p s) = rstrip_of p s.
Proof.
  unfold rstrip_of. rewrite rev_involutive, lstrip_of_idem. reflexivity.
Qed.

(** What [lstrip] keeps is a suffix. *)
Lemma lstrip_of_suffix (p : N -> bool) (s : str) :
  exists t, s = t ++ lstrip_of p s.
Proof.
  induction s as [|x s [t IH]]; cbn.
  - exists []. reflexivity.
  - destruct (p x).
    + exists (x :: t). cbn. f_equal. exact IH.
    + exists []. reflexivity.
Qed.

Lemma rstrip_of_prefix (p : N -> bool) (s : str) :
  exists t, s = rstrip_of p s ++ t.
Proof.
  unfold rstrip_of. destruct (lstrip_of_suffix p (rev s)) as [t E].
  exists (rev t). rewrite <- rev_app_distr, <- E. symmetry. apply rev_involutive.
Qed.

Lemma startswith_app (p s : str) :
  startswith p s = true -> s = p ++ skipn (length p) s.
Proof.
  revert s. induction p as [|x p IH]; intros s; cbn; [reflexivity|].
  destruct s as [|y s]; [discriminate|].
  rewrite andb_true_iff. intros [E H]. apply N.eqb_eq in E. subst.
  cbn. f_equal. auto.
Qed.

Lemma find_None (c : N) (s : str) : find c s = None <-> mem c s = false.
Proof.
  unfold mem. induction s as [|x s IH]; cbn; [tauto|].
  destruct (c =? x)%N; cbn.
  - split; discriminate.
  - destruct (find c s); cbn.
    + split; [discriminate|]. intro H. apply IH in H. discriminate.
    + tauto.
Qed.

Lemma find_Some (c : N) (s : str) (i : nat) :
  find c s = Some i ->
  mem c (firstn i s) = false /\ s = firstn i s ++ c :: skipn (S i) s.
Proof.
  revert i. induction s as [|x s IH]; intros i; cbn; [discriminate|].
  destruct (N.eqb_spec c x) as [->|Hne].
  - intros [= <-]. cbn. auto.
  - destruct (find c s) as [j|]; cbn; [|discriminate].
    intros [= <-]. destruct (IH j eq_refl) as [H1 H2].
    cbn. unfold mem in *. cbn. split.
    + apply N.eqb_neq in Hne. rewrite Hne. exact H1.
    + f_equal. exact H2.
Qed.

Lemma find_app_absent (c : N) (a b : str) :
  mem c a = false -> find c (a ++ c :: b) = Some (length a).
Proof.
  unfold mem. induction a as [|x a IH]; cbn.
  - rewrite N.eqb_refl. reflexivity.
  - rewrite orb_false_iff. intros [Hx Ha]. rewrite Hx, (IH Ha). reflexivity.
Qed.

Lemma rfind_None (c : N) (s : str) : mem c s = false -> rfind c s = None.
Proof.
  unfold mem. induction s as [|x s IH]; cbn; [reflexivity|].
  rewrite orb_false_iff. intros [Hx Hs]. rewrite (IH Hs), Hx. reflexivity.
Qed.

Lemma rfind_None_mem (c : N) (s : str) : rfind c s = None -> mem c s = false.
Proof.
  unfold mem. induction s as [|y s IH]; cbn; [reflexivity|].
  destruct (rfind c s); [discriminate|].
  destruct (c =? y)%N; [discriminate|]. intros _. cbn. auto.
Qed.

Lemma rfind_Some (c : N) (s : str) (i : nat) :
  rfind c s = Some i ->
  mem c (skipn (S i) s) = false /\ s = firstn i s ++ c :: skipn (S i) s.
Proof.
  revert i. induction s as [|x s IH]; intros i; cbn [rfind]; [discriminate|].
  destruct (rfind c s) as [j|] eqn:E.
  - intros [= <-]. destruct (IH j eq_refl) as [H1 H2]. split.
    + exact H1.
    + cbn. f_equal. exact H2.
  - destruct (N.eqb_spec c x) as [->|Hne]; [|discriminate].
    intros [= <-]. split; [|reflexivity].
    apply rfind_None_mem in E. exact E.
Qed.

(** [partition]: the separator does not occur before the cut, and the
    pieces give the string back. *)
Lemma partition_spec (c : N) (s : str) :
  let '(a, found, b) := partition c s in
  mem c a = false
  /\ (if found then s = a ++ c :: b else a = s /\ b = []).
Proof.
  unfold partition. destruct (find c s) as [i|] eqn:E.
  - apply find_Some in E. exact E.
  - apply find_None in E. auto.
Qed.

Lemma rpartition_spec (c : N) (s : str) :
  let '(a, found, b) := rpartition c s in
  mem c b = false
  /\ (if found then s = a ++ c :: b else b = s /\ a = []).
Proof.
  unfold rpartition. destruct (rfind c s) as [i|] eqn:E.
  - apply rfind_Some in E. exact E.
  - split; [|auto]. apply rfind_None_mem, E.
Qed.

Lemma partition_absent (c : N) (s : str) :
  mem c s = false -> partition c s = (s, false, []).
Proof.
  intro H. unfold partition. apply find_None in H. rewrite H. reflexivity.
Qed.

Lemma firstn_length_app {A} (a b : list A) : firstn (length a) (a ++ b) = a.
Proof. induction a as [|x a IH]; cbn; [reflexivity | f_equal; exact IH]. Qed.

Lemma skipn_length_app {A} (a b : list A) : skipn (length a) (a ++ b) = b.
Proof. induction a as [|x a IH]; cbn; auto. Qed.

Lemma partition_app (c : N) (a b : str) :
  mem c a = false -> partition c (a ++ c :: b) = (a, true, b).
Proof.
  intro H. unfold partition. rewrite (find_app_absent c a b H).
  rewrite firstn_length_app.
  replace (skipn (S (length a)) (a ++ c :: b)) with b; [reflexivity|].
  clear H. induction a as [|x a IH]; cbn; auto.
Qed.

Lemma rpartition_absent (c : N) (s : str) :
  mem c s = false -> rpartition c s = ([], false, s).
Proof.
  intro H. unfold rpartition. rewrite (rfind_None c s H). reflexivity.
Qed.

End StrFacts.

(** ** Facts about [urlsplit] and [urlparse] *)

Module ParseFacts.
Import Py UrlLib StrFacts.

(** The three delimiters that end the authority. *)
Definition isdelim (c : N) : bool := ((c =? 47) || (c =? 63) || (c =? 35))%N.

(** The authority and what follows it. *)
Fixpoint span_netloc (s : str) : str * str :=
  match s with
  | [] => ([], [])
  | c :: s' =>
      if isdelim c then ([], s)
      else let '(a, b) := span_netloc s' in (c :: a, b)
  end.

(** The position of the first delimiter, or the length. *)
Fixpoint delim_index (s : str) : nat :=
  match s with
  | [] => O
  | c :: s' => if isdelim c then O else S (delim_index s')
  end.

Definition omin (d : nat) (o : option nat) : nat :=
  match o with Some w => Nat.min d w | None => d end.

Lemma delim_index_finds (s : str) :
  omin (omin (omin (length s) (find 47 s)) (find 63 s)) (find 35 s)
  = delim_index s.
Proof.
  induction s as [|c s IH]; [reflexivity|].
  cbn [find delim_index length]. unfold isdelim.
  rewrite (N.eqb_sym c 47), (N.eqb_sym c 63), (N.eqb_sym c 35).
  rewrite <- IH.
  destruct (47 =? c)%N, (63 =? c)%N, (35 =? c)%N,
    (find 47 s), (find 63 s), (find 35 s);
    cbn -[Nat.min]; lia.
Qed.

Lemma span_netloc_index (s : str) :
  span_netloc s = (firstn (delim_index s) s, skipn (delim_index s) s).
Proof.
  induction s as [|c s IH]; [reflexivity|].
  cbn [span_netloc delim_index]. destruct (isdelim c); [reflexivity|].
  rewrite IH. reflexivity.
Qed.

Lemma omin_shift (d : nat) (o : option nat) :
  omin (2 + d) (option_map (fun i => (2 + i)%nat) o) = (2 + omin d o)%nat.
Proof. destruct o; cbn -[Nat.min]; lia. Qed.

Lemma splitnetloc_span (a b : N) (rest : str) :
  _splitnetloc (a :: b :: rest) 2 = span_netloc rest.
Proof.
  unfold _splitnetloc.
  change (fold_left _ (lit "/?#") (length (a :: b :: rest)))
    with (omin (omin (omin (2 + length rest)
                        (find_from 47 2 (a :: b :: rest)))
                     (find_from 63 2 (a :: b :: rest)))
               (find_from 35 2 (a :: b :: rest))).
  unfold find_from. cbn [skipn].
  rewrite !omin_shift, delim_index_finds.
  cbn [firstn skipn Nat.add]. rewrite span_netloc_index. reflexivity.
Qed.

(** What [span_netloc] returns. *)
Lemma span_netloc_spec (s : str) :
  let '(a, b) := span_netloc s in
  s = a ++ b
  /\ forallb (fun c => negb (isdelim c)) a = true
  /\ match b with [] => True | c :: _ => isdelim c = true end.
Proof.
  induction s as [|c s IH]; cbn [span_netloc]; [auto|].
  destruct (isdelim c) eqn:E.
  - cbn. auto.
  - destruct (span_netloc s) as [a b]. destruct IH as [H1 [H2 H3]].
    cbn. rewrite E. cbn. split; [f_equal; exact H1|]. auto.
Qed.

Lemma span_netloc_app (a b : str) :
  forallb (fun c => negb (isdelim c)) a = true ->
  match b with [] => True | c :: _ => isdelim c = true end ->
  span_netloc (a ++ b) = (a, b).
Proof.
  intros Ha Hb. induction a as [|c a IH]; cbn [app span_netloc].
  - destruct b as [|c b]; [reflexivity|]. cbn. rewrite Hb. reflexivity.
  - cbn in Ha. apply andb_true_iff in Ha. destruct Ha as [Hc Ha].
    apply negb_true_iff in Hc. rewrite Hc, (IH Ha). reflexivity.
Qed.

Lemma split_off_spec (c : N) (s : str) :
  let '(a, b) := split_off c s in
  mem c a = false /\ (s = a /\ b = [] \/ s = a ++ c :: b).
Proof.
  unfold split_off. destruct (mem c s) eqn:M.
  - pose proof (partition_spec c s) as P.
    destruct (partition c s) as [[a found] b]. destruct P as [P1 P2].
    split; [exact P1|]. destruct found.
    + right. exact P2.
    + left. destruct P2. auto.
  - auto.
Qed.

Lemma split_off_absent (c : N) (s : str) :
  mem c s = false -> split_off c s = (s, []).
Proof. intro H. unfold split_off. rewrite H. reflexivity. Qed.

Lemma split_off_app (c : N) (a b : str) :
  mem c a = false -> split_off c (a ++ c :: b) = (a, b).
Proof.
  intro H. unfold split_off. rewrite mem_app. unfold mem at 2. cbn [existsb].
  rewrite N.eqb_refl, orb_true_r. cbn. rewrite (partition_app c a b H).
  reflexivity.
Qed.

End ParseFacts.

(** ** Parsing URLs of plain characters *)

Module PlainFacts.
Import Py UrlLib StrFacts ParseFacts.

(** Printable ASCII characters other than the space, [;], [[] and []]. *)
Definition plainb (c : N) : bool :=
  ((33 <=? c) && (c <=? 126)
   && negb (c =? 59) && negb (c =? 91) && negb (c =? 93))%N.

Definition plain (s : str) : Prop := forallb plainb s = true.

Lemma plain_mem (c : N) (s : str) :
  plain s -> plainb c = false -> mem c s = false.
Proof.
  intros Hs Hc. apply mem_false_iff.
  apply (forallb_impl plainb); [|exact Hs].
  intros x Hx. destruct (N.eqb_spec c x) as [->|]; [congruence|reflexivity].
Qed.

Lemma plain_isascii (s : str) : plain s -> str_isascii s = true.
Proof.
  apply forallb_impl. unfold plainb, isascii. char_lia.
Qed.

Lemma plain_app (a b : str) : plain a -> plain b -> plain (a ++ b).
Proof. unfold plain. intros Ha Hb. rewrite forallb_app, Ha, Hb. reflexivity. Qed.

Lemma plain_app_inv (a b : str) : plain (a ++ b) -> plain a /\ plain b.
Proof. unfold plain. rewrite forallb_app, andb_true_iff. tauto. Qed.

Lemma plain_strip (s : str) : plain s -> strip s = s.
Proof.
  intro H. unfold strip.
  assert (K : forallb (fun c => negb (isspace c)) s = true).
  { apply (forallb_impl plainb); [|exact H].
    unfold plainb, isspace. char_lia. }
  rewrite (lstrip_of_none isspace s K). apply rstrip_of_none, K.
Qed.

(** What the host text of a plain URL is made of. *)
Definition hostcharb (c : N) : bool :=
  (plainb c && negb (isdelim c) && negb (c =? 64) && negb (c =? 58))%N.

Lemma forallb_and {A} (p q : A -> bool) (l : list A) :
  forallb p l = true -> forallb q l = true ->
  forallb (fun x => p x && q x) l = true.
Proof.
  induction l as [|x l IH]; cbn; [auto|].
  rewrite !andb_true_iff. intros [-> Hp] [-> Hq]. auto.
Qed.

Lemma hostchar_intro (s : str) :
  plain s -> forallb (fun c => negb (isdelim c)) s = true ->
  mem 64 s = false -> mem 58 s = false ->
  forallb hostcharb s = true.
Proof.
  intros H1 H2 H3 H4. apply mem_false_iff in H3, H4.
  pose proof (forallb_and _ _ _ (forallb_and _ _ _ (forallb_and _ _ _ H1 H2) H3) H4) as K.
  revert K. apply forallb_impl. unfold hostcharb, plainb, isdelim. char_lia.
Qed.

Lemma hostchar_plain (s : str) : forallb hostcharb s = true -> plain s.
Proof. apply forallb_impl. unfold hostcharb, plainb, isdelim. char_lia. Qed.

Lemma hostchar_nodelim (s : str) :
  forallb hostcharb s = true ->
  forallb (fun c => negb (isdelim c)) s = true.
Proof. apply forallb_impl. unfold hostcharb, plainb, isdelim. char_lia. Qed.

Lemma hostchar_mem (c : N) (s : str) :
  forallb hostcharb s = true -> hostcharb c = false -> mem c s = false.
Proof.
  intros Hs Hc. apply mem_false_iff.
  apply (forallb_impl hostcharb); [|exact Hs].
  intros x Hx. destruct (N.eqb_spec c x) as [->|]; [congruence|reflexivity].
Qed.

Lemma ascii_lower_idem (c : N) : ascii_lower (ascii_lower c) = ascii_lower c.
Proof.
  unfold ascii_lower, is_ascii_upper.
  destruct ((65 <=? c)%N && (c <=? 90)%N) eqn:E; [|rewrite E; reflexivity].
  destruct ((65 <=? c + 32)%N && (c + 32 <=? 90)%N) eqn:E2; [|reflexivity].
  exfalso. revert E E2. char_lia.
Qed.

Lemma ascii_lower_hostchar (c : N) :
  hostcharb c = true -> hostcharb (ascii_lower c) = true.
Proof.
  unfold ascii_lower, is_ascii_upper.
  destruct ((65 <=? c)%N && (c <=? 90)%N) eqn:E; [|auto].
  revert E. unfold hostcharb, plainb, isdelim. char_lia.
Qed.

Lemma forallb_map_impl {A B} (f : A -> B) (p : A -> bool) (q : B -> bool)
      (l : list A) :
  (forall x, p x = true -> q (f x) = true) ->
  forallb p l = true -> forallb q (List.map f l) = true.
Proof.
  intro H. induction l as [|x l IH]; cbn; [auto|].
  rewrite !andb_true_iff. intros [Hx Hl]. auto.
Qed.

Lemma ascii_lower_isascii (s : str) :
  str_isascii s = true -> str_isascii (List.map ascii_lower s) = true.
Proof.
  unfold str_isascii. apply forallb_map_impl.
  intros c. unfold ascii_lower, is_ascii_upper, isascii.
  destruct ((65 <=? c)%N && (c <=? 90)%N) eqn:E; [|auto].
  revert E. char_lia.
Qed.

Section WithTables.
Context {T : Tables}.

Lemma lower_ascii (s : str) :
  str_isascii s = true -> lower s = List.map ascii_lower s.
Proof. intro H. unfold lower. rewrite H. reflexivity. Qed.

(** [urlsplit] on [http://rest] and [https://rest]. *)
Lemma urlsplit_http (S rest : str) :
  S = lit "http" \/ S = lit "https" ->
  plain rest ->
  urlsplit (S ++ lit "://" ++ rest)
  = let '(N, tail) := span_netloc rest in
    let '(pq, F) := split_off 35 tail in
    let '(P, Qy) := split_off 63 pq in
    Ok {| sr_scheme := S; sr_netloc := N; sr_path := P;
          sr_query := Qy; sr_fragment := F |}.
Proof.
  intros HS Hr.
  pose proof (span_netloc_spec rest) as Sp.
  destruct (span_netloc rest) as [N tail] eqn:ES.
  destruct Sp as [E1 [E2 E3]].
  assert (HN : plain N).
  { rewrite E1 in Hr. apply plain_app_inv in Hr. apply Hr. }
  assert (B1 : mem 91 N = false) by (apply plain_mem; [exact HN|reflexivity]).
  assert (B2 : mem 93 N = false) by (apply plain_mem; [exact HN|reflexivity]).
  assert (A : str_isascii N = true) by (apply plain_isascii, HN).
  assert (HSp : plain (S ++ lit "://" ++ rest)).
  { apply plain_app; [destruct HS as [-> | ->]; reflexivity|].
    apply plain_app; [reflexivity|exact Hr]. }
  set (url := S ++ lit "://" ++ rest) in *.
  assert (U1 : lstrip_of c0_control_or_space url = url).
  { apply lstrip_of_none. apply (forallb_impl plainb); [|exact HSp].
    unfold plainb, c0_control_or_space. char_lia. }
  assert (U2 : fold_left (fun u b => remove_char b u) unsafe_url_bytes url = url).
  { unfold unsafe_url_bytes. cbn [fold_left].
    rewrite (remove_char_absent 9 url)
      by (apply plain_mem; [exact HSp|reflexivity]).
    rewrite (remove_char_absent 13 url)
      by (apply plain_mem; [exact HSp|reflexivity]).
    apply remove_char_absent, plain_mem; [exact HSp|reflexivity]. }
  assert (U3 : split_scheme url = (S, 47 :: 47 :: rest)%N).
  { unfold url. destruct HS as [-> | ->]; reflexivity. }
  assert (U4 : split_authority (47 :: 47 :: rest)%N = Ok (N, tail)).
  { unfold split_authority.
    change (str_eqb (firstn 2 (47 :: 47 :: rest)%N) (lit "//")) with true.
    cbv iota. rewrite splitnetloc_span, ES, B1, B2. reflexivity. }
  unfold urlsplit. rewrite U1, U2, U3, U4. cbn [bind].
  destruct (split_off 35 tail) as [pq F].
  destruct (split_off 63 pq) as [P Qy].
  unfold _checknetloc. rewrite A, orb_true_r. reflexivity.
Qed.

(** The pieces of a URL of plain characters after the scheme. *)
Lemma pieces_spec (rest : str) :
  plain rest ->
  let '(N, tail) := span_netloc rest in
  let '(pq, F) := split_off 35 tail in
  let '(P, Qy) := split_off 63 pq in
  plain N /\ plain P /\ plain Qy
  /\ forallb (fun c => negb (isdelim c)) N = true
  /\ mem 35 P = false /\ mem 63 P = false /\ mem 35 Qy = false
  /\ (P = [] \/ exists t, P = 47%N :: t).
Proof.
  intro Hr.
  pose proof (span_netloc_spec rest) as Sp.
  destruct (span_netloc rest) as [N tail]. destruct Sp as [E1 [E2 E3]].
  pose proof (split_off_spec 35 tail) as S1.
  destruct (split_off 35 tail) as [pq F]. destruct S1 as [M1 D1].
  pose proof (split_off_spec 63 pq) as S2.
  destruct (split_off 63 pq) as [P Qy]. destruct S2 as [M2 D2].
  rewrite E1 in Hr. apply plain_app_inv in Hr. destruct Hr as [HN Ht].
  assert (Hpq : plain pq).
  { destruct D1 as [[-> _] | ->]; [exact Ht|].
    apply plain_app_inv in Ht. apply Ht. }
  assert (HPQ : plain P /\ plain Qy /\ mem 35 P = false /\ mem 35 Qy = false).
  { destruct D2 as [[-> ->] | ->].
    - repeat split; auto.
    - rewrite mem_app in M1. apply orb_false_iff in M1. destruct M1 as [M1 M3].
      unfold mem in M3. cbn [existsb] in M3. apply orb_false_iff in M3.
      apply plain_app_inv in Hpq. destruct Hpq as [HP HQ].
      change (63%N :: Qy) with ([63%N] ++ Qy) in HQ.
      apply plain_app_inv in HQ. repeat split; tauto. }
  destruct HPQ as [HP [HQ [M3 M4]]].
  repeat split; auto.
  destruct P as [|c t]; [left; reflexivity|right].
  assert (Hc : isdelim c = true).
  { assert (Hd : exists r, tail = c :: r).
    { destruct D2 as [[E _] | E]; destruct D1 as [[E' _] | E']; subst;
        eexists; cbn; reflexivity. }
    destruct Hd as [r ->]. exact E3. }
  unfold mem in M2, M3. cbn [existsb] in M2, M3.
  apply orb_false_iff in M2, M3. destruct M2 as [M2 _], M3 as [M3 _].
  unfold isdelim in Hc. exists t. f_equal.
  revert Hc M2 M3. char_lia.
Qed.

Lemma uses_params_http (S : str) :
  S = lit "http" \/ S = lit "https" ->
  existsb (str_eqb S) uses_params = true.
Proof. intros [-> | ->]; reflexivity. Qed.

(** [urlparse] on [http://rest] and [https://rest]. *)
Lemma urlparse_http (S rest : str) :
  S = lit "http" \/ S = lit "https" ->
  plain rest ->
  urlparse (S ++ lit "://" ++ rest)
  = let '(N, tail) := span_netloc rest in
    let '(pq, F) := split_off 35 tail in
    let '(P, Qy) := split_off 63 pq in
    Ok {| scheme := S; netloc := N; path := P; params := [];
          query := Qy; fragment := F |}.
Proof.
  intros HS Hr. unfold urlparse. rewrite (urlsplit_http S rest HS Hr).
  pose proof (pieces_spec rest Hr) as Pc.
  destruct (span_netloc rest) as [N tail].
  destruct (split_off 35 tail) as [pq F].
  destruct (split_off 63 pq) as [P Qy].
  destruct Pc as [_ [HP _]].
  cbn [bind sr_scheme sr_path sr_netloc sr_query sr_fragment].
  rewrite (plain_mem 59 P HP eq_refl), andb_false_r. reflexivity.
Qed.

(** The host and port texts of a plain authority. *)
Lemma hostinfo_plain (p : ParseResult) :
  plain (netloc p) ->
  forallb (fun c => negb (isdelim c)) (netloc p) = true ->
  exists hn pt,
    _hostinfo p = (hn, if nonempty pt then Some pt else None)
    /\ forallb hostcharb hn = true /\ plain pt.
Proof.
  intros HN HD. unfold _hostinfo.
  pose proof (rpartition_spec 64 (netloc p)) as R.
  destruct (rpartition 64 (netloc p)) as [[a f] hi]. destruct R as [M R].
  assert (Hhi : plain hi /\ forallb (fun c => negb (isdelim c)) hi = true).
  { destruct f.
    - rewrite R in HN, HD. apply plain_app_inv in HN.
      rewrite forallb_app in HD. apply andb_true_iff in HD.
      destruct HN as [_ HN], HD as [_ HD].
      change (64%N :: hi) with ([64%N] ++ hi) in HN, HD.
      apply plain_app_inv in HN. rewrite forallb_app in HD.
      apply andb_true_iff in HD. tauto.
    - destruct R as [-> _]. auto. }
  destruct Hhi as [Hp Hd].
  rewrite (partition_absent 91 hi) by (apply plain_mem; [exact Hp|reflexivity]).
  pose proof (partition_spec 58 hi) as P.
  destruct (partition 58 hi) as [[hn f2] pt]. destruct P as [M2 P].
  exists hn, pt. split; [reflexivity|].
  destruct f2.
  - rewrite P in Hp, Hd, M. apply plain_app_inv in Hp.
    rewrite forallb_app in Hd. apply andb_true_iff in Hd.
    rewrite mem_app in M. apply orb_false_iff in M.
    destruct Hp as [Hp1 Hp2], Hd as [Hd _], M as [M _].
    change (58%N :: pt) with ([58%N] ++ pt) in Hp2.
    apply plain_app_inv in Hp2. split; [|tauto].
    apply hostchar_intro; assumption.
  - destruct P as [-> ->]. split; [|reflexivity].
    apply hostchar_intro; assumption.
Qed.

(** [(parsed.hostname or '').lower()] is the lowercased host text. *)
Lemma host_lower (p : ParseResult) (hn : str) (pt : option str) :
  _hostinfo p = (hn, pt) -> str_isascii hn = true ->
  lower (match hostname p with Some h => h | None => [] end)
  = List.map ascii_lower hn.
Proof.
  intros E A. unfold hostname. rewrite E. cbn [fst].
  destruct hn as [|c hn']; [reflexivity|]. cbn [nonempty].
  set (hn := c :: hn') in *.
  pose proof (partition_spec 37 hn) as P.
  destruct (partition 37 hn) as [[h1 f] zone]. destruct P as [_ P].
  assert (K : h1 ++ (if f then lit "%" else []) ++ zone = hn).
  { destruct f; [symmetry; exact P|].
    destruct P as [-> ->]. rewrite !app_nil_r. reflexivity. }
  assert (A1 : str_isascii h1 = true /\
               str_isascii ((if f then lit "%" else []) ++ zone) = true).
  { rewrite <- K in A. unfold str_isascii in *.
    rewrite forallb_app in A. apply andb_true_iff in A. exact A. }
  destruct A1 as [A1 A2].
  rewrite (lower_ascii h1 A1).
  rewrite lower_ascii.
  - rewrite map_app, map_map.
    rewrite (map_ext _ _ ascii_lower_idem), <- map_app, K. reflexivity.
  - unfold str_isascii in *. rewrite forallb_app.
    fold (str_isascii (List.map ascii_lower h1)).
    rewrite (ascii_lower_isascii h1 A1). exact A2.
Qed.

End WithTables.
End PlainFacts.

(** ** Normalization is idempotent on plain URLs (C8) *)

Module IdempotenceFacts.
Import Py UrlLib ApiClient StrFacts ParseFacts PlainFacts.

(** *** Decimal numbers *)

Lemma chars_of_uint_digits (u : Decimal.uint) :
  forallb is_ascii_digit (chars_of_uint u) = true.
Proof. induction u; cbn; auto. Qed.

Lemma uint_of_chars_of_uint (u : Decimal.uint) :
  uint_of_chars (chars_of_uint u) = u.
Proof. induction u; cbn; try rewrite IHu; reflexivity. Qed.

Lemma int_of_str_of_N (n : N) : int_of_digits (str_of_N n) = n.
Proof.
  unfold int_of_digits, str_of_N. rewrite uint_of_chars_of_uint.
  apply DecimalN.Unsigned.of_to.
Qed.

Lemma str_of_N_nonempty (n : N) : nonempty (str_of_N n) = true.
Proof.
  unfold str_of_N. destruct n as [|p]; [reflexivity|].
  cbn [N.to_uint]. pose proof (DecimalPos.Unsigned.to_uint_nonnil p) as H.
  destruct (Pos.to_uint p); [congruence| | | | | | | | | |]; reflexivity.
Qed.

Lemma digits_hostchar (s : str) :
  forallb is_ascii_digit s = true -> forallb hostcharb s = true.
Proof.
  apply forallb_impl.
  unfold is_ascii_digit, hostcharb, plainb, isdelim. char_lia.
Qed.

(** *** The parts of a normalized URL *)

Definition port_ok (port : option N) : Prop :=
  match port with
  | Some p => (p <= 65535)%N
  | None => True
  end.

Record well_formed (S hn : str) (port : option N) (P Qy : str) : Prop := {
  wf_scheme : S = lit "http" \/ S = lit "https";
  wf_host : forallb hostcharb hn = true;
  wf_port : port_ok port;
  wf_path : plain P;
  wf_path_hash : mem 35 P = false;
  wf_path_qmark : mem 63 P = false;
  wf_path_head : P = [] \/ exists t, P = 47%N :: t;
  wf_query : plain Qy;
  wf_query_hash : mem 35 Qy = false
}.

(** The string that [_normalize_url] builds from the parts. *)
Definition assemble (S hn : str) (port : option N) (P Qy : str) : str :=
  S ++ lit "://"
    ++ (List.map ascii_lower hn ++ port_text port)
    ++ (path_text P ++ query_text Qy).

Lemma port_text_hostchar_or_colon (port : option N) :
  port_text port = []
  \/ exists p, port = Some p
               /\ port_text port = 58%N :: str_of_N p.
Proof.
  unfold port_text. destruct port as [p|]; [|auto].
  destruct (negb (p =? 0)%N && negb ((p =? 80)%N || (p =? 443)%N)); [|auto].
  right. exists p. auto.
Qed.

Lemma path_text_cases (P : str) :
  (nonempty (rstrip_of (Re.chr_is "/") P) = true
   /\ path_text P = rstrip_of (Re.chr_is "/") P)
  \/ path_text P = lit "/".
Proof.
  unfold path_text. destruct (nonempty (rstrip_of (Re.chr_is "/") P)); auto.
Qed.

Lemma path_text_idem (P : str) : path_text (path_text P) = path_text P.
Proof.
  destruct (path_text_cases P) as [[N E] | E]; rewrite E.
  - unfold path_text. rewrite rstrip_of_idem, N. reflexivity.
  - reflexivity.
Qed.

Lemma path_text_head (P : str) :
  P = [] \/ (exists t, P = 47%N :: t) ->
  exists t, path_text P = 47%N :: t.
Proof.
  intros H. destruct (path_text_cases P) as [[N E] | E]; rewrite E.
  - destruct (rstrip_of_prefix (Re.chr_is "/") P) as [t Ht].
    destruct (rstrip_of (Re.chr_is "/") P) as [|c r]; [discriminate|].
    destruct H as [-> | [t' ->]]; [discriminate|].
    injection Ht as -> _. eauto.
  - eexists. reflexivity.
Qed.

Lemma path_text_sub (q : N -> bool) (P : str) :
  q 47%N = true -> forallb q P = true -> forallb q (path_text P) = true.
Proof.
  intros H47 HP. destruct (path_text_cases P) as [[_ E] | E]; rewrite E.
  - apply forallb_rstrip_of, HP.
  - cbn. rewrite H47. reflexivity.
Qed.

Lemma query_text_cases (Qy : str) :
  (Qy = [] /\ query_text Qy = []) \/ query_text Qy = 63%N :: Qy.
Proof. unfold query_text. destruct Qy; cbn; auto. Qed.

Lemma mem_false_forallb (c : N) (s : str) :
  forallb (fun x => negb (c =? x)%N) s = true -> mem c s = false.
Proof. apply mem_false_iff. Qed.

Lemma lower_scheme {T : Tables} (S : str) :
  S = lit "http" \/ S = lit "https" -> lower S = S.
Proof. intros [-> | ->]; reflexivity. Qed.

Lemma with_http_prefix_present (S rest : str) :
  S = lit "http" \/ S = lit "https" ->
  with_http_prefix (S ++ lit "://" ++ rest) = S ++ lit "://" ++ rest.
Proof. intros [-> | ->]; reflexivity. Qed.

Lemma with_http_prefix_shape (u : str) :
  plain u ->
  exists S rest,
    with_http_prefix u = S ++ lit "://" ++ rest
    /\ (S = lit "http" \/ S = lit "https") /\ plain rest.
Proof.
  intro Hu. unfold with_http_prefix.
  destruct (startswith (lit "http://") u) eqn:E1.
  - apply startswith_app in E1. exists (lit "http"), (skipn 7 u).
    split; [exact E1|]. split; [auto|]. apply forallb_skipn, Hu.
  - destruct (startswith (lit "https://") u) eqn:E2.
    + apply startswith_app in E2. exists (lit "https"), (skipn 8 u).
      split; [exact E2|]. split; [auto|]. apply forallb_skipn, Hu.
    + exists (lit "http"), u. cbn [orb]. split; [reflexivity|]. auto.
Qed.

Section WithTables.
Context {T : Tables}.

Lemma lower_host_plain (hn : str) :
  forallb hostcharb hn = true ->
  forallb hostcharb (List.map ascii_lower hn) = true.
Proof. apply forallb_map_impl. exact ascii_lower_hostchar. Qed.

Lemma port_text_plain (port : option N) :
  plain (port_text port)
  /\ forallb (fun c => negb (isdelim c)) (port_text port) = true
  /\ mem 64 (port_text port) = false
  /\ mem 91 (port_text port) = false.
Proof.
  destruct (port_text_hostchar_or_colon port) as [-> | [p [_ ->]]].
  - repeat split; reflexivity.
  - pose proof (digits_hostchar _ (chars_of_uint_digits (N.to_uint p))) as D.
    fold (str_of_N p) in D.
    repeat split.
    + apply (plain_app [58%N]); [reflexivity|apply hostchar_plain, D].
    + cbn. apply hostchar_nodelim, D.
    + unfold mem. cbn [existsb]. apply (hostchar_mem 64 _ D). reflexivity.
    + unfold mem. cbn [existsb].
      apply plain_mem; [apply hostchar_plain, D|reflexivity].
Qed.

(** The host and port texts of [host:port] and of [host]. *)
Lemma hostinfo_authority (p : ParseResult) (H D : str) :
  forallb hostcharb H = true ->
  mem 64 D = false -> mem 91 D = false ->
  netloc p = H ++ (match D with [] => [] | _ => 58%N :: D end) ->
  _hostinfo p = (H, if nonempty D then Some D else None).
Proof.
  intros HH D64 D91 E. unfold _hostinfo. rewrite E.
  assert (H64 : mem 64 H = false) by (apply (hostchar_mem 64 H HH); reflexivity).
  assert (H91 : mem 91 H = false).
  { apply plain_mem; [apply hostchar_plain, HH|reflexivity]. }
  assert (H58 : mem 58 H = false) by (apply (hostchar_mem 58 H HH); reflexivity).
  destruct D as [|d D'].
  - rewrite app_nil_r.
    rewrite (rpartition_absent 64 H H64), (partition_absent 91 H H91),
      (partition_absent 58 H H58).
    reflexivity.
  - set (D := d :: D') in *.
    rewrite rpartition_absent
      by (rewrite mem_app, H64; unfold mem; cbn [existsb orb];
          exact D64).
    rewrite partition_absent
      by (rewrite mem_app, H91; unfold mem; cbn [existsb orb];
          exact D91).
    rewrite (partition_app 58 H D H58). reflexivity.
Qed.

Lemma parse_assembled (S hn : str) (port : option N) (P Qy : str) :
  well_formed S hn port P Qy ->
  urlparse (assemble S hn port P Qy)
  = Ok {| scheme := S;
          netloc := List.map ascii_lower hn ++ port_text port;
          path := path_text P; params := []; query := Qy; fragment := [] |}.
Proof.
  intros [W1 W2 W3 W4 W5 W6 W7 W8 W9]. unfold assemble.
  set (H := List.map ascii_lower hn).
  assert (HH : forallb hostcharb H = true) by (apply lower_host_plain, W2).
  destruct (port_text_plain port) as [T1 [T2 [T3 T4]]].
  assert (PP : plain (path_text P)) by (apply path_text_sub; [reflexivity|exact W4]).
  assert (P35 : mem 35 (path_text P) = false).
  { apply mem_false_forallb, path_text_sub; [reflexivity|].
    apply mem_false_iff, W5. }
  assert (P63 : mem 63 (path_text P) = false).
  { apply mem_false_forallb, path_text_sub; [reflexivity|].
    apply mem_false_iff, W6. }
  destruct (path_text_head P W7) as [t Et].
  assert (QQ : plain (query_text Qy) /\ mem 35 (query_text Qy) = false).
  { destruct (query_text_cases Qy) as [[_ ->] | ->]; [split; reflexivity|].
    split; [apply (plain_app [63%N]); [reflexivity|exact W8]|].
    unfold mem. cbn [existsb]. exact W9. }
  destruct QQ as [Q1 Q2].
  rewrite urlparse_http; [|exact W1|].
  2:{ apply plain_app; apply plain_app; auto. apply hostchar_plain, HH. }
  rewrite span_netloc_app.
  2:{ rewrite forallb_app, (hostchar_nodelim H HH), T2. reflexivity. }
  2:{ rewrite Et. reflexivity. }
  rewrite split_off_absent by (rewrite mem_app, P35, Q2; reflexivity).
  destruct (query_text_cases Qy) as [[-> E] | E]; rewrite E.
  - rewrite app_nil_r, (split_off_absent 63 _ P63). reflexivity.
  - rewrite (split_off_app 63 _ Qy P63). reflexivity.
Qed.

(** Normalization returns a normalized URL unchanged. *)
Lemma normalize_assembled (S hn : str) (op : option N) (P Qy : str) :
  well_formed S hn op P Qy ->
  _normalize_url (assemble S hn op P Qy) = Ok (assemble S hn op P Qy).
Proof.
  intros W. pose proof (parse_assembled S hn op P Qy W) as E.
  destruct W as [W1 W2 W3 W4 W5 W6 W7 W8 W9].
  set (H := List.map ascii_lower hn) in *.
  assert (HH : forallb hostcharb H = true) by (apply lower_host_plain, W2).
  destruct (port_text_plain op) as [T1 [T2 [T3 T4]]].
  set (parsed := {| scheme := S; netloc := H ++ port_text op;
                    path := path_text P; params := []; query := Qy;
                    fragment := [] |}) in *.
  assert (PL : plain (assemble S hn op P Qy)).
  { unfold assemble. fold H.
    assert (PP : plain (path_text P))
      by (apply path_text_sub; [reflexivity|exact W4]).
    assert (Q1 : plain (query_text Qy)).
    { destruct (query_text_cases Qy) as [[_ ->] | ->]; [reflexivity|].
      apply (plain_app [63%N]); [reflexivity|exact W8]. }
    apply plain_app; [destruct W1 as [-> | ->]; reflexivity|].
    apply plain_app; [reflexivity|].
    apply plain_app; apply plain_app; auto. apply hostchar_plain, HH. }
  (* the port text is read back as the same port, or as none when it was
     dropped *)
  assert (HP : exists port', port parsed = Ok port'
                             /\ port_text port' = port_text op
                             /\ _hostinfo parsed
                                = (H, match port' with
                                      | Some _ => Some (skipn 1 (port_text op))
                                      | None => None
                                      end)).
  { destruct (port_text_hostchar_or_colon op) as [E0 | [p [-> E0]]].
    - exists None. unfold port.
      rewrite (hostinfo_authority parsed H [] HH eq_refl eq_refl)
        by (cbn [netloc parsed]; rewrite E0; reflexivity).
      rewrite E0. auto.
    - exists (Some p).
      pose proof (chars_of_uint_digits (N.to_uint p)) as Dg.
      fold (str_of_N p) in Dg.
      pose proof (digits_hostchar _ Dg) as Dh.
      assert (HI : _hostinfo parsed = (H, Some (str_of_N p))).
      { rewrite (hostinfo_authority parsed H (str_of_N p) HH).
        - rewrite str_of_N_nonempty. reflexivity.
        - apply (hostchar_mem 64 _ Dh). reflexivity.
        - apply plain_mem; [apply hostchar_plain, Dh|reflexivity].
        - cbn [netloc parsed]. rewrite E0.
          pose proof (str_of_N_nonempty p) as Ne.
          destruct (str_of_N p); [discriminate|reflexivity]. }
      unfold port. rewrite HI. cbn [snd]. rewrite Dg, int_of_str_of_N.
      cbn in W3. apply N.leb_le in W3. rewrite W3, E0. auto. }
  destruct HP as [port' [HP1 [HP2 HP3]]].
  assert (U : with_http_prefix (strip (assemble S hn op P Qy))
              = assemble S hn op P Qy).
  { rewrite (plain_strip _ PL). apply with_http_prefix_present, W1. }
  rewrite (NormalizeFacts.normalize_unfold _ parsed port').
  - f_equal. unfold assemble. fold H. rewrite HP2.
    cbn [path query parsed]. rewrite path_text_idem.
    unfold scheme_and_host. cbn [scheme parsed].
    rewrite (lower_scheme S W1).
    rewrite (host_lower parsed H _ HP3 (plain_isascii _ (hostchar_plain _ HH))).
    unfold H. rewrite map_map, (map_ext _ _ ascii_lower_idem).
    rewrite <- !app_assoc. reflexivity.
  - rewrite U. exact E.
  - exact HP1.
Qed.

(** What normalization returns on a plain URL is assembled from
    well-formed parts. *)
Lemma normalize_shape (u v : str) :
  plain u -> _normalize_url u = Ok v ->
  exists S hn op P Qy,
    well_formed S hn op P Qy /\ v = assemble S hn op P Qy.
Proof.
  intros Hu Hn.
  destruct (with_http_prefix_shape u Hu) as [S [rest [E [HS Hr]]]].
  unfold _normalize_url in Hn.
  rewrite (plain_strip u Hu), E, (urlparse_http S rest HS Hr) in Hn.
  pose proof (pieces_spec rest Hr) as Pc.
  destruct (span_netloc rest) as [N tail].
  destruct (split_off 35 tail) as [pq F].
  destruct (split_off 63 pq) as [P Qy].
  destruct Pc as [HN [HP [HQ [ND [P35 [P63 [Q35 Hd]]]]]]].
  cbn [bind] in Hn.
  set (parsed := {| scheme := S; netloc := N; path := P; params := [];
                    query := Qy; fragment := F |}) in *.
  destruct (UrlLib.port parsed) as [op|e] eqn:Hport; [|discriminate].
  cbn [bind] in Hn. injection Hn as <-.
  destruct (hostinfo_plain parsed HN ND) as [hn [pt [HI [Hh Hpt]]]].
  exists S, hn, op, P, Qy. split.
  - split; auto.
    unfold UrlLib.port in Hport. rewrite HI in Hport. cbn [snd] in Hport.
    destruct (nonempty pt); [|injection Hport as <-; exact I].
    destruct (forallb is_ascii_digit pt); [|discriminate].
    destruct (int_of_digits pt <=? 65535)%N eqn:L; [|discriminate].
    injection Hport as <-. apply N.leb_le, L.
  - unfold assemble, scheme_and_host. cbn [scheme path query parsed].
    rewrite (lower_scheme S HS).
    rewrite (host_lower parsed hn _ HI (plain_isascii _ (hostchar_plain _ Hh))).
    rewrite <- !app_assoc. reflexivity.
Qed.

(** C8, amended: for every URL string made of printable ASCII characters
    other than the space, [;], [[] and []], if normalization returns [v]
    then normalizing [v] returns [v] again. *)
Theorem normalize_idempotent_on_plain_urls (u v : str) :
  plain u -> _normalize_url u = Ok v -> _normalize_url v = Ok v.
Proof.
  intros Hu Hn.
  destruct (normalize_shape u v Hu Hn) as [S [hn [op [P [Qy [W ->]]]]]].
  apply normalize_assembled, W.
Qed.

End WithTables.

(** C8, refuted as stated: a space before the final slash survives the
    first normalization at the end of the string and is stripped by the
    second. *)
Lemma normalize_not_idempotent :
  _normalize_url (lit "http://example.com/a /")
  = Ok (lit "http://example.com/a ")
  /\ _normalize_url (lit "http://example.com/a ")
     = Ok (lit "http://example.com/a")
  /\ lit "http://example.com/a " <> lit "http://example.com/a".
Proof.
  split; [vm_compute; reflexivity|].
  split; [vm_compute; reflexivity|].
  vm_compute. discriminate.
Qed.

Lemma normalize_idempotent_on_plain_urls_witness :
  _normalize_url (lit "http://example.com:8080/a/b?q=1")
  = Ok (lit "http://example.com:8080/a/b?q=1").
Proof.
  apply (normalize_idempotent_on_plain_urls
           (lit "http://Example.COM:8080/a/b/?q=1#top")).
  - vm_compute. reflexivity.
  - vm_compute. reflexivity.
Defined.

End IdempotenceFacts.

(** ** When normalization raises (C7) *)

Module TotalityFacts.
Import Py UrlLib ApiClient StrFacts ParseFacts.

(** ASCII characters other than the brackets. *)
Definition cleanb (c : N) : bool :=
  (isascii c && negb (c =? 91) && negb (c =? 93))%N.

Definition clean (s : str) : Prop := forallb cleanb s = true.

Lemma clean_intro (s : str) :
  str_isascii s = true -> mem 91 s = false -> mem 93 s = false -> clean s.
Proof.
  intros H1 H2 H3. apply mem_false_iff in H2, H3.
  pose proof (PlainFacts.forallb_and _ _ _
                (PlainFacts.forallb_and _ _ _ H1 H2) H3) as K.
  revert K. apply forallb_impl. unfold cleanb, isascii. char_lia.
Qed.

Lemma clean_elim (s : str) :
  clean s -> str_isascii s = true /\ mem 91 s = false /\ mem 93 s = false.
Proof.
  intro H. repeat split.
  - revert H. apply forallb_impl. unfold cleanb, isascii. char_lia.
  - apply mem_false_iff. revert H. apply forallb_impl.
    unfold cleanb, isascii. char_lia.
  - apply mem_false_iff. revert H. apply forallb_impl.
    unfold cleanb, isascii. char_lia.
Qed.

Section WithTables.
Context {T : Tables}.

Lemma split_scheme_clean (url : str) :
  clean url -> clean (snd (split_scheme url)).
Proof.
  intro H. unfold split_scheme.
  destruct (find 58 url) as [[|i]|]; [exact H| |exact H].
  destruct url as [|c0 r]; [exact H|].
  destruct (isascii c0 && is_ascii_alpha c0
            && forallb scheme_chars (firstn (S i) (c0 :: r))); [|exact H].
  cbn [snd]. apply forallb_skipn, H.
Qed.

Lemma split_authority_clean (url : str) :
  clean url ->
  exists netloc rest, split_authority url = Ok (netloc, rest) /\ clean netloc.
Proof.
  intro H. unfold split_authority.
  destruct (str_eqb (firstn 2 url) (lit "//")).
  - unfold _splitnetloc.
    set (d := fold_left _ (lit "/?#") (length url)).
    assert (C : clean (skipn 2 (firstn d url)))
      by (apply forallb_skipn, forallb_firstn, H).
    destruct (clean_elim _ C) as [_ [B1 B2]].
    rewrite B1, B2. cbn [andb orb bind]. eauto.
  - exists [], url. split; reflexivity.
Qed.

(** [urlparse] accepts every ASCII string without brackets. *)
Lemma urlparse_clean (url : str) :
  clean url -> exists parsed, urlparse url = Ok parsed.
Proof.
  intro H. unfold urlparse, urlsplit.
  set (u1 := fold_left _ unsafe_url_bytes _).
  assert (C1 : clean u1).
  { unfold u1, unsafe_url_bytes. cbn [fold_left]. unfold remove_char.
    repeat apply forallb_filter. apply forallb_lstrip_of, H. }
  pose proof (split_scheme_clean u1 C1) as C2.
  destruct (split_scheme u1) as [sch u2]. cbn [snd] in C2.
  destruct (split_authority_clean u2 C2) as [netloc [u3 [E C3]]].
  rewrite E. cbn [bind].
  destruct (split_off 35 u3) as [u4 fragment].
  destruct (split_off 63 u4) as [u5 query].
  destruct (clean_elim _ C3) as [A _].
  unfold _checknetloc. rewrite A, orb_true_r. cbn [bind].
  cbn [sr_scheme sr_path sr_netloc sr_query sr_fragment].
  destruct (if existsb (str_eqb sch) uses_params && mem 59 u5
            then _splitparams u5 else (u5, [])) as [a b].
  eauto.
Qed.


End WithTables.



End TotalityFacts.

(** ** The heuristic scorer: score range, buckets and the IP check
       (C1, C10) *)

Module HeuristicFacts.
Import Py UrlLib HeuristicEngine.

Local Open Scope R_scope.

(** *** Rounding *)

Lemma Rround_half_even_bounds (x : R) (a b : Z) :
  IZR a <= x <= IZR b -> (a <= Rround_half_even x <= b)%Z.
Proof.
  intros [Ha Hb]. unfold Rround_half_even.
  destruct (base_Int_part x) as [F1 F2].
  set (f := Int_part x) in *.
  assert (Fa : (a <= f)%Z).
  { assert (K : IZR (a - 1) < IZR f) by (rewrite minus_IZR; lra).
    apply lt_IZR in K. lia. }
  assert (Fb : (f <= b)%Z) by (apply le_IZR; lra).
  assert (Fb' : 0 < x - IZR f -> (f + 1 <= b)%Z).
  { intro D. assert (K : IZR f < IZR b) by lra. apply lt_IZR in K. lia. }
  destruct (Rlt_dec (x - IZR f) (1 / 2)) as [D1|D1]; [lia|].
  destruct (Rlt_dec (1 / 2) (x - IZR f)) as [D2|D2].
  - specialize (Fb' ltac:(lra)). lia.
  - destruct (Z.even f); [lia|]. specialize (Fb' ltac:(lra)). lia.
Qed.

(** Rounding to two decimals keeps a score inside [[0, 100]]. *)
Lemma round_R_2_range (x : R) : 0 <= x <= 100 -> 0 <= round_R x 2 <= 100.
Proof.
  intro H. unfold round_R.
  replace (10 ^ 2) with 100 by (simpl; lra).
  pose proof (Rround_half_even_bounds (x * 100) 0 10000 ltac:(lra)) as [L U].
  apply IZR_le in L, U. lra.
Qed.

Lemma clamp_range (score : R) : 0 <= clamp score <= 100.
Proof.
  unfold clamp, Rmax, Rmin.
  destruct (Rle_dec 100 score); destruct (Rle_dec 0 _); lra.
Qed.

Lemma classify_bucket (score : R) :
  (score < 30 /\ classify score = Safe)
  \/ (30 <= score < 65 /\ classify score = Suspicious)
  \/ (65 <= score /\ classify score = Phishing).
Proof.
  unfold classify.
  destruct (Rlt_dec score 30); [left; auto|].
  destruct (Rlt_dec score 65); [right; left|right; right]; split; auto; lra.
Qed.

(** *** The regular expression of [_is_ip_address] *)



Section WithTables.
Context {T : Tables}.



(** Rounding to two decimals does not cross a whole number of points. *)
Lemma round_R_2_threshold (x : R) (z : Z) :
  0 <= x <= 100 -> (0 <= z <= 100)%Z ->
  (IZR z <= x -> IZR z <= round_R x 2)
  /\ (x <= IZR z -> round_R x 2 <= IZR z).
Proof.
  intros Hx Hz. unfold round_R.
  replace (10 ^ 2) with 100 by (simpl; lra).
  assert (Z0 : 0 <= IZR z <= 100)
    by (split; [apply (IZR_le 0)|apply (IZR_le z 100)]; lia).
  split; intro H.
  - assert (B : IZR (z * 100) <= x * 100 <= IZR 10000)
      by (rewrite mult_IZR; lra).
    apply Rround_half_even_bounds in B. destruct B as [B _].
    apply IZR_le in B. rewrite mult_IZR in B. lra.
  - assert (B : IZR 0 <= x * 100 <= IZR (z * 100))
      by (rewrite mult_IZR; lra).
    apply Rround_half_even_bounds in B. destruct B as [_ B].
    apply IZR_le in B. rewrite mult_IZR in B. lra.
Qed.

(** C1: whenever [analyze_url] returns, the clamped score lies in
    [[0, 100]], the reported [risk_score] is that score rounded to two
    decimals and lies in [[0, 100]] too, and the classification is the
    bucket of the score before the rounding: below 30 Safe, from 30 and
    below 65 Suspicious, from 65 Phishing.  The reported [risk_score] is
    then at most 30 with Safe, from 30 to 65 with Suspicious and at least
    65 with Phishing: it can be 30 with Safe and 65 with Suspicious. *)
Theorem analyze_url_score_and_bucket (url : str) (r : Assessment) :
  analyze_url url = Ok r ->
  exists parsed,
    urlparse (prepare url) = Ok parsed
    /\ let score := clamp (total_score (prepare url) parsed) in
       0 <= score <= 100
       /\ risk_score r = round_R score 2
       /\ 0 <= risk_score r <= 100
       /\ ((score < 30 /\ classification r = Safe /\ risk_score r <= 30)
           \/ (30 <= score < 65 /\ classification r = Suspicious
               /\ 30 <= risk_score r <= 65)
           \/ (65 <= score /\ classification r = Phishing
               /\ 65 <= risk_score r)).
Proof.
  unfold analyze_url. intro H.
  destruct (urlparse (prepare url)) as [parsed|e]; [|discriminate].
  cbn [bind] in H. injection H as <-.
  exists parsed. split; [reflexivity|]. cbv zeta.
  cbn [assess risk_score classification].
  pose proof (clamp_range (total_score (prepare url) parsed)) as C.
  set (score := clamp (total_score (prepare url) parsed)) in *.
  split; [exact C|]. split; [reflexivity|].
  split; [apply round_R_2_range, C|].
  destruct (round_R_2_threshold score 30 C ltac:(lia)) as [L30 U30].
  destruct (round_R_2_threshold score 65 C ltac:(lia)) as [L65 U65].
  destruct (classify_bucket score) as [[B E] | [[B E] | [B E]]].
  - left. split; [exact B|]. split; [exact E|]. apply U30. lra.
  - right. left. split; [exact B|]. split; [exact E|].
    split; [apply L30|apply U65]; lra.
  - right. right. split; [exact B|]. split; [exact E|]. apply L65. lra.
Qed.

End WithTables.




End HeuristicFacts.

(** ** The score of a sample phishing URL (C3) *)

Module SampleFacts.
Import Py UrlLib HeuristicEngine.

Local Open Scope R_scope.

Lemma ln_2_pos : 0 < ln 2.
Proof. rewrite <- ln_1. apply ln_increasing; lra. Qed.

(** Bounds of a binary logarithm from a comparison of integer powers. *)
Lemma log2_lower (x : Z) (p q : nat) :
  (0 < x)%Z -> (0 < q)%nat -> (2 ^ Z.of_nat p < x ^ Z.of_nat q)%Z ->
  INR p / INR q < log2 (IZR x).
Proof.
  intros Hx Hq H. apply IZR_lt in H. rewrite <- !pow_IZR in H.
  assert (X : 0 < IZR x) by (apply IZR_lt; exact Hx).
  apply ln_increasing in H; [|apply pow_lt; lra].
  rewrite !ln_pow in H by lra.
  assert (Q : 0 < INR q) by (apply lt_0_INR; exact Hq).
  pose proof ln_2_pos as L2. unfold log2.
  apply Rmult_lt_reg_r with (r := INR q * ln 2);
    [apply Rmult_lt_0_compat; assumption|].
  field_simplify; lra.
Qed.

Lemma log2_upper (x : Z) (p q : nat) :
  (0 < x)%Z -> (0 < q)%nat -> (x ^ Z.of_nat q < 2 ^ Z.of_nat p)%Z ->
  log2 (IZR x) < INR p / INR q.
Proof.
  intros Hx Hq H. apply IZR_lt in H. rewrite <- !pow_IZR in H.
  assert (X : 0 < IZR x) by (apply IZR_lt; exact Hx).
  apply ln_increasing in H; [|apply pow_lt; lra].
  rewrite !ln_pow in H by lra.
  assert (Q : 0 < INR q) by (apply lt_0_INR; exact Hq).
  pose proof ln_2_pos as L2. unfold log2.
  apply Rmult_lt_reg_r with (r := INR q * ln 2);
    [apply Rmult_lt_0_compat; assumption|].
  field_simplify; lra.
Qed.

(** 3.4593 < log2 11 < 3.4595 *)
Lemma log2_11_bounds : 723 / 209 < log2 11 < 128 / 37.
Proof.
  split.
  - pose proof (log2_lower 11 723 209 eq_refl ltac:(lia)
                  ltac:(vm_compute; reflexivity)) as H.
    rewrite !INR_IZR_INZ in H. exact H.
  - pose proof (log2_upper 11 128 37 eq_refl ltac:(lia)
                  ltac:(vm_compute; reflexivity)) as H.
    rewrite !INR_IZR_INZ in H. exact H.
Qed.

Definition sample_url : str :=
  lit "http://paypa1-secure-login.tk/verify/account/update".

Definition sample_host : str := lit "paypa1-secure-login.tk".

Definition sample_parsed : ParseResult :=
  {| scheme := lit "http"; netloc := sample_host;
     path := lit "/verify/account/update";
     params := []; query := []; fragment := [] |}.

(** The entropy of the sample host: 22 characters, four of them twice. *)
Lemma sample_entropy : _shannon_entropy sample_host = log2 11 + 7 / 11.
Proof.
  unfold _shannon_entropy.
  change sample_host with (112 :: skipn 1 sample_host)%N. cbv iota.
  change (112 :: skipn 1 sample_host)%N with sample_host.
  replace (List.map snd (Counter sample_host))
    with [2; 2; 1; 1; 2; 1; 2; 1; 1; 1; 1; 1; 1; 1; 1; 1; 1; 1]%nat
    by (vm_compute; reflexivity).
  replace (length sample_host) with 22%nat by (vm_compute; reflexivity).
  unfold Rsum. cbn [List.map fold_left].
  replace (INR 22) with 22 by (rewrite INR_IZR_INZ; reflexivity).
  replace (INR 2) with 2 by (rewrite INR_IZR_INZ; reflexivity).
  replace (INR 1) with 1 by reflexivity.
  pose proof ln_2_pos as L2.
  assert (A : log2 (2 / 22) = - log2 11).
  { unfold log2. replace (2 / 22) with (/ 11) by lra.
    rewrite ln_Rinv by lra. field. lra. }
  assert (B : log2 (1 / 22) = - 1 - log2 11).
  { unfold log2. replace (1 / 22) with (/ (2 * 11)) by lra.
    rewrite ln_Rinv by lra. rewrite ln_mult by lra. field. lra. }
  rewrite A, B. lra.
Qed.

Lemma Rround_half_even_up (x : R) (z : Z) :
  IZR z + 1 / 2 < x < IZR z + 1 -> Rround_half_even x = (z + 1)%Z.
Proof.
  intros [H1 H2]. unfold Rround_half_even.
  assert (E : Int_part x = z) by (symmetry; apply Int_part_spec; lra).
  rewrite E.
  destruct (Rlt_dec (x - IZR z) (1 / 2)); [lra|].
  destruct (Rlt_dec (1 / 2) (x - IZR z)); [reflexivity|lra].
Qed.

Definition sample_keywords : list str :=
  List.map lit ["login"; "verify"; "secure"; "account"; "update"]%string.

Definition sample_brands : list str := [lit "paypal (variant: paypa1)"].

(** The penalty of the entropy check on the sample host. *)
Definition sample_entropy_penalty : R := (log2 11 + 7 / 11 - 38 / 10) * 8.

Lemma sample_entropy_penalty_bounds :
  2.365 < sample_entropy_penalty < 2.367.
Proof.
  unfold sample_entropy_penalty. pose proof log2_11_bounds. lra.
Qed.

Section WithTables.
Context {T : Tables}.

Lemma sample_check_entropy :
  check_entropy sample_host = Some (sample_entropy_penalty, HighEntropy).
Proof.
  unfold check_entropy. rewrite sample_entropy.
  pose proof log2_11_bounds as B.
  destruct (Rlt_dec (38 / 10) (log2 11 + 7 / 11)) as [_|N]; [|lra].
  rewrite Rmin_left; [reflexivity|lra].
Qed.

(** The checks on the sample URL that do not involve logarithms. *)
Lemma sample_rational_checks :
  host_of sample_parsed = sample_host
  /\ check_domain_length sample_host = None
  /\ check_hyphens sample_host = Some (6%Q, MultipleHyphens 2)
  /\ check_keywords (sample_host ++ path sample_parsed)
     = Some (20%Q, SuspiciousKeywords sample_keywords)
  /\ check_tld sample_host = Some (8%Q, HighRiskTLD)
  /\ check_ip sample_host = None
  /\ check_subdomains sample_host = None
  /\ check_homographs sample_host = None
  /\ check_brands sample_host = Some (8%Q, BrandSpoofing sample_brands)
  /\ check_https sample_parsed = Some (5%Q, NoHTTPS)
  /\ check_path_depth (path sample_parsed) = None
  /\ check_at_sign sample_url = None
  /\ check_digit_ratio sample_host = None.
Proof. repeat split; vm_compute; reflexivity. Qed.

(** The checks that fire on the sample URL, with their penalties. *)
Lemma sample_fired :
  fired_checks sample_url sample_parsed
  = [ (sample_entropy_penalty, HighEntropy);
      (Q2R 6, MultipleHyphens 2);
      (Q2R 20, SuspiciousKeywords sample_keywords);
      (Q2R 8, HighRiskTLD);
      (Q2R 8, BrandSpoofing sample_brands);
      (Q2R 5, NoHTTPS) ].
Proof.
  destruct sample_rational_checks
    as [E0 [E1 [E2 [E3 [E4 [E5 [E6 [E7 [E8 [E9 [E10 [E11 E12]]]]]]]]]]]].
  unfold fired_checks.
  rewrite E0, sample_check_entropy, E1, E2, E3, E4, E5, E6, E7, E8, E9,
    E10, E11, E12.
  reflexivity.
Qed.

Lemma sample_total :
  total_score sample_url sample_parsed = 47 + sample_entropy_penalty.
Proof.
  unfold total_score. rewrite sample_fired.
  unfold Rsum. cbn [List.map fst fold_left].
  unfold Q2R. cbn [Qnum Qden]. lra.
Qed.

(** The whole result on the sample URL. *)
Lemma sample_result :
  analyze_url sample_url = Ok (assess sample_url sample_parsed)
  /\ reasoning (assess sample_url sample_parsed)
     = [ HighEntropy; MultipleHyphens 2; SuspiciousKeywords sample_keywords;
         HighRiskTLD; BrandSpoofing sample_brands; NoHTTPS ]
  /\ classification (assess sample_url sample_parsed) = Suspicious
  /\ risk_score (assess sample_url sample_parsed) = 49.37.
Proof.
  pose proof sample_entropy_penalty_bounds as B.
  split; [|split; [|split]].
  - unfold analyze_url.
    replace (prepare sample_url) with sample_url by (vm_compute; reflexivity).
    replace (urlparse sample_url) with (Ok sample_parsed)
      by (vm_compute; reflexivity).
    reflexivity.
  - cbn [assess reasoning]. rewrite sample_fired. reflexivity.
  - cbn [assess classification]. rewrite sample_total.
    unfold HeuristicEngine.clamp. rewrite Rmin_right by lra.
    rewrite Rmax_right by lra.
    unfold HeuristicEngine.classify.
    destruct (Rlt_dec (47 + sample_entropy_penalty) 30); [lra|].
    destruct (Rlt_dec (47 + sample_entropy_penalty) 65); [reflexivity|lra].
  - cbn [assess risk_score]. rewrite sample_total.
    unfold HeuristicEngine.clamp. rewrite Rmin_right by lra.
    rewrite Rmax_right by lra.
    unfold round_R. replace (10 ^ 2) with 100 by (simpl; lra).
    rewrite (Rround_half_even_up _ 4936) by lra.
    change (4936 + 1)%Z with 4937%Z. lra.
Qed.

(** C3, amended: on the sample URL the suspicious-keyword check, the
    brand-spoofing check and the high-risk-TLD check fire (with the
    entropy, hyphen and missing-HTTPS checks), and the result is classified
    Suspicious with a risk score of 49.37. *)
Theorem sample_url_is_suspicious :
  exists r,
    analyze_url sample_url = Ok r
    /\ In (SuspiciousKeywords sample_keywords) (reasoning r)
    /\ In (BrandSpoofing sample_brands) (reasoning r)
    /\ In HighRiskTLD (reasoning r)
    /\ classification r = Suspicious
    /\ risk_score r = 49.37.
Proof.
  destruct sample_result as [E [Rs [C S]]].
  exists (assess sample_url sample_parsed).
  split; [exact E|]. rewrite Rs.
  repeat split; try assumption; cbn [In]; tauto.
Qed.

End WithTables.

(** C3, refuted as stated: the sample URL is not classified Phishing and
    its risk score is below 65. *)
Lemma sample_url_is_not_phishing :
  exists r,
    analyze_url sample_url = Ok r
    /\ classification r <> Phishing
    /\ risk_score r < 65.
Proof.
  destruct sample_result as [E [_ [C S]]].
  exists (assess sample_url sample_parsed).
  split; [exact E|]. rewrite C, S. split; [discriminate|lra].
Qed.

End SampleFacts.

(** ** The fallback to the heuristic scorer (C4) *)

Module ScannerFacts.
Import Py UrlLib ScannerTab.

Section WithTables.
Context {T : Tables}.


(** When the heuristic scorer itself raises, or the result cannot be
    stored, the outer handler answers with the error result. *)
Lemma run_scan_error_result (w : World) (url : str) (e : exn) :
  select_engine w url = Raise e -> _run_scan w url = error_result e.
Proof. intro H. unfold _run_scan. rewrite H. reflexivity. Qed.

End WithTables.

(** A world with a rejected credential, no model and a working store. *)
Definition world_401 : World :=
  {| VIRUSTOTAL_API_KEY := ProtocolFacts.sample_key;
     service := ProtocolFacts.service_401;
     model_available := false;
     predict := fun _ => Ok None;
     insert_scan := fun _ _ => Ok tt |}.


(** The safety net at work: the credential is rejected, there is no
    model, and the percent-decoded URL has an unmatched bracket, which
    [urlparse] refuses inside the heuristic scorer. *)
Lemma run_scan_unmatched_bracket :
  _run_scan world_401 (lit "http://%5B")
  = ScannerTab.error_result (ValueError InvalidIPv6URL).
Proof.
  apply run_scan_error_result. vm_compute. reflexivity.
Qed.

End ScannerFacts.

(** ** The reported score is rounded after the classification *)

Module RoundingFacts.
Import Py UrlLib HeuristicEngine.

Local Open Scope R_scope.

(** A host of 203 characters: 130 letters, two hyphens and 71 digits. *)
Definition long_host : str :=
  repeat (ch "z") 130 ++ repeat (ch "-") 2 ++ repeat (ch "1") 71.

Definition long_url : str := lit "http://" ++ long_host.

Definition long_parsed : ParseResult :=
  {| scheme := lit "http"; netloc := long_host; path := [];
     params := []; query := []; fragment := [] |}.

Lemma log2_div (x y : R) :
  0 < x -> 0 < y -> log2 (x / y) = log2 x - log2 y.
Proof.
  intros Hx Hy. unfold log2, Rdiv.
  rewrite ln_mult by (try apply Rinv_0_lt_compat; assumption).
  rewrite ln_Rinv by assumption. ring.
Qed.

Lemma log2_2 : log2 2 = 1.
Proof. unfold log2. field. pose proof SampleFacts.ln_2_pos. lra. Qed.

Lemma long_entropy_low : _shannon_entropy long_host < 38 / 10.
Proof.
  unfold _shannon_entropy.
  change long_host with (122 :: skipn 1 long_host)%N. cbv iota.
  change (122 :: skipn 1 long_host)%N with long_host.
  replace (List.map snd (Counter long_host)) with [130; 2; 71]%nat
    by (vm_compute; reflexivity).
  replace (length long_host) with 203%nat by (vm_compute; reflexivity).
  unfold Rsum. cbn [List.map fold_left].
  rewrite !INR_IZR_INZ. cbn [Z.of_nat Pos.of_succ_nat Pos.succ].
  pose proof SampleFacts.ln_2_pos as L2.
  pose proof (SampleFacts.log2_upper 203 8 1 eq_refl ltac:(lia)
                ltac:(vm_compute; reflexivity)) as U.
  pose proof (SampleFacts.log2_lower 130 7 1 eq_refl ltac:(lia)
                ltac:(vm_compute; reflexivity)) as L130.
  pose proof (SampleFacts.log2_lower 71 6 1 eq_refl ltac:(lia)
                ltac:(vm_compute; reflexivity)) as L71.
  rewrite !INR_IZR_INZ in U, L130, L71. cbn [Z.of_nat Pos.of_succ_nat Pos.succ] in U, L130, L71.
  rewrite !log2_div, log2_2 by lra. lra.
Qed.

Section WithTables.
Context {T : Tables}.

Lemma long_rational_checks :
  host_of long_parsed = long_host
  /\ check_domain_length long_host = Some (12%Q, LongDomain 203)
  /\ check_hyphens long_host = Some (6%Q, MultipleHyphens 2)
  /\ check_keywords (long_host ++ path long_parsed) = None
  /\ check_tld long_host = None
  /\ check_ip long_host = None
  /\ check_subdomains long_host = None
  /\ check_homographs long_host = None
  /\ check_brands long_host = None
  /\ check_https long_parsed = Some (5%Q, NoHTTPS)
  /\ check_path_depth (path long_parsed) = None
  /\ check_at_sign long_url = None
  /\ check_digit_ratio long_host = Some ((1420 # 203)%Q, HighDigitRatio).
Proof. repeat split; vm_compute; reflexivity. Qed.

(** The URL scores 29.995..., which is classified Safe and reported as
    30.0: the reported score and the classification can lie on the two
    sides of a threshold when the score is within 0.005 below it. *)
Lemma rounding_straddles_threshold :
  analyze_url long_url = Ok (assess long_url long_parsed)
  /\ classification (assess long_url long_parsed) = Safe
  /\ risk_score (assess long_url long_parsed) = 30.
Proof.
  assert (F : fired_checks long_url long_parsed
              = [ (Q2R 12, LongDomain 203); (Q2R 6, MultipleHyphens 2);
                  (Q2R 5, NoHTTPS); (Q2R (1420 # 203), HighDigitRatio) ]).
  { destruct long_rational_checks
      as [E0 [E1 [E2 [E3 [E4 [E5 [E6 [E7 [E8 [E9 [E10 [E11 E12]]]]]]]]]]]].
    unfold fired_checks.
    rewrite E0, E1, E2, E3, E4, E5, E6, E7, E8, E9, E10, E11, E12.
    unfold check_entropy.
    pose proof long_entropy_low.
    destruct (Rlt_dec (38 / 10) (_shannon_entropy long_host)); [lra|].
    reflexivity. }
  assert (S : total_score long_url long_parsed = 23 + 1420 / 203).
  { unfold total_score. rewrite F. unfold Rsum. cbn [List.map fst fold_left].
    unfold Q2R. cbn [Qnum Qden]. lra. }
  split; [|split].
  - unfold analyze_url.
    replace (prepare long_url) with long_url by (vm_compute; reflexivity).
    replace (urlparse long_url) with (Ok long_parsed)
      by (vm_compute; reflexivity).
    reflexivity.
  - cbn [assess classification]. rewrite S.
    unfold HeuristicEngine.clamp. rewrite Rmin_right by lra.
    rewrite Rmax_right by lra.
    unfold HeuristicEngine.classify.
    destruct (Rlt_dec (23 + 1420 / 203) 30); [reflexivity|lra].
  - cbn [assess risk_score]. rewrite S.
    unfold HeuristicEngine.clamp. rewrite Rmin_right by lra.
    rewrite Rmax_right by lra.
    unfold round_R. replace (10 ^ 2) with 100 by (simpl; lra).
    rewrite (SampleFacts.Rround_half_even_up _ 2999) by lra.
    change (2999 + 1)%Z with 3000%Z. lra.
Qed.

End WithTables.

(** The result for this URL carries [risk_score] 30 and the verdict Safe,
    where the buckets of the reported score would give Suspicious. *)
Lemma risk_score_30_classified_safe :
  exists r,
    analyze_url long_url = Ok r
    /\ risk_score r = 30
    /\ 30 <= risk_score r < 65
    /\ classification r = Safe
    /\ classification r <> Suspicious.
Proof.
  destruct rounding_straddles_threshold as [E [C S]].
  exists (assess long_url long_parsed).
  split; [exact E|]. split; [exact S|]. rewrite S, C.
  split; [lra|]. split; [reflexivity|discriminate].
Qed.

Lemma analyze_url_score_and_bucket_witness :
  exists r,
    analyze_url long_url = Ok r
    /\ classification r = Safe
    /\ 0 <= risk_score r <= 30.
Proof.
  destruct rounding_straddles_threshold as [E [C _]].
  exists (assess long_url long_parsed).
  split; [exact E|]. split; [exact C|].
  destruct (HeuristicFacts.analyze_url_score_and_bucket _ _ E)
    as [parsed [_ [_ [_ [[L _] [[_ [_ U]] | [[_ [K _]] | [_ [K _]]]]]]]]].
  - split; [exact L|exact U].
  - rewrite C in K. discriminate.
  - rewrite C in K. discriminate.
Defined.

End RoundingFacts.

(* ------------------------------------------------------------------ *)
(** ** The edit distance of [_levenshtein]                              *)
(* ------------------------------------------------------------------ *)

Module LevenshteinFacts.
Import Py HeuristicEngine.

(** The distance [D] of the table, read on reversed prefixes: a string
    is consumed from its last character. *)
Fixpoint lev (a : str) : str -> nat :=
  match a with
  | [] => fun b => length b
  | x :: a' =>
      fix lev_a (b : str) : nat :=
        match b with
        | [] => S (length a')
        | y :: b' =>
            Nat.min (lev a' b + 1)
              (Nat.min (lev_a b' + 1)
                       (lev a' b' + (if (x =? y)%N then 0 else 1)))
        end
  end.

(** The row of the table for [a]: the entries for the prefixes of the
    second string from the reversed prefix [q] on. *)
Fixpoint row_from (a q rest : str) : list nat :=
  match rest with
  | [] => [lev a q]
  | c :: rest' => lev a q :: row_from a (c :: q) rest'
  end.

Lemma lev_nil_r (a : str) : lev a [] = length a.
Proof. destruct a; reflexivity. Qed.

Lemma lev_cons (x y : N) (a b : str) :
  lev (x :: a) (y :: b)
  = Nat.min (lev a (y :: b) + 1)
      (Nat.min (lev (x :: a) b + 1)
               (lev a b + (if (x =? y)%N then 0 else 1))).
Proof. reflexivity. Qed.

Lemma lev_sym (a : str) : forall b, lev a b = lev b a.
Proof.
  induction a as [|x a IHa]; intro b.
  - rewrite lev_nil_r. reflexivity.
  - induction b as [|y b IHb].
    + rewrite lev_nil_r. reflexivity.
    + rewrite !lev_cons, IHb, (IHa (y :: b)), (IHa b), (N.eqb_sym y x). lia.
Qed.

Lemma lev_refl (a : str) : lev a a = 0%nat.
Proof.
  induction a as [|x a IH]; [reflexivity|].
  rewrite lev_cons, IH, N.eqb_refl. lia.
Qed.

Lemma lev_zero (a : str) : forall b, lev a b = 0%nat -> a = b.
Proof.
  induction a as [|x a IHa]; intros b H.
  - destruct b; [reflexivity|discriminate].
  - destruct b as [|y b]; [discriminate|].
    rewrite lev_cons in H.
    destruct (N.eqb_spec x y) as [->|Hne]; [|lia].
    f_equal. apply IHa. lia.
Qed.

Lemma lev_upper (a : str) : forall b, (lev a b <= Nat.max (length a) (length b))%nat.
Proof.
  induction a as [|x a IHa]; intro b.
  - cbn. lia.
  - destruct b as [|y b]; [rewrite lev_nil_r; lia|].
    rewrite lev_cons. specialize (IHa b). cbn [length].
    destruct (x =? y)%N; lia.
Qed.

Lemma lev_lower (a : str) :
  forall b, (length a - length b <= lev a b)%nat
            /\ (length b - length a <= lev a b)%nat.
Proof.
  induction a as [|x a IHa]; intro b.
  - cbn. lia.
  - induction b as [|y b IHb]; [rewrite lev_nil_r; cbn; lia|].
    rewrite lev_cons.
    pose proof (IHa (y :: b)) as H1. pose proof (IHa b) as H2.
    cbn [length] in *. destruct (x =? y)%N; lia.
Qed.

Lemma lev_triangle (a : str) :
  forall b c, (lev a c <= lev a b + lev b c)%nat.
Proof.
  induction a as [|x a IHa]; intro b.
  - intro c. pose proof (lev_lower b c).
    change (lev [] c) with (length c). change (lev [] b) with (length b). lia.
  - induction b as [|y b IHb]; intro c.
    + pose proof (lev_upper (x :: a) c). rewrite lev_nil_r.
      change (lev [] c) with (length c). lia.
    + induction c as [|z c IHc].
      * pose proof (lev_lower (x :: a) (y :: b)). rewrite !lev_nil_r. lia.
      * pose proof (IHa (y :: b) (z :: c)) as T1.
        pose proof (IHa b (z :: c)) as T2.
        pose proof (IHa b c) as T3.
        pose proof (IHb (z :: c)) as T4.
        pose proof (IHb c) as T5.
        pose proof (lev_cons x z a c) as E1.
        pose proof (lev_cons x y a b) as E2.
        pose proof (lev_cons y z b c) as E3.
        revert E1 E2 E3.
        destruct (N.eqb_spec x y) as [Exy|Hxy];
          destruct (N.eqb_spec y z) as [Eyz|Hyz];
          destruct (N.eqb_spec x z) as [Exz|Hxz];
          try congruence; lia.
Qed.

(** The first row of the table. *)
Lemma row_from_nil (q rest : str) :
  row_from [] q rest = seq (length q) (length rest + 1).
Proof.
  revert q. induction rest as [|c rest IH]; intro q; [reflexivity|].
  cbn [row_from length Nat.add seq]. rewrite IH. reflexivity.
Qed.

Lemma row_from_head (a q rest : str) :
  row_from a q rest = lev a q :: tl (row_from a q rest).
Proof. destruct rest; reflexivity. Qed.

(** One pass of the inner loop turns the row of [a] into the row of
    [c1 :: a], its first entry apart. *)
Lemma lev_row_spec (c1 : N) (a : str) (rest : str) :
  forall q,
    lev_row c1 rest (row_from a q rest) (lev (c1 :: a) q)
    = tl (row_from (c1 :: a) q rest).
Proof.
  induction rest as [|c2 rest IH]; intro q; [reflexivity|].
  cbn [row_from tl].
  rewrite (row_from_head a (c2 :: q) rest). cbn [lev_row].
  rewrite <- (lev_cons c1 c2 a q), <- (row_from_head a (c2 :: q) rest).
  rewrite IH. symmetry. apply row_from_head.
Qed.

(** The outer loop. *)
Lemma lev_rows_spec (s1 s2 : str) :
  forall a,
    lev_rows s1 s2 (length a) (row_from a [] s2)
    = row_from (rev s1 ++ a) [] s2.
Proof.
  induction s1 as [|c1 s1 IH]; intro a; [reflexivity|].
  cbn [lev_rows rev]. rewrite <- app_assoc. cbn [app].
  rewrite <- (IH (c1 :: a)). cbn [length]. f_equal.
  rewrite (row_from_head (c1 :: a) [] s2).
  rewrite <- lev_row_spec, lev_nil_r. reflexivity.
Qed.

Lemma row_from_last (a rest : str) :
  forall q d, last (row_from a q rest) d = lev a (rev rest ++ q).
Proof.
  induction rest as [|c rest IH]; intros q d; [reflexivity|].
  cbn [row_from rev]. rewrite <- app_assoc. cbn [app].
  rewrite <- (IH (c :: q) d).
  rewrite (row_from_head a (c :: q) rest). reflexivity.
Qed.

Lemma lev_ordered_spec (s1 s2 : str) :
  lev_ordered s1 s2 = lev (rev s1) (rev s2).
Proof.
  assert (K : last (lev_rows s1 s2 0 (seq 0 (length s2 + 1))) 0%nat
              = lev (rev s1) (rev s2)).
  { pose proof (row_from_nil [] s2) as R. cbn [length] in R.
    pose proof (lev_rows_spec s1 s2 []) as L. cbn [length] in L.
    rewrite <- R, L, row_from_last, !app_nil_r. reflexivity. }
  unfold lev_ordered. destruct s2 as [|c2 s2']; [|exact K].
  rewrite lev_nil_r, length_rev. reflexivity.
Qed.

(** [_levenshtein] is the distance of the reversed strings, whichever
    argument is the longer one. *)
Lemma levenshtein_lev (s1 s2 : str) :
  _levenshtein s1 s2 = lev (rev s1) (rev s2).
Proof.
  unfold _levenshtein.
  destruct (length s1 <? length s2)%nat; rewrite lev_ordered_spec;
    [apply lev_sym|reflexivity].
Qed.

(** The recurrence that the table implements holds of the function
    itself: against the empty string the distance is the length of the
    other string, and for strings that end in [a] and [b] it is the least
    of a deletion, an insertion and a substitution (free when [a = b]). *)
Theorem levenshtein_recurrence (s1 s2 : str) (a b : N) :
  _levenshtein s1 [] = length s1
  /\ _levenshtein [] s2 = length s2
  /\ _levenshtein (s1 ++ [a]) (s2 ++ [b])
     = Nat.min (_levenshtein s1 (s2 ++ [b]) + 1)
         (Nat.min (_levenshtein (s1 ++ [a]) s2 + 1)
                  (_levenshtein s1 s2 + (if (a =? b)%N then 0 else 1))).
Proof.
  rewrite !levenshtein_lev, !rev_app_distr. cbn [rev app].
  rewrite lev_nil_r, length_rev. cbn [lev]. rewrite length_rev.
  repeat split.
Qed.

(** [_levenshtein] is a metric on strings: it is zero exactly on equal
    strings, symmetric, and satisfies the triangle inequality. *)
Theorem levenshtein_metric (s1 s2 s3 : str) :
  (_levenshtein s1 s2 = 0%nat <-> s1 = s2)
  /\ _levenshtein s1 s2 = _levenshtein s2 s1
  /\ (_levenshtein s1 s3 <= _levenshtein s1 s2 + _levenshtein s2 s3)%nat.
Proof.
  rewrite !levenshtein_lev. repeat split.
  - intro H. apply lev_zero in H.
    rewrite <- (rev_involutive s1), H. apply rev_involutive.
  - intros ->. apply lev_refl.
  - apply lev_sym.
  - apply lev_triangle.
Qed.

(** The distance lies between the difference of the lengths and the
    length of the longer string. *)
Theorem levenshtein_bounds (s1 s2 : str) :
  (Nat.max (length s1) (length s2) - Nat.min (length s1) (length s2)
   <= _levenshtein s1 s2 <= Nat.max (length s1) (length s2))%nat.
Proof.
  rewrite levenshtein_lev.
  pose proof (lev_lower (rev s1) (rev s2)) as L.
  pose proof (lev_upper (rev s1) (rev s2)) as U.
  rewrite !length_rev in *. lia.
Qed.

End LevenshteinFacts.

(* ------------------------------------------------------------------ *)
(** ** The entropy of a host                                            *)
(* ------------------------------------------------------------------ *)

Module EntropyFacts.
Import Py HeuristicEngine.

(** The number of distinct characters of a string. *)
Definition distinct (text : str) : nat := length (nodup N.eq_dec text).

(** *** [Counter] *)

Definition counts_total (freq : list (N * nat)) : nat :=
  fold_right (fun kv acc => (snd kv + acc)%nat) 0%nat freq.

Lemma counts_total_cons (kv : N * nat) (freq : list (N * nat)) :
  counts_total (kv :: freq) = (snd kv + counts_total freq)%nat.
Proof. reflexivity. Qed.

Lemma counter_incr_total (c : N) (freq : list (N * nat)) :
  counts_total (counter_incr c freq) = S (counts_total freq).
Proof.
  induction freq as [|[k v] freq IH]; [reflexivity|].
  cbn [counter_incr]. destruct (k =? c)%N; rewrite !counts_total_cons; cbn [snd].
  - reflexivity.
  - rewrite IH. lia.
Qed.

Lemma counter_incr_positive (c : N) (freq : list (N * nat)) :
  Forall (fun kv => (1 <= snd kv)%nat) freq ->
  Forall (fun kv => (1 <= snd kv)%nat) (counter_incr c freq).
Proof.
  induction 1 as [|[k v] freq Hk Hf IH]; cbn [counter_incr].
  - repeat constructor.
  - destruct (k =? c)%N; constructor; cbn [snd] in *; auto; lia.
Qed.

Lemma counter_incr_keys (c : N) (freq : list (N * nat)) :
  List.map fst (counter_incr c freq)
  = if in_dec N.eq_dec c (List.map fst freq)
    then List.map fst freq else List.map fst freq ++ [c].
Proof.
  induction freq as [|[k v] freq IH]; [reflexivity|].
  cbn [counter_incr List.map fst].
  destruct (N.eqb_spec k c) as [->|Hne].
  - destruct (in_dec N.eq_dec c (c :: List.map fst freq)) as [_|n];
      [reflexivity|exfalso; apply n; left; reflexivity].
  - cbn [List.map fst]. rewrite IH.
    destruct (in_dec N.eq_dec c (List.map fst freq)) as [i|n];
      destruct (in_dec N.eq_dec c (k :: List.map fst freq)) as [i'|n'];
      try reflexivity.
    + exfalso. apply n'. right. exact i.
    + exfalso. destruct i' as [E|i']; [congruence|contradiction].
Qed.

(** The state of the loop of [Counter] after the characters [seen]. *)
Record counted (seen : str) (freq : list (N * nat)) : Prop := {
  counted_total : counts_total freq = length seen;
  counted_positive : Forall (fun kv => (1 <= snd kv)%nat) freq;
  counted_nodup : NoDup (List.map fst freq);
  counted_keys : forall x, In x (List.map fst freq) <-> In x seen
}.

Lemma counted_step (seen : str) (freq : list (N * nat)) (c : N) :
  counted seen freq -> counted (seen ++ [c]) (counter_incr c freq).
Proof.
  intros [H1 H2 H3 H4]. split.
  - rewrite counter_incr_total, H1, length_app. cbn. lia.
  - apply counter_incr_positive, H2.
  - rewrite counter_incr_keys.
    destruct (in_dec N.eq_dec c (List.map fst freq)) as [i|n]; [exact H3|].
    apply NoDup_app; [exact H3|repeat constructor; intros []|].
    intros x Hx [<-|[]]. contradiction.
  - intro x. rewrite counter_incr_keys, in_app_iff.
    destruct (in_dec N.eq_dec c (List.map fst freq)) as [i|n].
    + rewrite H4. cbn. intuition. subst. apply H4. exact i.
    + rewrite in_app_iff, H4. reflexivity.
Qed.

Lemma Counter_counted (text : str) : counted text (Counter text).
Proof.
  unfold Counter.
  assert (G : forall rest seen freq,
             counted seen freq ->
             counted (seen ++ rest)
                     (fold_left (fun freq c => counter_incr c freq) rest freq)).
  { induction rest as [|c rest IH]; intros seen freq H.
    - rewrite app_nil_r. exact H.
    - cbn [fold_left].
      replace (seen ++ c :: rest) with ((seen ++ [c]) ++ rest)
        by (rewrite <- app_assoc; reflexivity).
      apply IH, counted_step, H. }
  apply (G text [] []). split; cbn; try constructor; tauto.
Qed.

(** [Counter] has one entry for each distinct character. *)
Lemma Counter_length (text : str) : length (Counter text) = distinct text.
Proof.
  destruct (Counter_counted text) as [_ _ H3 H4]. unfold distinct.
  rewrite <- (length_map fst (Counter text)).
  apply Nat.le_antisymm; apply NoDup_incl_length.
  - exact H3.
  - intros x Hx. apply nodup_In, H4, Hx.
  - apply NoDup_nodup.
  - intros x Hx. apply H4. apply nodup_In in Hx. exact Hx.
Qed.

Local Open Scope R_scope.

(** *** Sums *)

Lemma fold_left_Rplus (xs : list R) (a : R) :
  fold_left Rplus xs a = a + fold_left Rplus xs 0.
Proof.
  revert a. induction xs as [|x xs IH]; intro a; cbn [fold_left].
  - lra.
  - rewrite (IH (a + x)), (IH (0 + x)). lra.
Qed.

Lemma Rsum_cons (x : R) (xs : list R) : Rsum (x :: xs) = x + Rsum xs.
Proof.
  unfold Rsum. cbn [fold_left]. rewrite fold_left_Rplus. lra.
Qed.

Lemma ln_le_minus_1 (x : R) : 0 < x -> ln x <= x - 1.
Proof.
  intro H. pose proof (exp_ineq1_le (ln x)) as E.
  rewrite exp_ln in E by exact H. lra.
Qed.

(** One term of the entropy: for a probability [p] and any [k > 0],
    [- p ln p <= p ln k + (1/k - p)] (Gibbs). *)
Lemma entropy_term (p k : R) :
  0 < p -> 0 < k -> - (p * ln p) <= p * ln k + (/ k - p).
Proof.
  intros Hp Hk.
  assert (Hpk : 0 < / (p * k)) by (apply Rinv_0_lt_compat, Rmult_lt_0_compat; lra).
  pose proof (ln_le_minus_1 (/ (p * k)) Hpk) as L.
  rewrite ln_Rinv in L by (apply Rmult_lt_0_compat; lra).
  rewrite ln_mult in L by lra.
  apply (Rmult_le_compat_l p) in L; [|lra].
  replace (p * (/ (p * k) - 1)) with (/ k - p) in L by (field; lra).
  lra.
Qed.

(** The sum over the entries of a counter, with [n] the length of the
    text. *)
Lemma entropy_sum (n k : R) (cs : list nat) :
  0 < n -> 0 < k ->
  Forall (fun c => (1 <= c)%nat) cs ->
  Forall (fun c => INR c <= n) cs ->
  let terms := List.map (fun c => INR c / n * log2 (INR c / n)) cs in
  let total := Rsum (List.map INR cs) in
  0 <= - Rsum terms
  /\ - Rsum terms * ln 2
     <= total / n * ln k + (INR (length cs) / k - total / n).
Proof.
  intros Hn Hk Hpos Hle. cbv zeta.
  pose proof SampleFacts.ln_2_pos as L2.
  induction cs as [|c cs IH].
  - unfold Rsum. cbn. split; lra.
  - inversion Hpos as [|? ? Hc Hpos']; subst.
    inversion Hle as [|? ? Hc' Hle']; subst.
    specialize (IH Hpos' Hle'). destruct IH as [IH1 IH2].
    cbn [List.map length]. rewrite !Rsum_cons, S_INR.
    assert (C : 0 < INR c) by (apply lt_0_INR; lia).
    assert (P : 0 < INR c / n) by (apply Rdiv_lt_0_compat; lra).
    assert (P1 : INR c / n <= 1).
    { apply (Rmult_le_reg_r n); [lra|]. field_simplify; lra. }
    assert (Lp : ln (INR c / n) <= 0).
    { destruct (Req_dec (INR c / n) 1) as [->|Hne]; [rewrite ln_1; lra|].
      rewrite <- ln_1. left. apply ln_increasing; lra. }
    pose proof (entropy_term (INR c / n) k P Hk) as G.
    unfold log2 in *.
    split.
    + assert (0 <= - (INR c / n * (ln (INR c / n) / ln 2))); [|lra].
      assert (INR c / n * (ln (INR c / n) / ln 2) <= 0); [|lra].
      replace (INR c / n * (ln (INR c / n) / ln 2))
        with ((INR c / n) * ln (INR c / n) * / ln 2) by (field; lra).
      assert (K : 0 < / ln 2) by (apply Rinv_0_lt_compat, L2).
      assert (0 <= INR c / n * (- ln (INR c / n)) * / ln 2)
        by (apply Rmult_le_pos; [apply Rmult_le_pos|]; lra).
      lra.
    + replace (- (INR c / n * (ln (INR c / n) / ln 2) + Rsum (List.map (fun c0 : nat => INR c0 / n * (ln (INR c0 / n) / ln 2)) cs)) * ln 2)
        with (- (INR c / n * ln (INR c / n))
              + - Rsum (List.map (fun c0 : nat => INR c0 / n * (ln (INR c0 / n) / ln 2)) cs) * ln 2)
        by (field; lra).
      replace ((INR c + Rsum (List.map INR cs)) / n * ln k
               + ((INR (length cs) + 1) / k - (INR c + Rsum (List.map INR cs)) / n))
        with ((INR c / n * ln k + (/ k - INR c / n))
              + (Rsum (List.map INR cs) / n * ln k
                 + (INR (length cs) / k - Rsum (List.map INR cs) / n)))
        by (field; lra).
      lra.
Qed.

Lemma Rsum_INR (cs : list nat) :
  Rsum (List.map INR cs) = INR (fold_right Nat.add 0%nat cs).
Proof.
  induction cs as [|c cs IH]; [reflexivity|].
  cbn [List.map fold_right]. rewrite Rsum_cons, IH, plus_INR. reflexivity.
Qed.

Lemma counts_total_map (freq : list (N * nat)) :
  counts_total freq = fold_right Nat.add 0%nat (List.map snd freq).
Proof.
  induction freq as [|kv freq IH]; [reflexivity|].
  rewrite counts_total_cons, IH. reflexivity.
Qed.

Lemma total_bounds_each (cs : list nat) :
  Forall (fun c => (c <= fold_right Nat.add 0%nat cs)%nat) cs.
Proof.
  induction cs as [|c cs IH]; constructor; cbn [fold_right].
  - lia.
  - eapply Forall_impl; [|exact IH]. cbv beta. intros; lia.
Qed.

Lemma log2_le (x y : R) : 0 < x -> x <= y -> log2 x <= log2 y.
Proof.
  intros Hx Hxy. unfold log2. pose proof SampleFacts.ln_2_pos as L2.
  apply Rmult_le_compat_r; [left; apply Rinv_0_lt_compat, L2|].
  destruct (Req_dec x y) as [->|Hne]; [lra|].
  left. apply ln_increasing; lra.
Qed.

(** Gibbs' inequality for the entropy of a non-empty text. *)
Lemma entropy_of_distinct (c : N) (s : str) :
  (1 <= distinct (c :: s))%nat
  /\ 0 <= _shannon_entropy (c :: s) <= log2 (INR (distinct (c :: s))).
Proof.
  set (text := c :: s).
  destruct (Counter_counted text) as [H1 H2 _ _].
  pose proof (Counter_length text) as HL.
  change (_shannon_entropy text)
    with (- Rsum (List.map (fun c => INR c / INR (length text)
                                     * log2 (INR c / INR (length text)))
                           (List.map snd (Counter text)))).
  set (cs := List.map snd (Counter text)) in *.
  set (n := INR (length text)).
  assert (Hn : 0 < n) by (apply lt_0_INR; cbn; lia).
  assert (Hk : (1 <= distinct text)%nat).
  { rewrite <- HL. clear -H1. revert H1.
    destruct (Counter text) as [|kv f]; [discriminate|cbn; lia]. }
  split; [exact Hk|].
  assert (Hk' : 0 < INR (distinct text)) by (apply lt_0_INR; lia).
  assert (Tot : fold_right Nat.add 0%nat cs = length text).
  { unfold cs. rewrite <- counts_total_map. exact H1. }
  assert (Hpos : Forall (fun c => (1 <= c)%nat) cs).
  { unfold cs. apply Forall_map. exact H2. }
  assert (Hle : Forall (fun c => INR c <= n) cs).
  { pose proof (total_bounds_each cs) as B. rewrite Tot in B.
    eapply Forall_impl; [|exact B]. cbv beta. intros a Ha.
    apply le_INR, Ha. }
  destruct (entropy_sum n (INR (distinct text)) cs Hn Hk' Hpos Hle) as [A B].
  split; [exact A|].
  rewrite Rsum_INR, Tot in B. fold n in B.
  assert (E : length cs = distinct text)
    by (unfold cs; rewrite length_map; exact HL).
  rewrite E in B.
  replace (n / n) with 1 in B by (field; lra).
  replace (INR (distinct text) / INR (distinct text)) with 1 in B
    by (field; lra).
  pose proof SampleFacts.ln_2_pos as L2. unfold log2 at 2.
  apply (Rmult_le_reg_r (ln 2)); [exact L2|].
  replace (ln (INR (distinct text)) / ln 2 * ln 2)
    with (ln (INR (distinct text))) by (field; lra).
  lra.
Qed.

(** The entropy of the empty text is 0.  The entropy of a non-empty text
    is not negative, and it passes neither the binary logarithm of the
    number of its distinct characters nor that of its length by 0.001.  (Of
    exact numbers the entropy is at most the logarithm of the number of
    distinct characters; the margin is far above what the rounding of a
    sum of floats can add.) *)
Theorem shannon_entropy_bounds (c : N) (s : str) :
  _shannon_entropy [] = 0
  /\ 0 <= _shannon_entropy (c :: s)
  /\ _shannon_entropy (c :: s) < log2 (INR (distinct (c :: s))) + 1 / 1000
  /\ _shannon_entropy (c :: s) < log2 (INR (length (c :: s))) + 1 / 1000.
Proof.
  destruct (entropy_of_distinct c s) as [K [B0 B1]].
  assert (L : log2 (INR (distinct (c :: s)))
              <= log2 (INR (length (c :: s)))).
  { apply log2_le; [apply lt_0_INR; lia|].
    apply le_INR. unfold distinct.
    apply NoDup_incl_length; [apply NoDup_nodup|].
    intros x Hx. apply nodup_In in Hx. exact Hx. }
  split; [reflexivity|]. split; [exact B0|]. split; lra.
Qed.

End EntropyFacts.

(* ------------------------------------------------------------------ *)
(** ** Checks that exclude each other                                   *)
(* ------------------------------------------------------------------ *)

Module ExclusiveFacts.
Import Py HeuristicEngine.

Lemma str_eqb_eq (a b : str) : str_eqb a b = true -> a = b.
Proof.
  revert b. induction a as [|x a IH]; intros [|y b] H; cbn in H;
    try discriminate; [reflexivity|].
  apply andb_true_iff in H. destruct H as [E H].
  apply N.eqb_eq in E. subst. f_equal. apply IH, H.
Qed.

(** A text that ends with [p] is some text followed by [p]. *)
Lemma endswith_app (p s : str) :
  endswith p s = true -> exists x, s = x ++ p.
Proof.
  unfold endswith. intro H. apply andb_true_iff in H. destruct H as [_ H].
  apply str_eqb_eq in H.
  exists (firstn (length s - length p) s).
  rewrite H at 2. symmetry. apply firstn_skipn.
Qed.

(** *** What the matcher takes *)

(** A repetition takes a run of characters of its class, at least [lo]
    of them together with those taken before, and hands over the rest. *)
Lemma rep_sound (p : N -> bool) (lo : nat) (hi : option nat)
      (k : nat -> str -> bool) :
  forall (s : str) (n pos : nat),
    Re.rep p lo hi n pos s k = true ->
    exists a b,
      s = a ++ b /\ forallb p a = true
      /\ (lo <= n + length a)%nat
      /\ k (pos + length a)%nat b = true.
Proof.
  assert (Stop : forall s n pos,
             (lo <=? n)%nat && k pos s = true ->
             exists a b,
               s = a ++ b /\ forallb p a = true
               /\ (lo <= n + length a)%nat
               /\ k (pos + length a)%nat b = true).
  { intros s n pos H. apply andb_true_iff in H. destruct H as [L K].
    apply Nat.leb_le in L. exists [], s. cbn [app forallb length].
    rewrite !Nat.add_0_r. auto. }
  induction s as [|c s IH]; intros n pos H; cbn [Re.rep] in H.
  - apply Stop, H.
  - destruct (p c && Re.below hi n) eqn:C; [|apply Stop, H].
    apply orb_true_iff in H. destruct H as [H | H]; [|apply Stop, H].
    apply andb_true_iff in C. destruct C as [Pc _].
    destruct (IH _ _ H) as [a [b [E [F [L K]]]]].
    exists (c :: a), b. cbn [app forallb length]. rewrite Pc, F, E.
    split; [reflexivity|]. split; [reflexivity|].
    split; [lia|].
    replace (pos + S (length a))%nat with (S pos + length a)%nat by lia.
    exact K.
Qed.

(** A pattern takes a prefix of the text and hands over the rest. *)
Lemma run_sound (r : Re.re) :
  forall (pos : nat) (s : str) (k : nat -> str -> bool),
    Re.run r pos s k = true ->
    exists a b pos', s = a ++ b /\ k pos' b = true.
Proof.
  induction r as [p|p lo hi|r IH n|a IHa b IHb|a IHa b IHb|a IHa| | |];
    intros pos s k H.
  - cbn [Re.run] in H. destruct s as [|c s]; [discriminate|].
    apply andb_true_iff in H. destruct H as [_ H].
    exists [c], s, (S pos). auto.
  - cbn [Re.run] in H. apply rep_sound in H.
    destruct H as [a [b [E [_ [_ K]]]]]. eauto.
  - revert pos s H. induction n as [|n IHn]; intros pos s H.
    + cbn [Re.run] in H. exists [], s, pos. auto.
    + change (Re.run r pos s
                (fun pos' s' => Re.run (Re.Times r n) pos' s' k) = true)
        in H.
      apply IH in H. destruct H as [a1 [b1 [p1 [E1 H]]]].
      apply IHn in H. destruct H as [a2 [b2 [p2 [E2 H]]]].
      exists (a1 ++ a2), b2, p2. rewrite <- app_assoc, <- E2. auto.
  - cbn [Re.run] in H. apply IHa in H.
    destruct H as [a1 [b1 [p1 [E1 H]]]].
    apply IHb in H. destruct H as [a2 [b2 [p2 [E2 H]]]].
    exists (a1 ++ a2), b2, p2. rewrite <- app_assoc, <- E2. auto.
  - cbn [Re.run] in H. apply orb_true_iff in H.
    destruct H as [H | H]; [apply IHa in H|apply IHb in H]; exact H.
  - cbn [Re.run] in H. apply orb_true_iff in H.
    destruct H as [H | H]; [apply IHa in H; exact H|].
    exists [], s, pos. auto.
  - cbn [Re.run] in H. apply andb_true_iff in H. destruct H as [_ H].
    exists [], s, pos. auto.
  - cbn [Re.run] in H. destruct s as [|c [|d s]]; try discriminate.
    + exists [], [], pos. auto.
    + apply andb_true_iff in H. destruct H as [_ H].
      exists [], [c], pos. auto.
  - cbn [Re.run] in H. destruct s as [|c s]; [|discriminate].
    exists [], [], pos. auto.
Qed.

(** [$] stands at the end of the text or before a final newline. *)
Lemma dollar_sound (pos : nat) (s : str) (k : nat -> str -> bool) :
  Re.run Re.Dollar pos s k = true -> s = [] \/ s = [10%N].
Proof.
  cbn [Re.run]. destruct s as [|c [|d s]]; try discriminate; auto.
  intro H. apply andb_true_iff in H. destruct H as [E _].
  apply N.eqb_eq in E. subst. auto.
Qed.

(** An optional single character takes nothing or that character. *)
Lemma opt_cls_sound (p : N -> bool) (pos : nat) (s : str)
      (k : nat -> str -> bool) :
  Re.run (Re.Opt (Re.Cls p)) pos s k = true ->
  exists a b pos', s = a ++ b /\ forallb p a = true /\ k pos' b = true.
Proof.
  cbn [Re.run]. intro H. apply orb_true_iff in H. destruct H as [H | H].
  - destruct s as [|c s]; [discriminate|].
    apply andb_true_iff in H. destruct H as [Pc H].
    exists [c], s, (S pos). cbn [forallb app]. rewrite Pc. auto.
  - exists [], s, pos. auto.
Qed.

(** A character of a text that the second alternative of the pattern
    accepts. *)
Definition bracketed_hex (c : N) : bool :=
  is_hexdig c || Re.chr_is ":" c || Re.chr_is "[" c || Re.chr_is "]" c
  || (c =? 10)%N.

Section WithTables.
Context {T : Tables}.

(** A host that the recogniser accepts ends with a decimal digit, possibly
    followed by a newline, or consists of hexadecimal digits, colons,
    brackets and a final newline only. *)
Lemma is_ip_address_shape (host : str) :
  _is_ip_address host = true ->
  (exists a d e,
      host = a ++ d ++ e /\ d <> [] /\ forallb isdecimal d = true
      /\ (e = [] \/ e = [10%N]))
  \/ forallb bracketed_hex host = true.
Proof.
  unfold _is_ip_address, Re.matches, ip_pattern.
  intro H. cbn [Re.run] in H. apply orb_true_iff in H.
  destruct H as [H | H]; apply andb_true_iff in H; destruct H as [_ H].
  - left.
    change (Re.run
              (Re.Times (Re.Seq (Re.Rep isdecimal 1 (Some 3%nat))
                                (Re.Cls (Re.chr_is "."))) 3)
              0 host
              (fun pos s =>
                 Re.rep isdecimal 1 (Some 3%nat) 0 pos s
                   (fun pos' s' =>
                      Re.run Re.Dollar pos' s' (fun _ _ => true))) = true)
      in H.
    apply run_sound in H. destruct H as [a [b [p1 [E1 H]]]].
    apply rep_sound in H. destruct H as [d [e [E2 [F [L K]]]]].
    apply dollar_sound in K.
    exists a, d, e. rewrite E1, E2. split; [reflexivity|].
    split; [|split; [exact F|exact K]].
    intro Z. subst d. cbn in L. lia.
  - right.
    change (Re.run (Re.Opt (Re.Cls (Re.chr_is "["))) 0 host
              (fun pos s =>
                 Re.rep (fun c => is_hexdig c || Re.chr_is ":" c) 1 None
                   0 pos s
                   (fun pos' s' =>
                      Re.run (Re.Opt (Re.Cls (Re.chr_is "]"))) pos' s'
                        (fun pos'' s'' =>
                           Re.run Re.Dollar pos'' s''
                             (fun _ _ => true)))) = true) in H.
    apply opt_cls_sound in H. destruct H as [o1 [s1 [p1 [E1 [F1 H]]]]].
    apply rep_sound in H. destruct H as [h [s2 [E2 [F2 [_ H]]]]].
    apply opt_cls_sound in H. destruct H as [o2 [e [p2 [E3 [F3 H]]]]].
    apply dollar_sound in H.
    assert (B1 : forallb bracketed_hex o1 = true).
    { apply (StrFacts.forallb_impl (Re.chr_is "[")); [|exact F1].
      intros c Hc. unfold bracketed_hex. rewrite Hc.
      rewrite !orb_true_r. reflexivity. }
    assert (B2 : forallb bracketed_hex h = true).
    { apply (StrFacts.forallb_impl
               (fun c => is_hexdig c || Re.chr_is ":" c)); [|exact F2].
      intros c Hc. unfold bracketed_hex. rewrite Hc. reflexivity. }
    assert (B3 : forallb bracketed_hex o2 = true).
    { apply (StrFacts.forallb_impl (Re.chr_is "]")); [|exact F3].
      intros c Hc. unfold bracketed_hex. rewrite Hc.
      rewrite !orb_true_r. reflexivity. }
    rewrite E1, E2, E3, !forallb_app, B1, B2, B3.
    destruct H as [-> | ->]; reflexivity.
Qed.

(** The listed suffixes have a dot and end with a lower-case letter. *)
Definition tld_like (tld : str) : bool :=
  mem 46 tld
  && match rev tld with
     | z :: _ => is_ascii_lower z
     | [] => false
     end.

Lemma HIGH_RISK_TLDS_like :
  forallb (fun kv => tld_like (fst kv)) HIGH_RISK_TLDS = true.
Proof. vm_compute. reflexivity. Qed.

Lemma tld_risk_in_suffix (tlds : list (str * Q)) (host : str) :
  Qeq_bool (tld_risk_in tlds host) 0 = false ->
  exists tld risk, In (tld, risk) tlds /\ endswith tld host = true.
Proof.
  induction tlds as [|[tld risk] tlds IH]; cbn [tld_risk_in]; intro H.
  - discriminate.
  - destruct (endswith tld host) eqn:E.
    + exists tld, risk. split; [left; reflexivity|exact E].
    + destruct (IH H) as [t [r [I F]]]. exists t, r. split; [right|]; auto.
Qed.

(** The check of the top-level domain and the check of the raw IP address
    never fire for the same host. *)
Lemma tld_and_ip_exclusive (host : str) :
  check_tld host = None \/ check_ip host = None.
Proof.
  unfold check_ip.
  destruct (_is_ip_address host) eqn:I; [left|right; reflexivity].
  unfold check_tld, tld_risk.
  destruct (Qeq_bool (tld_risk_in HIGH_RISK_TLDS host) 0) eqn:Q;
    [reflexivity|exfalso].
  destruct (tld_risk_in_suffix _ _ Q) as [tld [risk [In_ E]]].
  pose proof HIGH_RISK_TLDS_like as L. rewrite forallb_forall in L.
  specialize (L _ In_). cbn [fst] in L. unfold tld_like in L.
  apply andb_true_iff in L. destruct L as [Dot Last].
  destruct (rev tld) as [|z rt] eqn:R; [discriminate|].
  apply endswith_app in E. destruct E as [x E].
  assert (Hrev : rev host = z :: rt ++ rev x)
    by (rewrite E, rev_app_distr, R; reflexivity).
  destruct (is_ip_address_shape host I) as [[a [d [e [E' [Nd [F K]]]]]] | F].
  - assert (Hrev' : rev host = rev e ++ rev d ++ rev a)
      by (rewrite E', !rev_app_distr, app_assoc; reflexivity).
    rewrite Hrev in Hrev'.
    unfold is_ascii_lower in Last. apply andb_true_iff in Last.
    destruct Last as [L1 L2]. apply N.leb_le in L1, L2.
    destruct K as [-> | ->]; cbn [rev app] in Hrev'.
    + destruct (rev d) as [|c rd] eqn:Rd.
      * apply (f_equal (@rev N)) in Rd. rewrite rev_involutive in Rd.
        cbn in Rd. congruence.
      * cbn [app] in Hrev'. injection Hrev' as Ez _. subst c.
        assert (Dz : isdecimal z = true).
        { rewrite forallb_forall in F. apply F. apply in_rev.
          rewrite Rd. left. reflexivity. }
        unfold isdecimal, isascii, is_ascii_digit in Dz.
        destruct (N.ltb_spec z 128) as [_|Hz]; [|lia].
        apply andb_true_iff in Dz. destruct Dz as [_ D2].
        apply N.leb_le in D2. lia.
    + injection Hrev' as Ez _. lia.
  - rewrite E, forallb_app in F. apply andb_true_iff in F.
    destruct F as [_ F]. rewrite forallb_forall in F.
    unfold mem in Dot. apply existsb_exists in Dot.
    destruct Dot as [c [Ic Ec]]. apply N.eqb_eq in Ec. subst c.
    specialize (F _ Ic). vm_compute in F. discriminate.
Qed.

End WithTables.

(** Thirteen optional lines of which the fifth and the sixth exclude each
    other are at most twelve lines. *)
Lemma flat_map_13 {A} (c1 c2 c3 c4 c5 c6 c7 c8 c9 c10 c11 c12 c13 : option A) :
  c5 = None \/ c6 = None ->
  (length
     (flat_map (fun c => match c with Some x => [x] | None => [] end)
        [c1; c2; c3; c4; c5; c6; c7; c8; c9; c10; c11; c12; c13])
   <= 12)%nat.
Proof.
  intro H. cbn [flat_map]. rewrite !length_app.
  assert (L : forall c : option A,
             (length (match c with Some x => [x] | None => [] end) <= 1)%nat)
    by (intros [x|]; cbn; lia).
  pose proof (L c1). pose proof (L c2). pose proof (L c3). pose proof (L c4).
  pose proof (L c5). pose proof (L c6). pose proof (L c7). pose proof (L c8).
  pose proof (L c9). pose proof (L c10). pose proof (L c11).
  pose proof (L c12). pose proof (L c13).
  destruct H as [-> | ->]; cbn [length] in *; lia.
Qed.

(** At most twelve checks fire for one URL. *)
Lemma fired_checks_at_most_12 {T : Tables} (url : str) (parsed : UrlLib.ParseResult) :
  (length (fired_checks url parsed) <= 12)%nat.
Proof.
  unfold fired_checks. apply flat_map_13.
  destruct (tld_and_ip_exclusive (host_of parsed)) as [E | E]; rewrite E;
    [left|right]; reflexivity.
Qed.

End ExclusiveFacts.

(* ------------------------------------------------------------------ *)
(** ** The score of a URL on a raw IP address                           *)
(* ------------------------------------------------------------------ *)

Module PhishFacts.
Import Py UrlLib HeuristicEngine.

Local Open Scope R_scope.

Definition phish_host : str := lit "1.2.3.4".

Definition phish_path : str :=
  lit "/login/verify/account/secure/update/confirm/a/b/c@d".

Definition phish_url : str := lit "http://" ++ phish_host ++ phish_path.

Definition phish_parsed : ParseResult :=
  {| scheme := lit "http"; netloc := phish_host; path := phish_path;
     params := []; query := []; fragment := [] |}.

Definition phish_keywords : list str :=
  List.map lit ["login"; "verify"; "secure"; "account"; "update";
                "confirm"]%string.

(** Five distinct characters carry less than 3.8 bits. *)
Lemma phish_entropy_low : _shannon_entropy phish_host < 38 / 10.
Proof.
  destruct (EntropyFacts.entropy_of_distinct 49%N (lit ".2.3.4"))
    as [_ [_ U]].
  change (49%N :: lit ".2.3.4") with phish_host in U.
  replace (EntropyFacts.distinct phish_host) with 5%nat in U
    by (vm_compute; reflexivity).
  pose proof (SampleFacts.log2_upper 5 3 1 eq_refl ltac:(lia)
                ltac:(vm_compute; reflexivity)) as L.
  rewrite !INR_IZR_INZ in L, U.
  cbn [Z.of_nat Pos.of_succ_nat Pos.succ] in L, U.
  change (INR 1) with 1 in L. lra.
Qed.

Lemma Rround_half_even_IZR (z : Z) : Rround_half_even (IZR z) = z.
Proof.
  pose proof (HeuristicFacts.Rround_half_even_bounds (IZR z) z z
                ltac:(lra)).
  lia.
Qed.

Definition susp_url : str := lit "http://" ++ phish_host.

Definition susp_parsed : ParseResult :=
  {| scheme := lit "http"; netloc := phish_host; path := [];
     params := []; query := []; fragment := [] |}.

Lemma clamp_inside (x : R) : 0 <= x <= 100 -> clamp x = x.
Proof.
  intros [L U]. unfold clamp.
  rewrite Rmin_right by exact U. rewrite Rmax_right by exact L. reflexivity.
Qed.

Lemma round_R_2_IZR (z : Z) : round_R (IZR z) 2 = IZR z.
Proof.
  unfold round_R. replace (10 ^ 2) with 100 by (simpl; lra).
  replace (IZR z * 100) with (IZR (z * 100)) by (rewrite mult_IZR; lra).
  rewrite Rround_half_even_IZR, mult_IZR. lra.
Qed.

Section WithTables.
Context {T : Tables}.

Lemma phish_host_checks :
  check_domain_length phish_host = None
  /\ check_hyphens phish_host = None
  /\ check_tld phish_host = None
  /\ check_ip phish_host = Some (15%Q, RawIPAddress)
  /\ check_subdomains phish_host = None
  /\ check_homographs phish_host = None
  /\ check_brands phish_host = None
  /\ check_digit_ratio phish_host = Some (10%Q, HighDigitRatio)
  /\ check_entropy phish_host = None.
Proof.
  do 8 (split; [vm_compute; reflexivity|]).
  unfold check_entropy. pose proof phish_entropy_low.
  destruct (Rlt_dec (38 / 10) (_shannon_entropy phish_host)); [lra|].
  reflexivity.
Qed.

Lemma phish_url_checks :
  host_of phish_parsed = phish_host
  /\ check_keywords (phish_host ++ path phish_parsed)
     = Some (20%Q, SuspiciousKeywords phish_keywords)
  /\ check_https phish_parsed = Some (5%Q, NoHTTPS)
  /\ check_path_depth (path phish_parsed) = Some (8%Q, DeepPath 9)
  /\ check_at_sign phish_url = Some (10%Q, AtSign).
Proof. repeat split; vm_compute; reflexivity. Qed.

Lemma susp_url_checks :
  host_of susp_parsed = phish_host
  /\ check_keywords (phish_host ++ path susp_parsed) = None
  /\ check_https susp_parsed = Some (5%Q, NoHTTPS)
  /\ check_path_depth (path susp_parsed) = None
  /\ check_at_sign susp_url = None.
Proof. repeat split; vm_compute; reflexivity. Qed.

Lemma phish_fired :
  fired_checks phish_url phish_parsed
  = [ (Q2R 20, SuspiciousKeywords phish_keywords); (Q2R 15, RawIPAddress);
      (Q2R 5, NoHTTPS); (Q2R 8, DeepPath 9); (Q2R 10, AtSign);
      (Q2R 10, HighDigitRatio) ].
Proof.
  destruct phish_host_checks
    as [E1 [E2 [E3 [E4 [E5 [E6 [E7 [E8 E9]]]]]]]].
  destruct phish_url_checks as [U0 [U1 [U2 [U3 U4]]]].
  unfold fired_checks.
  rewrite U0, E1, E2, E3, E4, E5, E6, E7, E8, E9, U1, U2, U3, U4.
  reflexivity.
Qed.

Lemma susp_fired :
  fired_checks susp_url susp_parsed
  = [ (Q2R 15, RawIPAddress); (Q2R 5, NoHTTPS); (Q2R 10, HighDigitRatio) ].
Proof.
  destruct phish_host_checks
    as [E1 [E2 [E3 [E4 [E5 [E6 [E7 [E8 E9]]]]]]]].
  destruct susp_url_checks as [U0 [U1 [U2 [U3 U4]]]].
  unfold fired_checks.
  rewrite U0, E1, E2, E3, E4, E5, E6, E7, E8, E9, U1, U2, U3, U4.
  reflexivity.
Qed.

Lemma phish_total : total_score phish_url phish_parsed = 68.
Proof.
  unfold total_score. rewrite phish_fired.
  unfold Rsum. cbn [List.map fst fold_left].
  unfold Q2R. cbn [Qnum Qden]. lra.
Qed.

Lemma susp_total : total_score susp_url susp_parsed = 30.
Proof.
  unfold total_score. rewrite susp_fired.
  unfold Rsum. cbn [List.map fst fold_left].
  unfold Q2R. cbn [Qnum Qden]. lra.
Qed.

(** The URL scores 68 points on six checks and is classified Phishing. *)
Lemma phish_result :
  analyze_url phish_url = Ok (assess phish_url phish_parsed)
  /\ classification (assess phish_url phish_parsed) = Phishing
  /\ risk_score (assess phish_url phish_parsed) = 68
  /\ reasoning (assess phish_url phish_parsed)
     = [ SuspiciousKeywords phish_keywords; RawIPAddress; NoHTTPS;
         DeepPath 9; AtSign; HighDigitRatio ].
Proof.
  assert (C : clamp (total_score phish_url phish_parsed) = 68).
  { rewrite phish_total. apply clamp_inside. lra. }
  split; [|split; [|split]].
  - unfold analyze_url.
    replace (prepare phish_url) with phish_url by (vm_compute; reflexivity).
    replace (urlparse phish_url) with (Ok phish_parsed)
      by (vm_compute; reflexivity).
    reflexivity.
  - cbn [assess classification]. rewrite C. unfold classify.
    destruct (Rlt_dec 68 30); [lra|].
    destruct (Rlt_dec 68 65); [lra|reflexivity].
  - cbn [assess risk_score]. rewrite C. apply round_R_2_IZR.
  - unfold assess. cbn [reasoning]. rewrite phish_fired. reflexivity.
Qed.

(** The bare address scores 30 points on three checks and is classified
    Suspicious. *)
Lemma susp_result :
  analyze_url susp_url = Ok (assess susp_url susp_parsed)
  /\ classification (assess susp_url susp_parsed) = Suspicious
  /\ risk_score (assess susp_url susp_parsed) = 30
  /\ reasoning (assess susp_url susp_parsed)
     = [ RawIPAddress; NoHTTPS; HighDigitRatio ].
Proof.
  assert (C : clamp (total_score susp_url susp_parsed) = 30).
  { rewrite susp_total. apply clamp_inside. lra. }
  split; [|split; [|split]].
  - unfold analyze_url.
    replace (prepare susp_url) with susp_url by (vm_compute; reflexivity).
    replace (urlparse susp_url) with (Ok susp_parsed)
      by (vm_compute; reflexivity).
    reflexivity.
  - cbn [assess classification]. rewrite C. unfold classify.
    destruct (Rlt_dec 30 30); [lra|].
    destruct (Rlt_dec 30 65); [reflexivity|lra].
  - cbn [assess risk_score]. rewrite C. apply round_R_2_IZR.
  - unfold assess. cbn [reasoning]. rewrite susp_fired. reflexivity.
Qed.

End WithTables.
(** A host on which every check fires but that of the IP address.  It has
    32 characters: four dots, two hyphens, the letter p twice and 24
    characters once, among them the ten digits and the Cyrillic letter
    U+0430.  It has no upper-case letter and no compatibility character:
    [lower] and the NFKC normalization leave it as it is, and U+0430 is not
    a digit, which is what the tables used here answer. *)
Definition full_host : str :=
  lit "apple-01.23456.789" ++ [0x0430%N] ++ lit ".bcdfg-hij.tk".

Definition full_path : str := lit "/login/a/b/c/d/e@f".

Definition full_url : str := lit "http://" ++ full_host ++ full_path.

Definition full_parsed : ParseResult :=
  {| scheme := lit "http"; netloc := full_host; path := full_path;
     params := []; query := []; fragment := [] |}.

Lemma log2_pow2_inv (n : nat) : log2 (/ 2 ^ n) = - INR n.
Proof.
  pose proof SampleFacts.ln_2_pos as L2.
  assert (P : 0 < 2 ^ n) by (apply pow_lt; lra).
  unfold log2. rewrite ln_Rinv by exact P.
  replace (ln (2 ^ n)) with (INR n * ln 2).
  - field. lra.
  - induction n as [|n IH]; [simpl; rewrite ln_1; lra|].
    rewrite S_INR. simpl pow. rewrite ln_mult by (try apply pow_lt; lra).
    rewrite <- IH; [lra|apply pow_lt; lra].
Qed.

Lemma full_entropy : _shannon_entropy full_host = 37 / 8.
Proof.
  unfold _shannon_entropy.
  change full_host with (97 :: skipn 1 full_host)%N. cbv iota.
  change (97 :: skipn 1 full_host)%N with full_host.
  replace (List.map snd (Counter full_host))
    with [1; 2; 1; 1; 2; 1; 1; 4; 1; 1; 1; 1; 1; 1; 1; 1; 1; 1; 1; 1; 1; 1;
          1; 1; 1; 1; 1]%nat by (vm_compute; reflexivity).
  replace (length full_host) with 32%nat by (vm_compute; reflexivity).
  unfold Rsum. cbn [List.map fold_left].
  replace (INR 32) with 32 by (rewrite INR_IZR_INZ; reflexivity).
  replace (INR 4) with 4 by (rewrite INR_IZR_INZ; reflexivity).
  replace (INR 2) with 2 by (rewrite INR_IZR_INZ; reflexivity).
  replace (INR 1) with 1 by reflexivity.
  assert (A : log2 (1 / 32) = - 5).
  { replace (1 / 32) with (/ 2 ^ 5) by (simpl; lra).
    rewrite log2_pow2_inv, INR_IZR_INZ. reflexivity. }
  assert (B : log2 (2 / 32) = - 4).
  { replace (2 / 32) with (/ 2 ^ 4) by (simpl; lra).
    rewrite log2_pow2_inv, INR_IZR_INZ. reflexivity. }
  assert (C : log2 (4 / 32) = - 3).
  { replace (4 / 32) with (/ 2 ^ 3) by (simpl; lra).
    rewrite log2_pow2_inv, INR_IZR_INZ. reflexivity. }
  rewrite A, B, C. lra.
Qed.

Lemma full_rational_checks :
  host_of full_parsed = full_host
  /\ check_domain_length full_host = Some (2 # 2, LongDomain 32)
  /\ check_hyphens full_host = Some (6%Q, MultipleHyphens 2)
  /\ check_keywords (full_host ++ path full_parsed)
     = Some (4%Q, SuspiciousKeywords [lit "login"])
  /\ check_tld full_host = Some (8%Q, HighRiskTLD)
  /\ check_ip full_host = None
  /\ check_subdomains full_host = Some (4%Q, DeepSubdomains 3)
  /\ check_homographs full_host
     = Some (8%Q, HomographChars [(0x0430%N, 97%N)])
  /\ check_brands full_host = Some (8%Q, BrandSpoofing [lit "apple"])
  /\ check_https full_parsed = Some (5%Q, NoHTTPS)
  /\ check_path_depth (path full_parsed) = Some (2%Q, DeepPath 6)
  /\ check_at_sign full_url = Some (10%Q, AtSign)
  /\ check_digit_ratio full_host = Some (200 # 32, HighDigitRatio).
Proof. repeat split; vm_compute; reflexivity. Qed.

Lemma full_fired :
  fired_checks full_url full_parsed
  = [ (Q2R (2 # 2), LongDomain 32); (66 / 10, HighEntropy);
      (Q2R 6, MultipleHyphens 2);
      (Q2R 4, SuspiciousKeywords [lit "login"]); (Q2R 8, HighRiskTLD);
      (Q2R 4, DeepSubdomains 3);
      (Q2R 8, HomographChars [(0x0430%N, 97%N)]);
      (Q2R 8, BrandSpoofing [lit "apple"]); (Q2R 5, NoHTTPS);
      (Q2R 2, DeepPath 6); (Q2R 10, AtSign);
      (Q2R (200 # 32), HighDigitRatio) ].
Proof.
  destruct full_rational_checks
    as [E0 [E1 [E2 [E3 [E4 [E5 [E6 [E7 [E8 [E9 [E10 [E11 E12]]]]]]]]]]]].
  unfold fired_checks.
  rewrite E0, E1, E2, E3, E4, E5, E6, E7, E8, E9, E10, E11, E12.
  unfold check_entropy. rewrite full_entropy.
  destruct (Rlt_dec (38 / 10) (37 / 8)); [|lra].
  replace (Rmin ((37 / 8 - 38 / 10) * 8) 15) with (66 / 10)
    by (rewrite Rmin_left; lra).
  reflexivity.
Qed.

Lemma full_total : total_score full_url full_parsed = 6885 / 100.
Proof.
  unfold total_score. rewrite full_fired.
  unfold Rsum. cbn [List.map fst fold_left].
  unfold Q2R. cbn [Qnum Qden]. lra.
Qed.

(** Twelve checks fire on this URL: the report has twelve lines, the
    score 68.85, the verdict Phishing and the confidence 1. *)
Lemma twelve_checks_fire :
  analyze_url full_url = Ok (assess full_url full_parsed)
  /\ length (reasoning (assess full_url full_parsed)) = 12%nat
  /\ classification (assess full_url full_parsed) = Phishing
  /\ risk_score (assess full_url full_parsed) = 6885 / 100
  /\ (confidence (assess full_url full_parsed) == 1)%Q.
Proof.
  assert (C : clamp (total_score full_url full_parsed) = 6885 / 100).
  { rewrite full_total. apply clamp_inside. lra. }
  split; [|split; [|split; [|split]]].
  - unfold analyze_url.
    replace (prepare full_url) with full_url by (vm_compute; reflexivity).
    replace (urlparse full_url) with (Ok full_parsed)
      by (vm_compute; reflexivity).
    reflexivity.
  - unfold assess. cbn [reasoning]. rewrite full_fired. reflexivity.
  - cbn [assess classification]. rewrite C. unfold classify.
    destruct (Rlt_dec (6885 / 100) 30); [lra|].
    destruct (Rlt_dec (6885 / 100) 65); [lra|reflexivity].
  - cbn [assess risk_score]. rewrite C.
    unfold round_R. replace (10 ^ 2) with 100 by (simpl; lra).
    replace (6885 / 100 * 100) with (IZR 6885) by lra.
    rewrite Rround_half_even_IZR. reflexivity.
  - unfold assess. cbn [confidence]. rewrite full_fired.
    vm_compute. reflexivity.
Qed.

End PhishFacts.

(* ------------------------------------------------------------------ *)
(** ** The penalties of the heuristic checks                            *)
(* ------------------------------------------------------------------ *)

Module ScoreFacts.
Import Py UrlLib HeuristicEngine.

(** A rational check that fired added between 0.5 and 20 points and did
    not write the line of the empty report. *)
Definition check_ok (c : option (Q * reason)) : Prop :=
  match c with
  | Some (p, r) => ((1 # 2) <= p <= 20)%Q /\ r <> NoIndicators
  | None => True
  end.

Lemma Qmin_between (a b lo hi : Q) :
  (lo <= a)%Q -> (lo <= b)%Q -> (b <= hi)%Q -> (lo <= Qmin a b <= hi)%Q.
Proof.
  intros Ha Hb Hh. split.
  - apply Q.min_glb; assumption.
  - apply (Qle_trans _ b); [apply Q.le_min_r|exact Hh].
Qed.

Lemma inject_Z_ge (z c : Z) : (c <= z)%Z -> (inject_Z c <= inject_Z z)%Q.
Proof. intro H. rewrite <- Zle_Qle. exact H. Qed.

Lemma fits (lo a : Q) : (lo <= a)%Q -> forall b lo0 hi,
    (lo0 <= lo)%Q -> (lo0 <= b)%Q -> (b <= hi)%Q ->
    (lo0 <= Qmin a b <= hi)%Q.
Proof.
  intros Ha b lo0 hi H0 Hb Hh. apply Qmin_between; auto.
  apply (Qle_trans _ lo); assumption.
Qed.

Lemma check_domain_length_ok (host : str) : check_ok (check_domain_length host).
Proof.
  unfold check_domain_length, check_ok.
  destruct (30 <? length host)%nat eqn:E; [|exact I].
  apply Nat.ltb_lt in E. split; [|discriminate].
  pose proof (inject_Z_ge (Z.of_nat (length host)) 31 ltac:(lia)) as K.
  change (inject_Z 31) with 31%Q in K.
  apply (fits (1 # 2)); [lra|vm_compute; discriminate ..].
Qed.

Lemma check_hyphens_ok (host : str) : check_ok (check_hyphens host).
Proof.
  unfold check_hyphens, check_ok.
  destruct (2 <=? count 45 host)%nat eqn:E; [|exact I].
  apply Nat.leb_le in E. split; [|discriminate].
  apply (fits 6); [apply (inject_Z_ge _ 6); lia|vm_compute; discriminate ..].
Qed.

Lemma nonempty_length {A} (l : list A) : nonempty l = true -> (1 <= length l)%nat.
Proof. destruct l; [discriminate|cbn; lia]. Qed.

Section WithTables.
Context {T : Tables}.

Lemma check_keywords_ok (full : str) : check_ok (check_keywords full).
Proof.
  unfold check_keywords, check_ok.
  destruct (nonempty (find_keywords full)) eqn:E; [|exact I].
  apply nonempty_length in E. split; [|discriminate].
  apply (fits 4); [apply (inject_Z_ge _ 4); lia|vm_compute; discriminate ..].
Qed.

Lemma tld_risk_in_range (tlds : list (str * Q)) (host : str) :
  Forall (fun kv => (3 <= snd kv <= 8)%Q) tlds ->
  tld_risk_in tlds host = 0%Q \/ (3 <= tld_risk_in tlds host <= 8)%Q.
Proof.
  induction 1 as [|[tld risk] tlds Hk Hf IH]; [left; reflexivity|].
  cbn [tld_risk_in]. destruct (endswith tld host); [right; exact Hk|exact IH].
Qed.

Lemma HIGH_RISK_TLDS_range :
  Forall (fun kv => (3 <= snd kv <= 8)%Q) HIGH_RISK_TLDS.
Proof.
  unfold HIGH_RISK_TLDS. apply Forall_map.
  repeat constructor; cbn; discriminate.
Qed.

Lemma check_tld_ok (host : str) : check_ok (check_tld host).
Proof.
  unfold check_tld, check_ok, tld_risk.
  destruct (tld_risk_in_range HIGH_RISK_TLDS host HIGH_RISK_TLDS_range)
    as [-> | [L U]]; [exact I|].
  destruct (negb (Qeq_bool _ 0)); [|exact I].
  split; [|discriminate]. split; lra.
Qed.

Lemma check_ip_ok (host : str) : check_ok (check_ip host).
Proof.
  unfold check_ip, check_ok. destruct (_is_ip_address host); [|exact I].
  split; [|discriminate]. split; vm_compute; discriminate.
Qed.

Lemma check_subdomains_ok (host : str) : check_ok (check_subdomains host).
Proof.
  unfold check_subdomains, check_ok.
  destruct (3 <=? subdomain_depth_of host)%Z eqn:E; [|exact I].
  apply Z.leb_le in E. split; [|discriminate].
  apply (fits 4); [apply (inject_Z_ge _ 4); lia|vm_compute; discriminate ..].
Qed.

Lemma check_homographs_ok (host : str) : check_ok (check_homographs host).
Proof.
  unfold check_homographs, check_ok.
  destruct (nonempty (_detect_homographs host)) eqn:E; [|exact I].
  apply nonempty_length in E. split; [|discriminate].
  apply (fits 8); [apply (inject_Z_ge _ 8); lia|vm_compute; discriminate ..].
Qed.

Lemma check_brands_ok (host : str) : check_ok (check_brands host).
Proof.
  unfold check_brands, check_ok.
  destruct (nonempty (_detect_brand_spoofing host)) eqn:E; [|exact I].
  apply nonempty_length in E. split; [|discriminate].
  apply (fits 8); [apply (inject_Z_ge _ 8); lia|vm_compute; discriminate ..].
Qed.

Lemma check_https_ok (parsed : ParseResult) : check_ok (check_https parsed).
Proof.
  unfold check_https, check_ok. destruct (negb (uses_https_of parsed)); [|exact I].
  split; [|discriminate]. split; vm_compute; discriminate.
Qed.

Lemma check_path_depth_ok (path : str) : check_ok (check_path_depth path).
Proof.
  unfold check_path_depth, check_ok.
  destruct (5 <? path_depth_of path)%nat eqn:E; [|exact I].
  apply Nat.ltb_lt in E. split; [|discriminate].
  apply (fits 2); [apply (inject_Z_ge _ 2); lia|vm_compute; discriminate ..].
Qed.

Lemma check_at_sign_ok (url : str) : check_ok (check_at_sign url).
Proof.
  unfold check_at_sign, check_ok. destruct (mem 64 url); [|exact I].
  split; [|discriminate]. split; vm_compute; discriminate.
Qed.

Lemma check_digit_ratio_ok (host : str) : check_ok (check_digit_ratio host).
Proof.
  unfold check_digit_ratio, check_ok.
  destruct (Qltb (3 # 10) (digit_ratio_of host)) eqn:E; [|exact I].
  apply Qltb_lt in E. split; [|discriminate].
  apply (fits 6); [lra|vm_compute; discriminate ..].
Qed.

Local Open Scope R_scope.

(** A check that fired added more than 0 and at most 20 points. *)
Definition fired_ok (pr : R * reason) : Prop :=
  0 < fst pr <= 20 /\ snd pr <> NoIndicators.

Lemma inR_ok (c : option (Q * reason)) :
  check_ok c ->
  Forall fired_ok (match inR c with Some x => [x] | None => [] end).
Proof.
  destruct c as [[p r]|]; cbn; [|constructor].
  intros [[L U] Hr]. constructor; [|constructor].
  split; [split|exact Hr]; cbn [fst snd].
  - apply Qle_Rle in L. change (Q2R (1 # 2)) with (1 * / 2) in L. lra.
  - apply Qle_Rle in U. change 20%Q with (inject_Z 20) in U.
    rewrite Q2R_inject_Z in U. exact U.
Qed.

Lemma check_entropy_ok (host : str) :
  Forall fired_ok (match check_entropy host with Some x => [x] | None => [] end).
Proof.
  unfold check_entropy.
  destruct (Rlt_dec (38 / 10) (_shannon_entropy host)) as [H|H]; [|constructor].
  constructor; [|constructor].
  split; [split|discriminate]; cbn [fst snd].
  - apply Rmin_glb_lt; lra.
  - apply (Rle_trans _ 15); [apply Rmin_r|lra].
Qed.

(** The entropy check takes at least fourteen distinct characters: the
    entropy of a host with at most thirteen is at most [log2 13], which
    is below the threshold 3.8, so no such host is penalised. *)
Theorem entropy_check_needs_14_distinct (host : str) :
  (EntropyFacts.distinct host <= 13)%nat -> check_entropy host = None.
Proof.
  intro H. unfold check_entropy.
  destruct (Rlt_dec (38 / 10) (_shannon_entropy host)) as [L|L]; [|reflexivity].
  exfalso. destruct host as [|c s].
  - change (_shannon_entropy []) with 0 in L. lra.
  - destruct (EntropyFacts.entropy_of_distinct c s) as [K1 [_ U]].
    set (k := EntropyFacts.distinct (c :: s)) in *.
    assert (P : 0 < INR k) by (apply lt_0_INR; lia).
    assert (B : INR k <= 13).
    { apply le_INR in H.
      replace (INR 13) with 13 in H by (rewrite INR_IZR_INZ; reflexivity).
      exact H. }
    pose proof (SampleFacts.log2_upper 13 38 10 eq_refl ltac:(lia)
                  ltac:(vm_compute; reflexivity)) as Hlog.
    rewrite !INR_IZR_INZ in Hlog.
    change (IZR (Z.of_nat 38)) with 38 in Hlog.
    change (IZR (Z.of_nat 10)) with 10 in Hlog.
    pose proof (EntropyFacts.log2_le (INR k) 13 P B) as M.
    lra.
Qed.

Lemma fired_checks_ok (url : str) (parsed : ParseResult) :
  Forall fired_ok (fired_checks url parsed).
Proof.
  unfold fired_checks. cbn [flat_map].
  repeat (apply Forall_app; split);
    try apply check_entropy_ok; try constructor; apply inR_ok.
  - apply check_domain_length_ok.
  - apply check_hyphens_ok.
  - apply check_keywords_ok.
  - apply check_tld_ok.
  - apply check_ip_ok.
  - apply check_subdomains_ok.
  - apply check_homographs_ok.
  - apply check_brands_ok.
  - apply check_https_ok.
  - apply check_path_depth_ok.
  - apply check_at_sign_ok.
  - apply check_digit_ratio_ok.
Qed.

Lemma flat_map_option_length {A} (l : list (option A)) :
  (length (flat_map (fun c => match c with Some x => [x] | None => [] end) l)
   <= length l)%nat.
Proof.
  induction l as [|[x|] l IH]; cbn [flat_map length app]; lia.
Qed.

Lemma fired_checks_length (url : str) (parsed : ParseResult) :
  (length (fired_checks url parsed) <= 13)%nat.
Proof.
  unfold fired_checks.
  eapply Nat.le_trans; [apply flat_map_option_length|].
  cbn [length]. lia.
Qed.

Lemma Rsum_fired (l : list (R * reason)) :
  Forall fired_ok l ->
  0 <= Rsum (List.map fst l) <= 20 * INR (length l)
  /\ (l <> [] -> 0 < Rsum (List.map fst l)).
Proof.
  induction 1 as [|[p r] l [[L U] _] Hf [[IH1 IH2] IH3]].
  - unfold Rsum. cbn. split; [lra|congruence].
  - cbn [List.map fst length] in *. rewrite EntropyFacts.Rsum_cons, S_INR.
    split; [lra|]. intros _. lra.
Qed.

(** The lines of the report: those of the checks that fired, or the line
    of the empty report. *)
Definition lines_of (fired : list (R * reason)) : list reason :=
  match fired with
  | [] => [NoIndicators]
  | _ => List.map snd fired
  end.

Lemma assess_reasoning (url : str) (parsed : ParseResult) :
  reasoning (assess url parsed) = lines_of (fired_checks url parsed).
Proof.
  unfold assess, lines_of. cbn [reasoning].
  destruct (fired_checks url parsed); reflexivity.
Qed.

Lemma lines_of_length (fired : list (R * reason)) :
  length (lines_of fired) = Nat.max 1 (length fired).
Proof.
  destruct fired; [reflexivity|].
  unfold lines_of. rewrite length_map. cbn [length]. lia.
Qed.

Lemma analyze_url_assess (url : str) (r : Assessment) :
  analyze_url url = Ok r ->
  exists parsed, urlparse (prepare url) = Ok parsed
                 /\ r = assess (prepare url) parsed.
Proof.
  unfold analyze_url. intro H.
  destruct (urlparse (prepare url)) as [parsed|e]; [|discriminate].
  cbn [bind] in H. injection H as <-. exists parsed. auto.
Qed.

Lemma clamp_le_total (x : R) : 0 <= x -> 0 <= clamp x <= 100 /\ clamp x <= x.
Proof.
  intro H. unfold clamp, Rmax, Rmin.
  destruct (Rle_dec 100 x); destruct (Rle_dec 0 _); lra.
Qed.

Lemma round_R_2_le_20 (x : R) (m : nat) :
  0 <= x <= 100 -> x <= 20 * INR m -> round_R x 2 <= 20 * INR m.
Proof.
  intros Hx Hm.
  destruct (le_lt_dec 5 m) as [G|G].
  - destruct (HeuristicFacts.round_R_2_threshold x 100 Hx ltac:(lia))
      as [_ U].
    apply le_INR in G.
    replace (INR 5) with 5 in G by (rewrite INR_IZR_INZ; reflexivity).
    specialize (U ltac:(lra)). lra.
  - assert (Z : 20 * INR m = IZR (20 * Z.of_nat m)).
    { rewrite mult_IZR, <- INR_IZR_INZ. reflexivity. }
    rewrite Z in *.
    destruct (HeuristicFacts.round_R_2_threshold x (20 * Z.of_nat m) Hx
                ltac:(lia)) as [_ U].
    apply U, Hm.
Qed.

(** No single check adds more than 20 points, so the reported score is at
    most 20 times the number of lines of the report: a verdict of
    Phishing (65 points) takes at least four fired checks and a verdict of
    Suspicious (30 points) at least two.  The check of the IP address and
    the check of the TLD never fire on the same host, so a report has
    between one and twelve lines. *)
Theorem verdict_needs_several_checks (url : str) (r : Assessment) :
  analyze_url url = Ok r ->
  exists parsed,
    urlparse (prepare url) = Ok parsed
    /\ Forall (fun pr => 0 < fst pr <= 20) (fired_checks (prepare url) parsed)
    /\ risk_score r <= 20 * INR (length (reasoning r))
    /\ (classification r = Phishing -> (4 <= length (reasoning r))%nat)
    /\ (classification r = Suspicious -> (2 <= length (reasoning r))%nat)
    /\ (1 <= length (reasoning r) <= 12)%nat.
Proof.
  intro H. destruct (analyze_url_assess url r H) as [parsed [Hp ->]].
  exists parsed. split; [exact Hp|].
  set (u := prepare url).
  rewrite assess_reasoning.
  pose proof (fired_checks_ok u parsed) as F.
  pose proof (ExclusiveFacts.fired_checks_at_most_12 u parsed) as L12.
  destruct (Rsum_fired _ F) as [[S0 S1] _].
  fold (total_score u parsed) in S0, S1.
  rewrite lines_of_length.
  destruct (clamp_le_total _ S0) as [C0 C1].
  assert (B : forall k : nat,
             INR k * 20 < clamp (total_score u parsed) ->
             (S k <= length (fired_checks u parsed))%nat).
  { intros k Hk. apply INR_lt. lra. }
  split.
  { eapply Forall_impl; [|exact F]. intros pr [K _]. exact K. }
  split.
  { unfold assess. cbn [risk_score]. fold u.
    apply round_R_2_le_20; [exact C0|].
    assert (M : INR (length (fired_checks u parsed))
                <= INR (Nat.max 1 (length (fired_checks u parsed))))
      by (apply le_INR; lia).
    lra. }
  unfold assess. cbn [classification]. fold u.
  destruct (HeuristicFacts.classify_bucket (clamp (total_score u parsed)))
    as [[Hs ->] | [[Hs ->] | [Hs ->]]].
  - repeat split; try discriminate; lia.
  - repeat split; try discriminate; try lia.
    intros _. specialize (B 1%nat). cbn [INR] in B. specialize (B ltac:(lra)). lia.
  - repeat split; try discriminate; try lia.
    intros _. specialize (B 3%nat). cbn [INR] in B. specialize (B ltac:(lra)). lia.
Qed.

(** The line "No suspicious indicators detected" only ever stands alone:
    a report that has it has no other line, the score 0, the verdict Safe
    and the confidence 0.5. *)
Theorem no_indicators_stands_alone (url : str) (r : Assessment) :
  analyze_url url = Ok r ->
  In NoIndicators (reasoning r) ->
  reasoning r = [NoIndicators]
  /\ risk_score r = 0
  /\ classification r = Safe
  /\ (confidence r == 1 # 2)%Q.
Proof.
  intro H. destruct (analyze_url_assess url r H) as [parsed [_ ->]].
  set (u := prepare url).
  rewrite assess_reasoning.
  pose proof (fired_checks_ok u parsed) as F.
  unfold assess. cbn [risk_score classification confidence]. fold u.
  unfold total_score.
  destruct (fired_checks u parsed) as [|pr fired] eqn:E.
  - intros _. cbn [List.map length].
    assert (C : clamp (Rsum []) = 0).
    { unfold Rsum, clamp, Rmax, Rmin. cbn [fold_left].
      destruct (Rle_dec 100 0); destruct (Rle_dec 0 _); lra. }
    rewrite C.
    assert (Rz : round_R 0 2 = 0).
    { unfold round_R. rewrite Rmult_0_l.
      pose proof (HeuristicFacts.Rround_half_even_bounds 0 0 0 ltac:(lra)) as B.
      replace (Rround_half_even 0) with 0%Z by lia. lra. }
    rewrite Rz. repeat split.
    unfold classify. destruct (Rlt_dec 0 30); [reflexivity|lra].
  - intro Hin. exfalso. apply in_map_iff in Hin.
    destruct Hin as [x [Hx Hin]].
    rewrite Forall_forall in F. destruct (F x Hin) as [_ N]. congruence.
Qed.

(** The confidence of a report. *)
Definition confidence_of (active_features : nat) : Q :=
  round_Q (Qmin ((1 # 2) + inject_Z (Z.of_nat active_features)
                           / inject_Z 12 * (1 # 2)) 1) 3.

Lemma confidence_of_range (n : nat) :
  (n <= 12)%nat ->
  ((1 # 2) <= confidence_of n <= 1)%Q
  /\ ((confidence_of n == 1)%Q <-> n = 12%nat).
Proof.
  intro H.
  do 13 (destruct n as [|n];
         [split; [split; vm_compute; discriminate|];
          split; [intro K; try (exfalso; vm_compute in K; discriminate);
                  reflexivity
                 |intro K; try discriminate; vm_compute; reflexivity]|]).
  lia.
Qed.

(** The confidence of a report lies between 0.5 and 1, and it is 1
    exactly when the report has twelve lines, which is the most that the
    thirteen checks write for one URL. *)
Theorem report_confidence (url : str) (r : Assessment) :
  analyze_url url = Ok r ->
  ((1 # 2) <= confidence r <= 1)%Q
  /\ ((confidence r == 1)%Q <-> length (reasoning r) = 12%nat)
  /\ (length (reasoning r) <= 12)%nat.
Proof.
  intro H. destruct (analyze_url_assess url r H) as [parsed [_ ->]].
  set (u := prepare url).
  rewrite assess_reasoning.
  pose proof (ExclusiveFacts.fired_checks_at_most_12 u parsed) as L12.
  unfold assess. cbn [confidence]. fold u.
  rewrite length_map.
  fold (confidence_of (length (fired_checks u parsed))).
  destruct (confidence_of_range _ L12) as [A B].
  split; [exact A|]. rewrite B, lines_of_length. lia.
Qed.

End WithTables.

Lemma entropy_check_needs_14_distinct_witness :
  check_entropy (lit "example.com") = None.
Proof.
  apply (entropy_check_needs_14_distinct (lit "example.com")).
  vm_compute. lia.
Defined.

Lemma verdict_needs_several_checks_witness :
  (exists r,
      analyze_url PhishFacts.phish_url = Ok r
      /\ classification r = Phishing
      /\ (4 <= length (reasoning r) <= 12)%nat
      /\ (risk_score r <= 20 * INR (length (reasoning r)))%R)
  /\ (exists r,
         analyze_url PhishFacts.susp_url = Ok r
         /\ classification r = Suspicious
         /\ (2 <= length (reasoning r) <= 12)%nat).
Proof.
  split.
  - destruct PhishFacts.phish_result as [E [C _]].
    destruct (verdict_needs_several_checks _ _ E)
      as [parsed [_ [_ [B [P [_ L]]]]]].
    exists (assess PhishFacts.phish_url PhishFacts.phish_parsed).
    split; [exact E|]. split; [exact C|].
    split; [split; [exact (P C)|apply L]|exact B].
  - destruct PhishFacts.susp_result as [E [C _]].
    destruct (verdict_needs_several_checks _ _ E)
      as [parsed [_ [_ [_ [_ [S2 L]]]]]].
    exists (assess PhishFacts.susp_url PhishFacts.susp_parsed).
    split; [exact E|]. split; [exact C|].
    split; [exact (S2 C)|apply L].
Defined.

Definition parsed_plain : ParseResult :=
  {| scheme := lit "https"; netloc := lit "example.com"; path := [];
     params := []; query := []; fragment := [] |}.

Definition parsed_z : ParseResult :=
  {| scheme := lit "https"; netloc := lit "z"; path := [];
     params := []; query := []; fragment := [] |}.

Lemma no_indicators_stands_alone_witness :
  exists r,
    analyze_url (lit "https://z") = Ok r
    /\ reasoning r = [NoIndicators]
    /\ risk_score r = 0%R.
Proof.
  assert (E : analyze_url (lit "https://z")
              = Ok (assess (lit "https://z") parsed_z)).
  { unfold analyze_url.
    replace (prepare (lit "https://z")) with (lit "https://z")
      by (vm_compute; reflexivity).
    replace (urlparse (lit "https://z")) with (Ok parsed_z)
      by (vm_compute; reflexivity).
    reflexivity. }
  exists (assess (lit "https://z") parsed_z).
  split; [exact E|].
  assert (H0 : host_of parsed_z = lit "z") by (vm_compute; reflexivity).
  assert (H1 : check_domain_length (lit "z") = None) by (vm_compute; reflexivity).
  assert (H2 : check_hyphens (lit "z") = None) by (vm_compute; reflexivity).
  assert (H3 : check_keywords (lit "z" ++ path parsed_z) = None)
    by (vm_compute; reflexivity).
  assert (H4 : check_tld (lit "z") = None) by (vm_compute; reflexivity).
  assert (H5 : check_ip (lit "z") = None) by (vm_compute; reflexivity).
  assert (H6 : check_subdomains (lit "z") = None) by (vm_compute; reflexivity).
  assert (H7 : check_homographs (lit "z") = None) by (vm_compute; reflexivity).
  assert (H8 : check_brands (lit "z") = None) by (vm_compute; reflexivity).
  assert (H9 : check_https parsed_z = None) by (vm_compute; reflexivity).
  assert (H10 : check_path_depth (path parsed_z) = None)
    by (vm_compute; reflexivity).
  assert (H11 : check_at_sign (lit "https://z") = None)
    by (vm_compute; reflexivity).
  assert (H12 : check_digit_ratio (lit "z") = None) by (vm_compute; reflexivity).
  assert (H13 : check_entropy (lit "z") = None).
  { unfold check_entropy.
    assert (Z : _shannon_entropy (lit "z") = 0%R).
    { unfold _shannon_entropy, Rsum, log2. cbn.
      replace (1 / 1)%R with 1%R by lra. rewrite ln_1. lra. }
    rewrite Z. destruct (Rlt_dec (38 / 10) 0) as [L|L]; [lra|reflexivity]. }
  assert (F : fired_checks (lit "https://z") parsed_z = []).
  { unfold fired_checks. rewrite H0, H1, H2, H3, H4, H5, H6, H7, H8, H9, H10,
      H11, H12, H13. reflexivity. }
  assert (R : reasoning (assess (lit "https://z") parsed_z) = [NoIndicators]).
  { rewrite assess_reasoning, F. reflexivity. }
  destruct (no_indicators_stands_alone _ _ E) as [A [B _]].
  - rewrite R. left. reflexivity.
  - split; [exact A|exact B].
Defined.

Lemma report_confidence_witness :
  exists r,
    analyze_url PhishFacts.phish_url = Ok r
    /\ length (reasoning r) = 6%nat
    /\ ((1 # 2) <= confidence r <= 1)%Q
    /\ ~ (confidence r == 1)%Q.
Proof.
  destruct PhishFacts.phish_result as [E [_ [_ R]]].
  destruct (report_confidence _ _ E) as [A [B _]].
  exists (assess PhishFacts.phish_url PhishFacts.phish_parsed).
  split; [exact E|].
  split; [rewrite R; reflexivity|].
  split; [exact A|].
  intro K. apply B in K. rewrite R in K. discriminate K.
Defined.

End ScoreFacts.

(* ------------------------------------------------------------------ *)
(** ** The detectors of the heuristic engine                            *)
(* ------------------------------------------------------------------ *)

Module DetectorFacts.
Import Py UrlLib HeuristicEngine StrFacts.

(** *** Dotted quads *)

(** A greedy repetition takes a whole group of at most [h] characters of
    the class when the continuation accepts what follows. *)
Lemma rep_group (p : N -> bool) (lo h : nat) (k : nat -> str -> bool)
      (rest : str) :
  forall (g : str) (n pos : nat),
    forallb p g = true ->
    (n + length g <= h)%nat ->
    (lo <= n + length g)%nat ->
    k (pos + length g)%nat rest = true ->
    Re.rep p lo (Some h) n pos (g ++ rest) k = true.
Proof.
  induction g as [|c g IH]; intros n pos Hp Hh Hlo Hk.
  - cbn [length app] in *. rewrite Nat.add_0_r in *.
    assert (L : (lo <=? n)%nat = true) by (apply Nat.leb_le; exact Hlo).
    destruct rest as [|c s']; cbn [Re.rep]; rewrite L, Hk.
    + reflexivity.
    + destruct (p c && Re.below (Some h) n); [apply orb_true_r|reflexivity].
  - cbn [forallb] in Hp. apply andb_true_iff in Hp. destruct Hp as [Hc Hg].
    cbn [length] in Hh, Hlo, Hk. cbn [app Re.rep]. rewrite Hc.
    assert (B : Re.below (Some h) n = true)
      by (cbn [Re.below]; apply Nat.ltb_lt; lia).
    rewrite B. cbn [andb].
    rewrite IH; [reflexivity|exact Hg|lia|lia|].
    rewrite <- Nat.add_succ_comm in Hk. exact Hk.
Qed.

(** A group of one to three ASCII digits. *)
Definition octet_text (g : str) : Prop :=
  (1 <= length g <= 3)%nat /\ forallb is_ascii_digit g = true.

Section WithTables.
Context {T : Tables}.

Lemma digits_decimal (g : str) :
  forallb is_ascii_digit g = true -> forallb isdecimal g = true.
Proof.
  apply forallb_impl. intros c Hc. unfold isdecimal.
  destruct (isascii c) eqn:A; [exact Hc|].
  exfalso. revert Hc A. unfold is_ascii_digit, isascii. char_lia.
Qed.

(** The recogniser accepts every dotted quad of groups of one to three
    digits, whatever the value of a group: it does not check that a group
    is at most 255. *)
Theorem is_ip_address_accepts_any_quad (a b c d : str) :
  octet_text a -> octet_text b -> octet_text c -> octet_text d ->
  _is_ip_address (a ++ lit "." ++ b ++ lit "." ++ c ++ lit "." ++ d) = true
  /\ check_ip (a ++ lit "." ++ b ++ lit "." ++ c ++ lit "." ++ d)
     = Some (15%Q, RawIPAddress).
Proof.
  intros [La Da] [Lb Db] [Lc Dc] [Ld Dd].
  apply digits_decimal in Da, Db, Dc, Dd.
  assert (E : _is_ip_address
                (a ++ lit "." ++ b ++ lit "." ++ c ++ lit "." ++ d) = true).
  { unfold _is_ip_address, Re.matches, ip_pattern.
    cbn [Re.run]. apply orb_true_iff. left.
    cbn [Nat.eqb andb].
    apply rep_group; [exact Da|lia|lia|]. cbn [lit List.map list_ascii_of_string app].
    change (N_of_ascii ".") with 46%N.
    unfold Re.chr_is at 1. change (N_of_ascii ".") with 46%N.
    rewrite N.eqb_refl. cbn [andb].
    apply rep_group; [exact Db|lia|lia|]. cbn [app].
    unfold Re.chr_is at 1. change (N_of_ascii ".") with 46%N.
    rewrite N.eqb_refl. cbn [andb].
    apply rep_group; [exact Dc|lia|lia|]. cbn [app].
    unfold Re.chr_is at 1. change (N_of_ascii ".") with 46%N.
    rewrite N.eqb_refl. cbn [andb].
    rewrite <- (app_nil_r d).
    apply rep_group; [exact Dd|lia|lia|]. reflexivity. }
  split; [exact E|]. unfold check_ip. rewrite E. reflexivity.
Qed.

End WithTables.

Lemma is_ip_address_accepts_any_quad_witness :
  _is_ip_address (lit "999.999.999.999") = true
  /\ check_ip (lit "999.999.999.999") = Some (15%Q, RawIPAddress).
Proof.
  apply (is_ip_address_accepts_any_quad (lit "999") (lit "999") (lit "999")
           (lit "999")); split; try reflexivity; cbn; lia.
Defined.

(** *** Brand names *)

Lemma brand_names_have_no_space :
  Forall (fun kv => mem 32 (fst kv) = false) TARGET_BRANDS.
Proof. repeat constructor. Qed.

Section WithTables.
Context {T : Tables}.

(** The hit [(brand, 0)] is reported exactly when the lower-cased domain
    contains the brand name and its first label is not the brand name;
    the brand check then fires with a penalty between 8 and 20.  So
    [www.paypal.com] is flagged and [paypal.example.tk] is not (by this
    rule). *)
Theorem brand_name_rule (domain brand : str) (variants : list str) :
  In (brand, variants) TARGET_BRANDS ->
  (In (brand, 0%nat) (_detect_brand_spoofing domain)
   <-> contains brand (lower domain) = true
       /\ str_eqb (hd [] (split 46 (lower domain))) brand = false)
  /\ (In (brand, 0%nat) (_detect_brand_spoofing domain) ->
      exists p names,
        check_brands domain = Some (p, BrandSpoofing names)
        /\ (8 <= p <= 20)%Q /\ In brand names).
Proof.
  intro Hb.
  assert (Fire : In (brand, 0%nat) (_detect_brand_spoofing domain) ->
                 exists p names,
                   check_brands domain = Some (p, BrandSpoofing names)
                   /\ (8 <= p <= 20)%Q /\ In brand names).
  { intro Hin. unfold check_brands.
    destruct (_detect_brand_spoofing domain) as [|h hits] eqn:E;
      [destruct Hin|].
    cbn [nonempty]. eexists. eexists. split; [reflexivity|]. split.
    - apply ScoreFacts.Qmin_between; try (vm_compute; discriminate).
      apply (ScoreFacts.inject_Z_ge _ 8). cbn [length]. lia.
    - apply (in_map fst) in Hin. exact Hin. }
  split; [|exact Fire].
  unfold _detect_brand_spoofing. rewrite in_flat_map. split.
  - intros [[b vs] [Hin Hhit]]. apply in_app_or in Hhit.
    destruct Hhit as [Hd|Hv].
    + destruct (contains b (lower domain)) eqn:C; [|destruct Hd].
      destruct (negb (str_eqb (hd [] (split 46 (lower domain))) b)) eqn:N;
        [|destruct Hd].
      destruct Hd as [Hd|[]]. injection Hd as ->.
      split; [exact C|]. apply negb_true_iff. exact N.
    + exfalso. apply in_flat_map in Hv. destruct Hv as [v [_ Hv]].
      destruct (contains v (lower domain)); [|destruct Hv].
      destruct Hv as [Hv|[]]. injection Hv as Hn _.
      pose proof brand_names_have_no_space as F.
      rewrite Forall_forall in F. specialize (F _ Hb). cbn [fst] in F.
      rewrite <- Hn, !mem_app in F.
      apply orb_false_iff in F. destruct F as [_ F].
      apply orb_false_iff in F. destruct F as [F _]. discriminate.
  - intros [C N]. exists (brand, variants). split; [exact Hb|].
    apply in_or_app. left. rewrite C, N. left. reflexivity.
Qed.

End WithTables.

Lemma brand_name_rule_witness :
  In (lit "paypal", 0%nat) (_detect_brand_spoofing (lit "www.paypal.com"))
  /\ ~ In (lit "paypal", 0%nat)
          (_detect_brand_spoofing (lit "paypal.example.tk")).
Proof.
  assert (Hb : In (lit "paypal",
                   List.map lit ["paypa1"; "paypall"; "pay-pal"; "payp4l"]%string)
                  TARGET_BRANDS)
    by (do 2 right; left; reflexivity).
  split.
  - destruct (brand_name_rule (lit "www.paypal.com") _ _ Hb) as [[_ K] _].
    apply K. split; vm_compute; reflexivity.
  - intro H.
    destruct (brand_name_rule (lit "paypal.example.tk") _ _ Hb) as [[K _] _].
    apply K in H. destruct H as [_ H2]. vm_compute in H2. discriminate.
Defined.

(** *** Confusable characters *)

(** The code points that [HOMOGRAPH_MAP] lists. *)
Definition confusable (c : N) : bool :=
  existsb (N.eqb c)
    [0x0430; 0x0435; 0x043e; 0x0440; 0x0441; 0x0443; 0x0445; 0x04bb;
     0x0456; 0x0458; 0x04cf; 0x043d; 0x0455; 0x0442; 0x044a; 0x0432;
     0x0448; 0x0437]%N.

Lemma homograph_lookup_keys (d : list (N * N)) (c : N) :
  match homograph_lookup d c with
  | Some _ => existsb (N.eqb c) (List.map fst d) = true
  | None => existsb (N.eqb c) (List.map fst d) = false
  end.
Proof.
  induction d as [|[k v] d IH]; [reflexivity|].
  cbn [homograph_lookup List.map fst existsb]. rewrite (N.eqb_sym c k).
  destruct (k =? c)%N; [reflexivity|exact IH].
Qed.

(** One report is made for each occurrence of a listed character, in the
    order of the host; a host whose characters all lie below U+0430 (an
    ASCII host, for one) gets no report and no penalty. *)
Theorem homographs_reported (host : str) :
  List.map fst (_detect_homographs host) = filter confusable host
  /\ (forallb (fun c => (c <? 0x0430)%N) host = true ->
      _detect_homographs host = [] /\ check_homographs host = None).
Proof.
  assert (A : List.map fst (_detect_homographs host) = filter confusable host).
  { unfold _detect_homographs.
    induction host as [|c host IH]; [reflexivity|].
    cbn [flat_map filter]. rewrite map_app, IH.
    pose proof (homograph_lookup_keys HOMOGRAPH_MAP c) as K.
    change (List.map fst HOMOGRAPH_MAP)
      with [0x0430; 0x0435; 0x043e; 0x0440; 0x0441; 0x0443; 0x0445; 0x04bb;
            0x0456; 0x0458; 0x04cf; 0x043d; 0x0455; 0x0442; 0x044a; 0x0432;
            0x0448; 0x0437]%N in K.
    fold (confusable c) in K.
    destruct (homograph_lookup HOMOGRAPH_MAP c); rewrite K; reflexivity. }
  split; [exact A|]. intro H.
  assert (E : _detect_homographs host = []).
  { apply (f_equal (@length N)) in A. rewrite length_map in A.
    assert (Z : filter confusable host = []).
    { clear A. induction host as [|c host IH]; [reflexivity|].
      cbn [forallb] in H. apply andb_true_iff in H. destruct H as [Hc Hh].
      cbn [filter]. rewrite (IH Hh).
      assert (C : confusable c = false).
      { apply N.ltb_lt in Hc. unfold confusable. cbn [existsb].
        repeat (apply orb_false_iff; split); try reflexivity;
          apply N.eqb_neq; lia. }
      rewrite C. reflexivity. }
    rewrite Z in A. destruct (_detect_homographs host); [reflexivity|discriminate]. }
  split; [exact E|]. unfold check_homographs. rewrite E. reflexivity.
Qed.

Lemma homographs_reported_witness :
  _detect_homographs (lit "example.com") = []
  /\ check_homographs (lit "example.com") = None.
Proof.
  apply (homographs_reported (lit "example.com")). vm_compute. reflexivity.
Defined.

(** *** Inputs on which the engine answers *)

Section WithTables.
Context {T : Tables}.

(** [analyze_url] returns a result, and does not raise, on every ASCII
    input that has no ['%'], ['['] or [']']; the result names the
    heuristic engine and carries the feature dictionary. *)
Theorem analyze_url_returns_on_ascii (url : str) :
  str_isascii url = true ->
  mem 37 url = false -> mem 91 url = false -> mem 93 url = false ->
  exists r,
    analyze_url url = Ok r
    /\ engine r = HeuristicEngine_v2_0
    /\ features r <> None
    /\ api_used r = None.
Proof.
  intros H1 H0 H2 H3.
  assert (U : unquote url = url) by (unfold unquote; rewrite H0; reflexivity).
  assert (C : TotalityFacts.clean (prepare url)).
  { unfold prepare. rewrite U.
    pose proof (forallb_strip TotalityFacts.cleanb url
                  (TotalityFacts.clean_intro url H1 H2 H3)) as Cs.
    unfold with_http_prefix.
    destruct (startswith (lit "http://") (strip url)
              || startswith (lit "https://") (strip url)); [exact Cs|].
    unfold TotalityFacts.clean. rewrite forallb_app, Cs. reflexivity. }
  destruct (TotalityFacts.urlparse_clean _ C) as [parsed E].
  exists (assess (prepare url) parsed).
  unfold analyze_url. rewrite E. cbn [bind].
  repeat split. discriminate.
Qed.

End WithTables.

Lemma analyze_url_returns_on_ascii_witness :
  exists r, analyze_url (lit "example.com/login?next=/a b") = Ok r
            /\ engine r = HeuristicEngine_v2_0.
Proof.
  destruct (analyze_url_returns_on_ascii (lit "example.com/login?next=/a b")
              eq_refl eq_refl eq_refl eq_refl) as [r [E [G _]]].
  exists r. split; [exact E|exact G].
Defined.

End DetectorFacts.

(* ------------------------------------------------------------------ *)
(** ** The result of the reputation client                              *)
(* ------------------------------------------------------------------ *)

Module BuildResultFacts.
Import Py ApiClient.






End BuildResultFacts.

(* ------------------------------------------------------------------ *)
(** ** The state and the sleeps of the rate limiter                     *)
(* ------------------------------------------------------------------ *)

Module LimiterStateFacts.
Import ApiClient LimiterFacts.

(** The state after a schedule of calls. *)
Fixpoint run (schedule : list (Q * Q)) (l : Limiter) : Limiter :=
  match schedule with
  | [] => l
  | (gap, lag) :: rest => run rest (_rate_limit_wait lag (elapse gap l))
  end.

(** The sleep that each call of a schedule requests. *)
Fixpoint sleeps (schedule : list (Q * Q)) (l : Limiter) : list Q :=
  match schedule with
  | [] => []
  | (gap, lag) :: rest =>
      let l0 := elapse gap l in
      requested_sleep (clock l0) (prune (clock l0) (_request_times l0))
        :: sleeps rest (_rate_limit_wait lag l0)
  end.

(** The stored timestamps are not in the future and are at most five. *)
Record Small (l : Limiter) : Prop := {
  small_past : Forall (fun t => t <= clock l) (_request_times l);
  small_length : (length (_request_times l) <= 5)%nat
}.

Lemma Small_initial (start : Q) : Small (initial start).
Proof. split; cbn; [constructor|lia]. Qed.

Lemma Small_elapse (l : Limiter) (gap : Q) :
  0 <= gap -> Small l -> Small (elapse gap l).
Proof.
  intros Hg [P L]. split; cbn [elapse clock _request_times]; [|exact L].
  eapply Forall_impl; [|exact P]. cbv beta. intros t Ht. lra.
Qed.

Lemma requested_sleep_nonneg (now : Q) (times : list Q) :
  0 <= requested_sleep now times.
Proof.
  unfold requested_sleep.
  destruct (_RATE_LIMIT <=? length times)%nat; [|lra].
  destruct (Qltb 0 _) eqn:E; [|lra]. apply Qltb_lt in E. lra.
Qed.

Lemma Small_wait (l : Limiter) (h : list Q) (lag : Q) :
  0 <= lag -> Inv l h -> Small l -> Small (_rate_limit_wait lag l).
Proof.
  intros Hl [I1 I2 I3] [P L].
  pose proof (requested_sleep_nonneg (clock l)
                (prune (clock l) (_request_times l))) as S0.
  split; cbn [_rate_limit_wait clock _request_times].
  - apply Forall_app. split.
    + apply Forall_forall. intros t Ht. unfold prune in Ht.
      apply filter_In in Ht. destruct Ht as [Ht _].
      rewrite Forall_forall in P. specialize (P t Ht). lra.
    + repeat constructor. lra.
  - rewrite length_app, I1. cbn [length].
    specialize (I2 (clock l) (Qle_refl _)). lia.
Qed.

Lemma run_invariant (schedule : list (Q * Q)) :
  forall l h,
    nonnegative schedule -> Inv l h -> Small l ->
    Small (run schedule l).
Proof.
  induction schedule as [|[gap lag] rest IH]; intros l h Hn HI HS.
  - exact HS.
  - inversion Hn as [|? ? [Hg Hl] Hrest]; subst. cbn [fst snd] in *.
    cbn [run].
    pose proof (Inv_elapse l h gap Hg HI) as HI'.
    pose proof (Small_elapse l gap Hg HS) as HS'.
    apply (IH _ (h ++ [clock (_rate_limit_wait lag (elapse gap l))]) Hrest).
    + apply Inv_wait; assumption.
    + apply (Small_wait _ h); assumption.
Qed.

(** Along every run in which time does not go backwards, the stored list
    [_request_times] never holds more than five timestamps, and none of
    them lies after the last reading of the clock. *)
Theorem limiter_state_stays_small (schedule : list (Q * Q)) (start : Q) :
  nonnegative schedule ->
  let l := run schedule (initial start) in
  (length (_request_times l) <= 5)%nat
  /\ Forall (fun t => t <= clock l) (_request_times l).
Proof.
  intro Hn. cbv zeta.
  destruct (run_invariant schedule (initial start) [] Hn
              (Inv_initial start) (Small_initial start)) as [P L].
  split; assumption.
Qed.

Lemma sleeps_bounded (schedule : list (Q * Q)) :
  forall l h,
    nonnegative schedule -> Inv l h -> Small l ->
    Forall (fun s => s = 0 \/ ((1 # 2) < s /\ s <= (121 # 2)))
           (sleeps schedule l).
Proof.
  induction schedule as [|[gap lag] rest IH]; intros l h Hn HI HS.
  - constructor.
  - inversion Hn as [|? ? [Hg Hl] Hrest]; subst. cbn [fst snd] in *.
    cbn [sleeps].
    pose proof (Inv_elapse l h gap Hg HI) as HI'.
    pose proof (Small_elapse l gap Hg HS) as HS'.
    set (l0 := elapse gap l) in *.
    constructor.
    + unfold requested_sleep.
      destruct (_RATE_LIMIT <=? _)%nat eqn:Hfull; [|left; reflexivity].
      apply Nat.leb_le in Hfull. unfold _RATE_LIMIT in Hfull.
      destruct (prune (clock l0) (_request_times l0)) as [|t0 rest0] eqn:E;
        [cbn in Hfull; lia|].
      cbn [hd].
      assert (Hin : In t0 (prune (clock l0) (_request_times l0)))
        by (rewrite E; left; reflexivity).
      unfold prune in Hin. apply filter_In in Hin. destruct Hin as [Hin Hw].
      apply prune_keeps in Hw.
      destruct HS' as [P _]. rewrite Forall_forall in P.
      specialize (P t0 Hin). unfold _RATE_WINDOW.
      assert (Hpos : Qltb 0 (60 - (clock l0 - t0) + (1 # 2)) = true)
        by (apply Qltb_lt; lra).
      rewrite Hpos. right. split; lra.
    + apply (IH _ (h ++ [clock (_rate_limit_wait lag l0)]) Hrest).
      * apply Inv_wait; assumption.
      * apply (Small_wait _ h); assumption.
Qed.

(** Along every run in which time does not go backwards, a call either
    requests no sleep or a sleep of more than 0.5 and at most 60.5
    seconds: the computed [sleep_time] is never zero or negative. *)
Theorem limiter_sleep_bounded (schedule : list (Q * Q)) (start : Q) :
  nonnegative schedule ->
  Forall (fun s => s = 0 \/ ((1 # 2) < s /\ s <= (121 # 2)))
         (sleeps schedule (initial start)).
Proof.
  intro Hn.
  apply (sleeps_bounded schedule (initial start) [] Hn
           (Inv_initial start) (Small_initial start)).
Qed.

Lemma limiter_state_stays_small_witness :
  (length (_request_times (run back_to_back (initial 0))) <= 5)%nat.
Proof.
  assert (Hn : nonnegative back_to_back).
  { unfold nonnegative, back_to_back.
    repeat constructor; cbn; discriminate. }
  destruct (limiter_state_stays_small back_to_back 0 Hn) as [A _].
  exact A.
Defined.

Lemma limiter_sleep_bounded_witness :
  Forall (fun s => s = 0 \/ ((1 # 2) < s /\ s <= (121 # 2)))
         (sleeps back_to_back (initial 0)).
Proof.
  assert (Hn : nonnegative back_to_back).
  { unfold nonnegative, back_to_back.
    repeat constructor; cbn; discriminate. }
  exact (limiter_sleep_bounded back_to_back 0 Hn).
Defined.

End LimiterStateFacts.

(* ------------------------------------------------------------------ *)
(** ** The traffic of one call of the reputation client                 *)
(* ------------------------------------------------------------------ *)

Module TrafficFacts.
Import Py ApiClient ProtocolFacts.

(** Every request of a trace comes directly after an acquisition of the
    rate limiter, and every acquisition is followed by a request. *)
Fixpoint guarded (trace : list event) : bool :=
  match trace with
  | [] => true
  | Sleep _ :: rest => guarded rest
  | RateLimitWait :: Post _ :: rest => guarded rest
  | RateLimitWait :: Get _ :: rest => guarded rest
  | _ => false
  end.

Definition attempts (analysis_id : str) (k : nat) : list event :=
  concat (repeat (attempt_events analysis_id) k).

Lemma attempts_S (analysis_id : str) (k : nat) :
  attempts analysis_id (S k)
  = Sleep 5 :: RateLimitWait :: Get analysis_id :: attempts analysis_id k.
Proof. reflexivity. Qed.

Lemma attempts_guarded (analysis_id : str) (k : nat) :
  guarded (attempts analysis_id k) = true.
Proof. induction k as [|k IH]; [reflexivity|]. rewrite attempts_S. exact IH. Qed.

Lemma attempts_posts (analysis_id : str) (k : nat) :
  filter is_post (attempts analysis_id k) = [].
Proof. induction k as [|k IH]; [reflexivity|]. rewrite attempts_S. exact IH. Qed.

(** A poll answer that ends the loop, with the outcome of the call: a
    document with status 200 that is not JSON, that has another shape, or
    that reports a completed job. *)
Inductive stops (url : str) : http poll_body -> res Assessment -> Prop :=
| stops_not_json :
    stops url (Response 200 PollNotJSON) (Raise (ValueError JSONDecodeError))
| stops_completed (s : str) (stats : dict) :
    str_eqb s completed = true ->
    stops url (Response 200 (PollJSON (Some s) stats))
          (Ok (_build_result url stats))
| stops_other_shape :
    stops url (Response 200 PollOtherShape) (Raise AttributeError)
| stops_stats_not_object (s : str) :
    str_eqb s completed = true ->
    stops url (Response 200 (PollStatsNotObject (Some s)))
          (Raise AttributeError)
| stops_stats_not_numbers (s : str) :
    str_eqb s completed = true ->
    stops url (Response 200 (PollStatsNotNumbers (Some s))) (Raise TypeError).

(** An answer either leaves the job pending or ends the loop. *)
Lemma pending_or_stops (url : str) (a : http poll_body) :
  pending a = true \/ exists x, stops url a x.
Proof.
  destruct a as [|code body]; [left; reflexivity|].
  unfold pending.
  destruct (negb (code =? 200)%Z) eqn:C; [left; reflexivity|].
  apply negb_false_iff, Z.eqb_eq in C. subst code.
  destruct body as [|[s|] stats| |[s|]|[s|]];
    try (left; reflexivity);
    try (destruct (str_eqb s completed) eqn:S;
         [right; eexists; constructor; exact S|left; reflexivity]);
    right; eexists; constructor.
Qed.

(** One iteration of the loop on a pending answer and on a final one. *)
Lemma poll_loop_step_pending (svc : Service) (url analysis_id : str)
      (remaining attempt : nat) :
  pending (poll svc attempt analysis_id) = true ->
  poll_loop svc url analysis_id (S remaining) attempt
  = (attempt_events analysis_id
       ++ fst (poll_loop svc url analysis_id remaining (S attempt)),
     snd (poll_loop svc url analysis_id remaining (S attempt))).
Proof.
  intro H. cbn [poll_loop]. rewrite !mbind_emit. cbn [fst snd].
  unfold pending in H.
  destruct (poll_loop svc url analysis_id remaining (S attempt))
    as [t x] eqn:E.
  destruct (poll svc attempt analysis_id) as [|code body];
    [reflexivity|].
  destruct (negb (code =? 200)%Z); [reflexivity|].
  destruct body as [|[s|] stats| |[s|]|[s|]]; try discriminate;
    try (destruct (str_eqb s completed); [discriminate|]);
    reflexivity.
Qed.

Lemma poll_loop_step_stops (svc : Service) (url analysis_id : str)
      (remaining attempt : nat) (x : res Assessment) :
  stops url (poll svc attempt analysis_id) x ->
  poll_loop svc url analysis_id (S remaining) attempt
  = (attempt_events analysis_id, x).
Proof.
  intro H. cbn [poll_loop]. rewrite !mbind_emit. cbn [fst snd].
  inversion H as [E | s stats C E | E | s C E | s C E];
    cbn [negb Z.eqb Pos.eqb]; try rewrite C; reflexivity.
Qed.

(** With pending answers before it, a final answer to poll [n] ends the
    loop after [n + 1] attempts. *)
Lemma poll_loop_stops (svc : Service) (url analysis_id : str)
      (x : res Assessment) :
  forall n remaining attempt,
    (n < remaining)%nat ->
    (forall j, (j < n)%nat ->
               pending (poll svc (attempt + j) analysis_id) = true) ->
    stops url (poll svc (attempt + n) analysis_id) x ->
    poll_loop svc url analysis_id remaining attempt
    = (attempts analysis_id (S n), x).
Proof.
  induction n as [|n IH]; intros remaining attempt Hr Hp Hl;
    (destruct remaining as [|m]; [lia|]).
  - rewrite Nat.add_0_r in Hl.
    rewrite (poll_loop_step_stops _ _ _ _ _ _ Hl). reflexivity.
  - rewrite poll_loop_step_pending
      by (rewrite <- (Nat.add_0_r attempt); apply Hp; lia).
    rewrite (IH m (S attempt)).
    + reflexivity.
    + lia.
    + intros j Hj. replace (S attempt + j)%nat with (attempt + S j)%nat
        by lia. apply Hp. lia.
    + replace (S attempt + n)%nat with (attempt + S n)%nat by lia.
      exact Hl.
Qed.

(** How the polling loop ends after [k] attempts: with the time-out after
    all the iterations, or on a final answer. *)
Inductive loop_end (svc : Service) (url analysis_id : str)
          (remaining attempt k : nat) : res Assessment -> Prop :=
| end_timeout :
    k = remaining ->
    loop_end svc url analysis_id remaining attempt k
             (Raise (RuntimeError TimedOut))
| end_stops (last : nat) (x : res Assessment) :
    k = S last ->
    stops url (poll svc (attempt + last) analysis_id) x ->
    loop_end svc url analysis_id remaining attempt k x.

(** The loop makes [k] attempts, where [k] is at most the number of
    iterations, and all the answers before the last attempt left the job
    unfinished. *)
Lemma poll_loop_shape (svc : Service) (url analysis_id : str) :
  forall remaining attempt,
  exists k,
    (k <= remaining)%nat
    /\ fst (poll_loop svc url analysis_id remaining attempt)
       = attempts analysis_id k
    /\ loop_end svc url analysis_id remaining attempt k
                (snd (poll_loop svc url analysis_id remaining attempt))
    /\ (forall j, (S j < k)%nat ->
                  pending (poll svc (attempt + j) analysis_id) = true).
Proof.
  induction remaining as [|n IH]; intro attempt.
  - exists 0%nat. split; [lia|]. split; [reflexivity|].
    split; [apply end_timeout; reflexivity|].
    intros j Hj. lia.
  - destruct (pending_or_stops url (poll svc attempt analysis_id))
      as [P | [x P]].
    + rewrite (poll_loop_step_pending _ _ _ _ _ P). cbn [fst snd].
      destruct (IH (S attempt)) as [k [Hk [Ht [He Hp]]]].
      exists (S k). split; [lia|].
      split; [rewrite attempts_S, Ht; reflexivity|]. split.
      * destruct He as [E | last y E St].
        -- apply end_timeout. lia.
        -- apply (end_stops _ _ _ _ _ _ (S last)); [lia|].
           replace (attempt + S last)%nat with (S attempt + last)%nat
             by lia. exact St.
      * intros j Hj. destruct j as [|j].
        -- rewrite Nat.add_0_r. exact P.
        -- replace (attempt + S j)%nat with (S attempt + j)%nat by lia.
           apply Hp. lia.
    + rewrite (poll_loop_step_stops _ _ _ _ _ _ P). cbn [fst snd].
      exists 1%nat. split; [lia|]. split; [reflexivity|]. split.
      * apply (end_stops _ _ _ _ _ _ 0%nat); [reflexivity|].
        rewrite Nat.add_0_r. exact P.
      * intros j Hj. lia.
Qed.

Section WithTables.
Context {T : Tables}.

(** The trace of a call is empty, or it is the submission alone, or the
    submission followed by at most twelve poll attempts. *)
Lemma scan_url_shape (env_value : str) (svc : Service) (url : str) :
  (fst (scan_url env_value svc url) = []
   /\ (_get_api_key env_value = None
       \/ exists e, _normalize_url url = Raise e
                    /\ snd (scan_url env_value svc url) = Raise e))
  \/ (exists key u,
        _get_api_key env_value = Some key
        /\ _normalize_url url = Ok u
        /\ ((fst (scan_url env_value svc url) = [RateLimitWait; Post u]
             /\ exists e, snd (scan_url env_value svc url) = Raise e)
            \/ exists analysis_id k,
                 (k <= 12)%nat
                 /\ fst (scan_url env_value svc url)
                    = [RateLimitWait; Post u] ++ attempts analysis_id k
                 /\ loop_end svc u analysis_id 12 0 k
                             (snd (scan_url env_value svc url)))).
Proof.
  unfold scan_url.
  destruct (_get_api_key env_value) as [key|] eqn:K;
    [|left; split; [reflexivity|left; reflexivity]].
  destruct (_normalize_url url) as [u|e] eqn:N;
    [|left; split; [reflexivity|right; exists e; split; reflexivity]].
  right. exists key, u. split; [reflexivity|]. split; [reflexivity|].
  cbn [lift mbind]. rewrite !mbind_emit. cbn [fst snd].
  destruct (submit svc u) as [|code body];
    [left; split; [reflexivity|eexists; reflexivity]|].
  destruct (code =? 401)%Z; [left; split; [reflexivity|eexists; reflexivity]|].
  destruct (code =? 429)%Z; [left; split; [reflexivity|eexists; reflexivity]|].
  destruct (negb _); [left; split; [reflexivity|eexists; reflexivity]|].
  destruct body as [| | |id];
    try (left; split; [reflexivity|eexists; reflexivity]).
  right. destruct (poll_loop_shape svc u id 12 0) as [k [Hk [Ht [He _]]]].
  exists id, k. split; [exact Hk|]. split; [|exact He].
  cbn [app]. rewrite Ht. reflexivity.
Qed.

(** Whatever the service answers, one call of [scan_url] sends at most one
    POST and at most twelve GETs, and every request comes directly after an
    acquisition of the rate limiter.  When anything is sent at all, a
    credential is configured, the URL has a normal form, and the first
    request is the POST of that normal form: without a credential, or with
    a URL whose normalization raises, nothing is sent. *)
Theorem scan_url_traffic (env_value : str) (svc : Service) (url : str) :
  let trace := fst (scan_url env_value svc url) in
  guarded trace = true
  /\ (length (filter is_post trace) <= 1)%nat
  /\ (length (filter is_get trace) <= 12)%nat
  /\ (trace <> [] ->
      exists key u rest,
        _get_api_key env_value = Some key
        /\ _normalize_url url = Ok u
        /\ trace = RateLimitWait :: Post u :: rest
        /\ filter is_post rest = []).
Proof.
  cbv zeta.
  destruct (scan_url_shape env_value svc url)
    as [[E H] | [key [u [K [N [[E _] | [id [k [Hk [E _]]]]]]]]]]; rewrite E.
  - repeat split; cbn; try lia. congruence.
  - split; [reflexivity|]. split; [cbn; lia|]. split; [cbn; lia|].
    intros _. exists key, u, []. auto.
  - cbn [app guarded filter is_post is_get length].
    rewrite attempts_guarded, attempts_posts.
    unfold attempts. rewrite count_gets.
    split; [reflexivity|]. split; [cbn [length]; lia|]. split; [exact Hk|].
    intros _. exists key, u, (concat (repeat (attempt_events id) k)).
    split; [exact K|]. split; [exact N|]. split; [reflexivity|].
    apply attempts_posts.
Qed.

(** The handlers of [scan_url] cover the requests, not the reading of the
    answers.  With a credential and a URL that normalizes to [u]:
    an accepted submission whose document is not an object raises
    [TypeError] after the POST; after an accepted submission and pending
    answers to the polls before [k], an answer to poll [k] with status 200
    raises [ValueError] when it is not JSON, [AttributeError] when its
    document has another shape or reports a completed job with statistics
    that are not an object, and [TypeError] when a count of a completed
    job is not a number; none of these is wrapped in a [RuntimeError].
    A call that returns gives the result built from the statistics of an
    answer with status 200 that reports a completed job. *)
Theorem scan_url_outcomes
        (env_value : str) (svc : Service) (url u : str) :
  nonempty (strip env_value) = true ->
  _normalize_url url = Ok u ->
  (forall status_code,
      status_code = 200%Z \/ status_code = 201%Z ->
      submit svc u = Response status_code SubmitOtherShape ->
      scan_url env_value svc url
      = ([RateLimitWait; Post u], Raise TypeError))
  /\ (forall status_code analysis_id k,
         status_code = 200%Z \/ status_code = 201%Z ->
         submit svc u = Response status_code (SubmitId analysis_id) ->
         (k < 12)%nat ->
         (forall j, (j < k)%nat ->
                    pending (poll svc j analysis_id) = true) ->
         let ends_with (body : poll_body) (e : exn) :=
           poll svc k analysis_id = Response 200 body ->
           scan_url env_value svc url
           = ([RateLimitWait; Post u] ++ attempts analysis_id (S k),
              Raise e) in
         ends_with PollNotJSON (ValueError JSONDecodeError)
         /\ ends_with PollOtherShape AttributeError
         /\ ends_with (PollStatsNotObject (Some completed)) AttributeError
         /\ ends_with (PollStatsNotNumbers (Some completed)) TypeError)
  /\ (forall r,
         snd (scan_url env_value svc url) = Ok r ->
         exists analysis_id attempt s stats,
           (attempt < 12)%nat
           /\ poll svc attempt analysis_id
              = Response 200 (PollJSON (Some s) stats)
           /\ str_eqb s completed = true
           /\ r = _build_result u stats
           /\ api_used r = Some true).
Proof.
  intros Hkey Hnorm.
  assert (K : exists key, _get_api_key env_value = Some key).
  { unfold _get_api_key. rewrite Hkey. eauto. }
  destruct K as [key K].
  assert (C : str_eqb completed completed = true) by reflexivity.
  split; [|split].
  - intros code Hcode Hs. unfold scan_url. rewrite K, Hnorm.
    cbn [lift mbind]. rewrite !mbind_emit. rewrite Hs.
    destruct Hcode as [-> | ->]; reflexivity.
  - intros code id k Hcode Hs Hk Hpend. cbv zeta.
    assert (L : forall x,
               stops u (poll svc (0 + k) id) x ->
               scan_url env_value svc url
               = ([RateLimitWait; Post u] ++ attempts id (S k), x)).
    { intros x Hx. unfold scan_url. rewrite K, Hnorm.
      cbn [lift mbind]. rewrite !mbind_emit. rewrite Hs.
      rewrite (poll_loop_stops svc u id x k 12 0 Hk Hpend Hx).
      destruct Hcode as [-> | ->]; reflexivity. }
    cbn [Nat.add] in L.
    repeat split; intro P; apply L; rewrite P; constructor; exact C.
  - intros r Hr.
    destruct (scan_url_shape env_value svc url)
      as [[_ [K' | [e [N E]]]]
         | [key' [u' [_ [N [[_ [e E]] | [id [k [Hk [_ L]]]]]]]]]].
    + congruence.
    + congruence.
    + congruence.
    + rewrite Hnorm in N. injection N as <-.
      rewrite Hr in L. inversion L as [E | last x E St]; subst.
      inversion St as [E0 | s stats C0 E0 | E0 | s C0 E0 | s C0 E0].
      exists id, last, s, stats.
      split; [lia|]. split; [symmetry; exact E0|]. split; [exact C0|].
      split; reflexivity.
Qed.


End WithTables.



(** A service that is busy once and then answers with a list. *)
Definition service_list_answer : Service :=
  {| submit := fun _ => Response 200 (SubmitId (lit "u-1"));
     poll := fun k _ =>
               match k with
               | 0%nat => Response 200 (PollJSON (Some (lit "queued")) [])
               | _ => Response 200 PollOtherShape
               end |}.

Lemma scan_url_outcomes_witness :
  scan_url sample_key service_list_answer (lit "example.com")
  = ([RateLimitWait; Post (lit "http://example.com/")]
       ++ attempts (lit "u-1") 2,
     Raise AttributeError).
Proof.
  assert (Hkey : nonempty (strip sample_key) = true)
    by (vm_compute; reflexivity).
  assert (Hnorm : _normalize_url (lit "example.com")
                  = Ok (lit "http://example.com/"))
    by (vm_compute; reflexivity).
  destruct (scan_url_outcomes sample_key service_list_answer
              (lit "example.com") (lit "http://example.com/") Hkey Hnorm)
    as [_ [A _]].
  assert (Hpend : forall j, (j < 1)%nat ->
                    pending (poll service_list_answer j (lit "u-1")) = true).
  { intros j Hj. destruct j as [|j]; [reflexivity|lia]. }
  destruct (A 200%Z (lit "u-1") 1%nat (or_introl eq_refl) eq_refl
              ltac:(lia) Hpend) as [_ [B _]].
  apply B. reflexivity.
Defined.

Lemma scan_url_traffic_witness :
  exists rest,
    fst (scan_url sample_key service_queued (lit "example.com"))
    = RateLimitWait :: Post (lit "http://example.com/") :: rest
    /\ filter is_post rest = [].
Proof.
  destruct (scan_url_traffic sample_key service_queued (lit "example.com"))
    as [_ [_ [_ A]]].
  assert (H : fst (scan_url sample_key service_queued (lit "example.com"))
              <> []) by (vm_compute; discriminate).
  destruct (A H) as [key [u [rest [_ [N [E P]]]]]].
  assert (N' : _normalize_url (lit "example.com")
               = Ok (lit "http://example.com/"))
    by (vm_compute; reflexivity).
  rewrite N' in N. injection N as <-.
  exists rest. split; [exact E|exact P].
Defined.

End TrafficFacts.

(* ------------------------------------------------------------------ *)
(** ** The result of the statistical model                              *)
(* ------------------------------------------------------------------ *)

Module MlFacts.
Import MlEngine.

(** Rounding moves a number by at most one half. *)
Lemma Qround_half_even_near (q : Q) :
  q - (1 # 2) <= inject_Z (Qround_half_even q) <= q + (1 # 2).
Proof.
  unfold Qround_half_even.
  pose proof (Qfloor_le q) as F1. pose proof (Qlt_floor q) as F2.
  set (f := Qfloor q) in *.
  rewrite inject_Z_plus in F2. change (inject_Z 1) with 1 in F2.
  destruct (Qltb (q - inject_Z f) (1 # 2)) eqn:D1.
  - apply Qltb_lt in D1. split; lra.
  - apply Qltb_ge in D1.
    destruct (Qltb (1 # 2) (q - inject_Z f)) eqn:D2.
    + rewrite inject_Z_plus. change (inject_Z 1) with 1. split; lra.
    + apply Qltb_ge in D2. destruct (Z.even f).
      * split; lra.
      * rewrite inject_Z_plus. change (inject_Z 1) with 1. split; lra.
Qed.

(** [round(q, 2)] and [round(q, 3)] as an integer number of hundredths
    and of thousandths. *)
Lemma round_Q_2 (q : Q) :
  exists k : Z,
    round_Q q 2 == inject_Z k / 100
    /\ q * 100 - (1 # 2) <= inject_Z k <= q * 100 + (1 # 2).
Proof.
  exists (Qround_half_even (q * 100)). split; [reflexivity|].
  apply Qround_half_even_near.
Qed.

Lemma round_Q_3 (q : Q) :
  exists k : Z,
    round_Q q 3 == inject_Z k / 1000
    /\ q * 1000 - (1 # 2) <= inject_Z k <= q * 1000 + (1 # 2).
Proof.
  exists (Qround_half_even (q * 1000)). split; [reflexivity|].
  apply Qround_half_even_near.
Qed.

Lemma inject_Z_le_const (k c : Z) (x : Q) :
  inject_Z k <= x -> x < inject_Z (c + 1) -> (k <= c)%Z.
Proof.
  intros A B. assert (K : inject_Z k < inject_Z (c + 1))
    by (eapply Qle_lt_trans; eauto).
  rewrite <- Zlt_Qlt in K. lia.
Qed.

Lemma inject_Z_ge_const (k c : Z) (x : Q) :
  x <= inject_Z k -> inject_Z (c - 1) < x -> (c <= k)%Z.
Proof.
  intros A B. assert (K : inject_Z (c - 1) < inject_Z k)
    by (eapply Qlt_le_trans; eauto).
  rewrite <- Zlt_Qlt in K. lia.
Qed.

Ltac zconst :=
  match goal with
  | |- context [inject_Z ?z] =>
      let v := eval vm_compute in (inject_Z z) in
      change (inject_Z z) with v
  end.

Lemma Qmax_cases (a b : Q) :
  (b <= a /\ Qmax a b == a) \/ (a <= b /\ Qmax a b == b).
Proof.
  destruct (Qlt_le_dec a b) as [L|L].
  - right. split; [lra|]. apply Q.max_r. lra.
  - left. split; [exact L|]. apply Q.max_l. exact L.
Qed.

(** The three numbers of a result, for a probability between 0 and 1. *)
Lemma predict_numbers (p : Q) :
  0 <= p <= 1 ->
  exists k c : Z,
    round_Q (p * 100) 2 == inject_Z k / 100
    /\ round_Q (Qmax p (1 - p)) 3 == inject_Z c / 1000
    /\ (0 <= k <= 10000)%Z /\ (500 <= c <= 1000)%Z
    /\ ((k < 3000)%Z -> (700 <= c)%Z)
    /\ ((3000 <= k < 6500)%Z -> (c <= 700)%Z)
    /\ ((6500 <= k)%Z -> (650 <= c)%Z).
Proof.
  intros [P0 P1].
  destruct (round_Q_2 (p * 100)) as [k [Ek [K1 K2]]].
  destruct (round_Q_3 (Qmax p (1 - p))) as [c [Ec [C1 C2]]].
  exists k, c. split; [exact Ek|]. split; [exact Ec|].
  assert (Kz : forall z : Z, (k <= z)%Z <-> inject_Z k <= inject_Z z)
    by (intro z; rewrite Zle_Qle; reflexivity).
  assert (Kz' : forall z : Z, (z <= k)%Z <-> inject_Z z <= inject_Z k)
    by (intro z; rewrite Zle_Qle; reflexivity).
  assert (Cz : forall z : Z, (c <= z)%Z <-> inject_Z c <= inject_Z z)
    by (intro z; rewrite Zle_Qle; reflexivity).
  assert (Cz' : forall z : Z, (z <= c)%Z <-> inject_Z z <= inject_Z c)
    by (intro z; rewrite Zle_Qle; reflexivity).
  destruct (Qmax_cases p (1 - p)) as [[M1 M2] | [M1 M2]];
    rewrite M2 in C1, C2.
  - (* 1/2 <= p : the larger one is p *)
    split; [split|split; [split|split; [|split]]].
    + apply (inject_Z_ge_const k 0 _ K1); zconst; lra.
    + apply (inject_Z_le_const k 10000 _ K2); zconst; lra.
    + apply (inject_Z_ge_const c 500 _ C1); zconst; lra.
    + apply (inject_Z_le_const c 1000 _ C2); zconst; lra.
    + intro H. exfalso.
      assert (H' : (k <= 2999)%Z) by lia. apply Kz in H'.
      change (inject_Z 2999) with 2999 in H'. lra.
    + intros [_ H].
      assert (H' : (k <= 6499)%Z) by lia. apply Kz in H'.
      change (inject_Z 6499) with 6499 in H'.
      apply (inject_Z_le_const c 700 _ C2); zconst; lra.
    + intro H. apply Kz' in H. change (inject_Z 6500) with 6500 in H.
      apply (inject_Z_ge_const c 650 _ C1); zconst; lra.
  - (* p <= 1/2 : the larger one is 1 - p *)
    split; [split|split; [split|split; [|split]]].
    + apply (inject_Z_ge_const k 0 _ K1); zconst; lra.
    + apply (inject_Z_le_const k 10000 _ K2); zconst; lra.
    + apply (inject_Z_ge_const c 500 _ C1); zconst; lra.
    + apply (inject_Z_le_const c 1000 _ C2); zconst; lra.
    + intro H.
      assert (H' : (k <= 2999)%Z) by lia. apply Kz in H'.
      change (inject_Z 2999) with 2999 in H'.
      apply (inject_Z_ge_const c 700 _ C1); zconst; lra.
    + intros [H _]. apply Kz' in H. change (inject_Z 3000) with 3000 in H.
      apply (inject_Z_le_const c 700 _ C2); zconst; lra.
    + intro H. exfalso. apply Kz' in H.
      change (inject_Z 6500) with 6500 in H. lra.
Qed.

Lemma ml_classify_hundredths (q : Q) (k : Z) :
  q == inject_Z k / 100 ->
  (ml_classify q = Safe /\ (k < 3000)%Z)
  \/ (ml_classify q = Suspicious /\ (3000 <= k < 6500)%Z)
  \/ (ml_classify q = Phishing /\ (6500 <= k)%Z).
Proof.
  intro E. unfold ml_classify.
  assert (Lt : forall z : Z, q < inject_Z z -> (k < z * 100)%Z).
  { intros z H. rewrite E in H.
    assert (K : inject_Z k < inject_Z (z * 100)).
    { rewrite inject_Z_mult. change (inject_Z 100) with 100.
      assert (D : inject_Z k / 100 * 100 == inject_Z k) by field.
      lra. }
    rewrite <- Zlt_Qlt in K. exact K. }
  assert (Ge : forall z : Z, inject_Z z <= q -> (z * 100 <= k)%Z).
  { intros z H. rewrite E in H.
    assert (K : inject_Z (z * 100) <= inject_Z k).
    { rewrite inject_Z_mult. change (inject_Z 100) with 100.
      assert (D : inject_Z k / 100 * 100 == inject_Z k) by field.
      lra. }
    rewrite <- Zle_Qle in K. exact K. }
  destruct (Qltb q 30) eqn:A.
  - apply Qltb_lt in A. left. split; [reflexivity|].
    apply (Lt 30%Z) in A. lia.
  - apply Qltb_ge in A. apply (Ge 30%Z) in A.
    destruct (Qltb q 65) eqn:B.
    + apply Qltb_lt in B. apply (Lt 65%Z) in B.
      right. left. split; [reflexivity|lia].
    + apply Qltb_ge in B. apply (Ge 65%Z) in B.
      right. right. split; [reflexivity|lia].
Qed.

Lemma thousandths_le (c z : Z) (q : Q) :
  q == inject_Z c / 1000 -> (c <= z)%Z -> q <= inject_Z z / 1000.
Proof.
  intros E H. rewrite E. rewrite Zle_Qle in H.
  apply Qmult_le_compat_r with (z := / 1000) in H; [exact H|discriminate].
Qed.

Lemma thousandths_ge (c z : Z) (q : Q) :
  q == inject_Z c / 1000 -> (z <= c)%Z -> inject_Z z / 1000 <= q.
Proof.
  intros E H. rewrite E. rewrite Zle_Qle in H.
  apply Qmult_le_compat_r with (z := / 1000) in H; [exact H|discriminate].
Qed.

(** For a probability between 0 and 1, the result of [predict] has a
    risk score between 0 and 100 and a confidence between 0.5 and 1; it
    names the model as its engine, has one of the three verdicts, and no
    [features], [api_used] or [raw_stats] key. *)
Theorem predict_result_ranges (phishing_prob : Q) (lines : list reason) :
  0 <= phishing_prob <= 1 ->
  let r := predict_result phishing_prob lines in
  (0 <= risk_score r <= 100)%R
  /\ (1 # 2) <= confidence r <= 1
  /\ classification r <> Error
  /\ engine r = ML_RandomForest_v1_0
  /\ features r = None /\ api_used r = None /\ raw_stats r = None.
Proof.
  intro Hp. cbv zeta. unfold predict_result.
  cbn [risk_score confidence classification engine features api_used
       raw_stats].
  destruct (predict_numbers phishing_prob Hp)
    as [k [c [Ek [Ec [[K0 K1] [[C0 C1] _]]]]]].
  split; [|split; [|split; [|repeat split]]].
  - rewrite (Qeq_eqR _ _ Ek).
    assert (A : 0 <= inject_Z k / 100 <= 100).
    { rewrite Zle_Qle in K0, K1.
      change (inject_Z 0) with 0 in K0.
      change (inject_Z 10000) with 10000 in K1.
      split; [apply Qle_shift_div_l|apply Qle_shift_div_r];
        try reflexivity; lra. }
    destruct A as [A0 A1]. apply Qle_Rle in A0, A1.
    replace (Q2R 0) with 0%R in A0 by (unfold Q2R; cbn; lra).
    replace (Q2R 100) with 100%R in A1 by (unfold Q2R; cbn; lra).
    split; assumption.
  - split.
    + apply (thousandths_ge c 500 _ Ec) in C0.
      eapply Qle_trans; [|exact C0]. discriminate.
    + apply (thousandths_le c 1000 _ Ec) in C1.
      eapply Qle_trans; [exact C1|]. discriminate.
  - unfold ml_classify. destruct (Qltb _ 30); [discriminate|].
    destruct (Qltb _ 65); discriminate.
Qed.

(** The confidence that goes with each verdict of [predict]: at least
    0.7 with Safe, at most 0.7 with Suspicious, at least 0.65 with
    Phishing. *)
Theorem predict_confidence_by_verdict
        (phishing_prob : Q) (lines : list reason) :
  0 <= phishing_prob <= 1 ->
  let r := predict_result phishing_prob lines in
  (classification r = Safe -> (7 # 10) <= confidence r)
  /\ (classification r = Suspicious -> confidence r <= (7 # 10))
  /\ (classification r = Phishing -> (65 # 100) <= confidence r).
Proof.
  intro Hp. cbv zeta. unfold predict_result.
  cbn [confidence classification].
  destruct (predict_numbers phishing_prob Hp)
    as [k [c [Ek [Ec [_ [_ [S1 [S2 S3]]]]]]]].
  destruct (ml_classify_hundredths _ k Ek) as [[V B] | [[V B] | [V B]]];
    rewrite V; (split; [|split]); intro H; try discriminate.
  - apply (thousandths_ge c 700 _ Ec) in S1; [|exact B].
    eapply Qle_trans; [|exact S1]. discriminate.
  - apply (thousandths_le c 700 _ Ec) in S2; [|exact B].
    eapply Qle_trans; [exact S2|]. discriminate.
  - apply (thousandths_ge c 650 _ Ec) in S3; [|exact B].
    eapply Qle_trans; [|exact S3]. discriminate.
Qed.

Lemma predict_result_ranges_witness :
  (1 # 2) <= confidence (predict_result (1 # 3) [ModelLine]) <= 1.
Proof.
  assert (H : 0 <= (1 # 3) <= 1) by (split; discriminate).
  destruct (predict_result_ranges (1 # 3) [ModelLine] H) as [_ [A _]].
  exact A.
Defined.

Lemma predict_confidence_by_verdict_witness :
  classification (predict_result (1 # 3) [ModelLine]) = Suspicious
  /\ confidence (predict_result (1 # 3) [ModelLine]) <= (7 # 10).
Proof.
  assert (H : 0 <= (1 # 3) <= 1) by (split; discriminate).
  destruct (predict_confidence_by_verdict (1 # 3) [ModelLine] H)
    as [_ [A _]].
  assert (V : classification (predict_result (1 # 3) [ModelLine])
              = Suspicious) by (vm_compute; reflexivity).
  split; [exact V|exact (A V)].
Defined.

End MlFacts.

(* ------------------------------------------------------------------ *)
(** ** The colour shown with a verdict                                  *)
(* ------------------------------------------------------------------ *)

Module ColourFacts.
Import Py HeuristicEngine ApiClient MlEngine RiskDisplay.

(** The colour that stands for a verdict. *)
Definition colour_for (c : Classification) : option QColor :=
  match c with
  | Safe => Some SUCCESS
  | Suspicious => Some WARNING
  | Phishing => Some DANGER
  | Error => None
  end.

Lemma risk_color_bucket (score : R) :
  ((score < 30)%R /\ _risk_color score = SUCCESS)
  \/ ((30 <= score < 65)%R /\ _risk_color score = WARNING)
  \/ ((65 <= score)%R /\ _risk_color score = DANGER).
Proof.
  unfold _risk_color.
  destruct (Rlt_dec score 30); [left; auto|].
  destruct (Rlt_dec score 65); [right; left|right; right]; split; auto; lra.
Qed.

(** Rounding to two places does not cross a number of whole points. *)
Lemma round_R_2_keeps (x : R) (z : Z) :
  (0 <= x <= 100)%R -> (0 <= z <= 100)%Z ->
  ((IZR z <= x)%R -> (IZR z <= round_R x 2)%R)
  /\ ((x <= IZR z)%R -> (round_R x 2 <= IZR z)%R).
Proof.
  intros Hx Hz. unfold round_R.
  replace (10 ^ 2)%R with 100%R by (simpl; lra).
  assert (Z0 : (0 <= IZR z <= 100)%R)
    by (split; [apply (IZR_le 0)|apply (IZR_le z 100)]; lia).
  split; intro H.
  - assert (B : (IZR (z * 100) <= x * 100 <= IZR 10000)%R)
      by (rewrite mult_IZR; lra).
    apply HeuristicFacts.Rround_half_even_bounds in B. destruct B as [B _].
    apply IZR_le in B. rewrite mult_IZR in B. lra.
  - assert (B : (IZR 0 <= x * 100 <= IZR (z * 100))%R)
      by (rewrite mult_IZR; lra).
    apply HeuristicFacts.Rround_half_even_bounds in B. destruct B as [_ B].
    apply IZR_le in B. rewrite mult_IZR in B. lra.
Qed.

Lemma Q2R_const (z : Z) : Q2R (inject_Z z) = IZR z.
Proof. apply Q2R_inject_Z. Qed.

Lemma Q2R_lt_const (q : Q) (z : Z) :
  q < inject_Z z <-> (Q2R q < IZR z)%R.
Proof.
  rewrite <- Q2R_const. split; [apply Qlt_Rlt|apply Rlt_Qlt].
Qed.

Lemma Q2R_ge_const (q : Q) (z : Z) :
  inject_Z z <= q <-> (IZR z <= Q2R q)%R.
Proof.
  rewrite <- Q2R_const. split; [apply Qle_Rle|apply Rle_Qle].
Qed.

Section WithTables.
Context {T : Tables}.

(** For the two local engines the colour goes with the verdict.  The
    result of [predict] always has the colour of its verdict.  The result
    of [analyze_url] never has a milder colour than its verdict, and has
    exactly the colour of its verdict unless its [risk_score] is 30 or 65:
    the verdict is taken from the score before rounding and the colour from
    the rounded score. *)
Theorem colour_of_local_verdicts :
  (forall phishing_prob lines,
      let r := predict_result phishing_prob lines in
      colour_for (classification r) = Some (_risk_color (risk_score r)))
  /\ (forall url r,
         analyze_url url = Ok r ->
         (classification r = Phishing -> _risk_color (risk_score r) = DANGER)
         /\ (classification r = Suspicious ->
             _risk_color (risk_score r) <> SUCCESS)
         /\ (risk_score r <> 30%R -> risk_score r <> 65%R ->
             colour_for (classification r)
             = Some (_risk_color (risk_score r)))).
Proof.
  split.
  - intros p lines. cbv zeta. unfold predict_result.
    cbn [classification risk_score]. set (q := round_Q (p * 100) 2).
    unfold ml_classify.
    destruct (risk_color_bucket (Q2R q)) as [[B C] | [[B C] | [B C]]];
      rewrite C.
    + assert (A : q < 30) by (apply (Q2R_lt_const q 30); exact B).
      apply Qltb_lt in A. rewrite A. reflexivity.
    + destruct B as [B1 B2].
      assert (A1 : 30 <= q) by (apply (Q2R_ge_const q 30); exact B1).
      assert (A2 : q < 65) by (apply (Q2R_lt_const q 65); exact B2).
      apply Qltb_ge in A1. apply Qltb_lt in A2. rewrite A1, A2. reflexivity.
    + assert (A2 : 65 <= q) by (apply (Q2R_ge_const q 65); exact B).
      assert (A1 : 30 <= q) by lra.
      apply Qltb_ge in A1, A2. rewrite A1, A2. reflexivity.
  - intros url r H.
    destruct (ScoreFacts.analyze_url_assess url r H) as [parsed [_ ->]].
    unfold assess. cbn [classification risk_score].
    set (s := clamp (total_score (prepare url) parsed)).
    pose proof (HeuristicFacts.clamp_range
                  (total_score (prepare url) parsed)) as Hs.
    fold s in Hs.
    destruct (round_R_2_keeps s 30 Hs ltac:(lia)) as [L30 U30].
    destruct (round_R_2_keeps s 65 Hs ltac:(lia)) as [L65 U65].
    destruct (HeuristicFacts.classify_bucket s) as [[B C] | [[B C] | [B C]]];
      rewrite C;
      destruct (risk_color_bucket (round_R s 2)) as [[D E] | [[D E] | [D E]]];
      rewrite E; cbn [colour_for];
      (split; [|split]); intros; try discriminate; try reflexivity;
      try (exfalso; lra).
Qed.

(** For a result of the reputation client the colour is never harsher
    than the verdict, and it is milder for a [risk_score] from 15 to under
    30 (Suspicious, shown in the colour of Safe) and from 50 to under 65
    (Phishing, shown in the colour of Suspicious). *)
Theorem colour_of_api_verdicts (url : str) (stats : dict) :
  let r := _build_result url stats in
  (_risk_color (risk_score r) = DANGER -> classification r = Phishing)
  /\ (_risk_color (risk_score r) = WARNING -> classification r <> Safe)
  /\ (15 <= vt_risk_score stats < 30 ->
      classification r = Suspicious /\ _risk_color (risk_score r) = SUCCESS)
  /\ (50 <= vt_risk_score stats < 65 ->
      classification r = Phishing /\ _risk_color (risk_score r) = WARNING).
Proof.
  cbv zeta. unfold _build_result. cbn [classification risk_score].
  set (q := vt_risk_score stats). unfold vt_classify.
  assert (Lt : forall z : Z, q < inject_Z z -> (Q2R q < IZR z)%R)
    by (intro z; apply Q2R_lt_const).
  assert (Ge : forall z : Z, inject_Z z <= q -> (IZR z <= Q2R q)%R)
    by (intro z; apply Q2R_ge_const).
  destruct (risk_color_bucket (Q2R q)) as [[D E] | [[D E] | [D E]]];
    rewrite E;
    (destruct (Qltb q 15) eqn:A;
     [apply Qltb_lt in A; apply (Lt 15%Z) in A
     |apply Qltb_ge in A; pose proof (Ge 15%Z A) as A';
      destruct (Qltb q 50) eqn:B;
      [apply Qltb_lt in B; pose proof (Lt 50%Z B) as B'
      |apply Qltb_ge in B; pose proof (Ge 50%Z B) as B']]);
    (split; [|split; [|split]]);
    try (intros [H1 H2]; pose proof (Ge _ H1); pose proof (Lt _ H2));
    try intro; try discriminate; try (exfalso; lra);
    try (split; reflexivity); try reflexivity.
Qed.

End WithTables.

Lemma colour_of_local_verdicts_witness :
  (exists r,
      analyze_url PhishFacts.phish_url = Ok r
      /\ classification r = Phishing
      /\ _risk_color (risk_score r) = DANGER
      /\ colour_for (classification r) = Some (_risk_color (risk_score r)))
  /\ (exists r,
         analyze_url PhishFacts.susp_url = Ok r
         /\ classification r = Suspicious
         /\ _risk_color (risk_score r) <> SUCCESS).
Proof.
  destruct colour_of_local_verdicts as [_ A].
  split.
  - destruct PhishFacts.phish_result as [E [C [S _]]].
    destruct (A _ _ E) as [B [_ D]].
    exists (assess PhishFacts.phish_url PhishFacts.phish_parsed).
    split; [exact E|]. split; [exact C|]. split; [exact (B C)|].
    apply D; rewrite S; lra.
  - destruct PhishFacts.susp_result as [E [C _]].
    destruct (A _ _ E) as [_ [B _]].
    exists (assess PhishFacts.susp_url PhishFacts.susp_parsed).
    split; [exact E|]. split; [exact C|exact (B C)].
Defined.

Lemma colour_of_api_verdicts_witness :
  let r := _build_result (lit "http://example.com/")
             [("malicious"%string, 1%Z); ("harmless"%string, 4%Z)] in
  classification r = Suspicious /\ _risk_color (risk_score r) = SUCCESS.
Proof.
  destruct (colour_of_api_verdicts (lit "http://example.com/")
              [("malicious"%string, 1%Z); ("harmless"%string, 4%Z)])
    as [_ [_ [A _]]].
  apply A. split; vm_compute; [discriminate|reflexivity].
Defined.

End ColourFacts.

(* ------------------------------------------------------------------ *)
(** ** The gauge                                                        *)
(* ------------------------------------------------------------------ *)

Module GaugeFacts.
Import RiskDisplay.

Lemma ticks_add (a b : nat) (g : RiskGauge) :
  ticks (a + b) g = ticks b (ticks a g).
Proof.
  revert g. induction a as [|a IH]; intro g; [reflexivity|].
  cbn [Nat.add ticks]. apply IH.
Qed.

Lemma ticks_stopped (n : nat) (g : RiskGauge) :
  timer_active g = false -> ticks n g = g.
Proof.
  intro H. induction n as [|n IH]; [reflexivity|].
  cbn [ticks]. unfold tick. rewrite H. exact IH.
Qed.

(** What one period does to a running gauge. *)
Lemma tick_running (g : RiskGauge) :
  timer_active g = true ->
  _target (tick g) = _target g /\ _label (tick g) = _label g
  /\ ((Qabs (_target g - _score g) < (1 # 2)
       /\ timer_active (tick g) = false /\ _score (tick g) = _target g)
      \/ ((1 # 2) <= Qabs (_target g - _score g)
          /\ timer_active (tick g) = true
          /\ _score (tick g)
             = _score g + (_target g - _score g) * (12 # 100))).
Proof.
  intro H. unfold tick. rewrite H. unfold _animate.
  destruct (Qltb (Qabs (_target g - _score g)) (1 # 2)) eqn:D.
  - apply Qltb_lt in D. cbn [_target _label _score timer_active].
    split; [reflexivity|]. split; [reflexivity|]. left. auto.
  - apply Qltb_ge in D. cbn [_target _label _score timer_active].
    split; [reflexivity|]. split; [reflexivity|]. right. auto.
Qed.

(** The displayed score stays between two bounds that hold the score and
    the target. *)
Lemma ticks_between (lo hi : Q) (n : nat) :
  forall g,
    lo <= _score g <= hi -> lo <= _target g <= hi ->
    lo <= _score (ticks n g) <= hi /\ _target (ticks n g) = _target g.
Proof.
  induction n as [|n IH]; intros g Hs Ht; [auto|].
  cbn [ticks].
  assert (Step : lo <= _score (tick g) <= hi /\ _target (tick g) = _target g).
  { destruct (timer_active g) eqn:A.
    - destruct (tick_running g A)
        as [E1 [_ [[_ [_ E2]] | [_ [_ E2]]]]]; rewrite E2;
        (split; [|exact E1]); [exact Ht|split; lra].
    - unfold tick. rewrite A. auto. }
  destruct Step as [S1 S2].
  assert (Ht' : lo <= _target (tick g) <= hi) by (rewrite S2; exact Ht).
  destruct (IH (tick g) S1 Ht') as [I1 I2].
  rewrite I2, S2. auto.
Qed.

(** After [set_score] the displayed score moves towards the clamped
    target without passing it: it stays between the score it had and the
    target, and so between 0 and 100 when it started there. *)
Theorem gauge_no_overshoot
        (g : RiskGauge) (score : Q) (label : string) (n : nat) :
  0 <= _score g <= 100 ->
  let g' := ticks n (set_score g score label) in
  _target g' = Qmax 0 (Qmin 100 score)
  /\ 0 <= _target g' <= 100
  /\ 0 <= _score g' <= 100
  /\ Qmin (_score g) (_target g') <= _score g'
     <= Qmax (_score g) (_target g').
Proof.
  intros Hs. cbv zeta.
  set (t := Qmax 0 (Qmin 100 score)).
  assert (Ht : 0 <= t <= 100).
  { unfold t. split; [apply Q.le_max_l|].
    apply Q.max_lub; [discriminate|apply Q.le_min_l]. }
  destruct (ticks_between 0 100 n (set_score g score label) Hs Ht)
    as [B1 B2].
  assert (M1 : Qmin (_score g) t <= _score (set_score g score label)
               <= Qmax (_score g) t)
    by (cbn; split; [apply Q.le_min_l|apply Q.le_max_l]).
  assert (M2 : Qmin (_score g) t <= _target (set_score g score label)
               <= Qmax (_score g) t)
    by (cbn; fold t; split; [apply Q.le_min_r|apply Q.le_max_r]).
  destruct (ticks_between _ _ n (set_score g score label) M1 M2) as [C1 _].
  rewrite B2. cbn [set_score _target]. fold t.
  split; [reflexivity|]. split; [exact Ht|]. split; [exact B1|exact C1].
Qed.

(** The distance that is left after [n] periods of the easing. *)
Fixpoint shrink (n : nat) (d : Q) : Q :=
  match n with
  | O => d
  | S n' => shrink n' (d * (22 # 25))
  end.

Lemma ticks_shrink (n : nat) :
  forall g d,
    timer_active g = true ->
    Qabs (_target g - _score g) <= d ->
    _target (ticks n g) = _target g /\ _label (ticks n g) = _label g
    /\ ((timer_active (ticks n g) = false
         /\ _score (ticks n g) = _target g)
        \/ (timer_active (ticks n g) = true
            /\ Qabs (_target g - _score (ticks n g)) <= shrink n d)).
Proof.
  induction n as [|n IH]; intros g d A D.
  - cbn [ticks shrink]. auto.
  - cbn [ticks shrink].
    destruct (tick_running g A)
      as [E1 [E2 [[_ [F1 F2]] | [_ [F1 F2]]]]].
    + rewrite (ticks_stopped n (tick g) F1). rewrite E1, E2. auto.
    + assert (D' : Qabs (_target (tick g) - _score (tick g))
                   <= d * (22 # 25)).
      { rewrite E1, F2.
        apply Qabs_Qle_condition in D. apply Qabs_Qle_condition.
        split; lra. }
      destruct (IH (tick g) (d * (22 # 25)) F1 D') as [I1 [I2 I3]].
      rewrite I1, I2, E1, E2. split; [reflexivity|]. split; [reflexivity|].
      rewrite E1 in I3. exact I3.
Qed.

Lemma shrink_42 : shrink 42 100 < (1 # 2).
Proof. vm_compute. reflexivity. Qed.

(** A gauge whose displayed score is between 0 and 100 reaches the
    clamped target within 43 periods of the timer after [set_score]: from
    then on the displayed score is the target and the timer is stopped. *)
Theorem gauge_settles
        (g : RiskGauge) (score : Q) (label : string) (n : nat) :
  0 <= _score g <= 100 ->
  (43 <= n)%nat ->
  ticks n (set_score g score label)
  = {| _score := Qmax 0 (Qmin 100 score);
       _target := Qmax 0 (Qmin 100 score);
       _label := label;
       timer_active := false |}.
Proof.
  intros Hs Hn.
  set (t := Qmax 0 (Qmin 100 score)).
  set (g0 := set_score g score label).
  assert (Ht : 0 <= t <= 100).
  { unfold t. split; [apply Q.le_max_l|].
    apply Q.max_lub; [discriminate|apply Q.le_min_l]. }
  assert (D : Qabs (_target g0 - _score g0) <= 100).
  { change (Qabs (t - _score g) <= 100).
    apply Qabs_Qle_condition. split; lra. }
  destruct (ticks_shrink 42 g0 100 eq_refl D) as [I1 [I2 I3]].
  change (_target g0) with t in *. change (_label g0) with label in *.
  assert (S43 : ticks 43 g0
                = {| _score := t; _target := t; _label := label;
                     timer_active := false |}).
  { change 43%nat with (42 + 1)%nat. rewrite ticks_add.
    destruct (ticks 42 g0) as [s42 t42 l42 a42] eqn:E.
    cbn [_target _label _score timer_active] in *. subst t42 l42.
    destruct I3 as [[-> ->] | [-> I3]].
    - reflexivity.
    - cbn [ticks]. unfold tick, _animate.
      cbn [_target _label _score timer_active].
      assert (L : Qltb (Qabs (t - s42)) (1 # 2) = true).
      { apply Qltb_lt. eapply Qle_lt_trans; [exact I3|apply shrink_42]. }
      rewrite L. reflexivity. }
  replace n with (43 + (n - 43))%nat by lia.
  rewrite ticks_add, S43. apply ticks_stopped. reflexivity.
Qed.

Lemma gauge_no_overshoot_witness :
  0 <= _score (ticks 10 (set_score new_gauge 250 "Phishing")) <= 100.
Proof.
  assert (H : 0 <= _score new_gauge <= 100) by (split; discriminate).
  destruct (gauge_no_overshoot new_gauge 250 "Phishing" 10 H)
    as [_ [_ [A _]]].
  exact A.
Defined.

Lemma gauge_settles_witness :
  ticks 43 (set_score new_gauge 250 "Phishing")
  = {| _score := 100; _target := 100; _label := "Phishing";
       timer_active := false |}.
Proof.
  assert (H : 0 <= _score new_gauge <= 100) by (split; discriminate).
  exact (gauge_settles new_gauge 250 "Phishing" 43 H (le_n 43)).
Defined.

End GaugeFacts.

(* ------------------------------------------------------------------ *)
(** ** The kinds of result of a scan                                    *)
(* ------------------------------------------------------------------ *)

Module ScanKindFacts.
Import Py ApiClient ScannerTab.

Section WithTables.
Context {T : Tables}.



End WithTables.
End ScanKindFacts.

(* ------------------------------------------------------------------ *)
(** ** What a normalized URL looks like                                 *)
(* ------------------------------------------------------------------ *)

Module NormalFormFacts.
Import Py UrlLib ApiClient StrFacts ParseFacts PlainFacts IdempotenceFacts.

(** A character of the authority of a normalized URL: an ASCII character
    of code 33 to 126 (so not the space), none of [';'], ['['], [']'],
    ['/'], ['?'], ['#'] and ['@'], and no upper-case letter. *)
Definition authority_char (c : N) : bool :=
  plainb c && negb (isdelim c) && negb (c =? 64)%N
  && negb (is_ascii_upper c).

Lemma char_range (c : N) (lo hi : N) :
  ((lo <=? c) && (c <=? hi))%N = true <-> (lo <= c <= hi)%N.
Proof. rewrite andb_true_iff, !N.leb_le. tauto. Qed.

Lemma lowered_authority_char (c : N) :
  hostcharb c = true -> authority_char (ascii_lower c) = true.
Proof.
  intro H. pose proof (ascii_lower_hostchar c H) as L.
  unfold authority_char. unfold hostcharb in L.
  rewrite !andb_true_iff in L. destruct L as [[[L1 L2] L3] _].
  rewrite L1, L2, L3. cbn [andb].
  unfold ascii_lower, is_ascii_upper.
  destruct ((65 <=? c) && (c <=? 90))%N eqn:U.
  - apply char_range in U. apply negb_true_iff.
    apply andb_false_iff. right. apply N.leb_gt. lia.
  - rewrite U. reflexivity.
Qed.

Lemma digit_authority_char (c : N) :
  is_ascii_digit c = true -> authority_char c = true.
Proof.
  unfold is_ascii_digit. intro H. apply char_range in H.
  unfold authority_char, plainb, isdelim, is_ascii_upper.
  repeat match goal with
         | |- context [(?a <=? ?b)%N] =>
             let E := fresh in
             destruct (N.leb_spec a b) as [E|E]; try lia
         | |- context [(?a =? ?b)%N] =>
             let E := fresh in
             destruct (N.eqb_spec a b) as [E|E]; try lia
         end; reflexivity.
Qed.

Lemma port_text_authority (port : option N) :
  forallb authority_char (port_text port) = true.
Proof.
  destruct (port_text_hostchar_or_colon port) as [-> | [p [_ ->]]];
    [reflexivity|].
  cbn [forallb]. rewrite andb_true_iff. split; [reflexivity|].
  apply (forallb_impl is_ascii_digit); [exact digit_authority_char|].
  apply (chars_of_uint_digits (N.to_uint p)).
Qed.

Section WithTables.
Context {T : Tables}.

(** The normal form of an input whose characters are all ASCII of code 33
    to 126 (no space and no control character) other than [';'], ['[']
    and [']']: the scheme [http] or [https], then an authority of such
    characters without ['/'], ['?'], ['#'] and ['@'] (so without user name
    and password) and without upper-case letters, then a path that starts
    with ['/'], with the query when there is one and without the
    fragment. *)
Theorem normalize_output_shape (u v : str) :
  plain u -> _normalize_url u = Ok v ->
  exists S authority tail,
    v = S ++ lit "://" ++ authority ++ tail
    /\ (S = lit "http" \/ S = lit "https")
    /\ forallb authority_char authority = true
    /\ (exists t, tail = 47%N :: t)
    /\ mem 35 tail = false.
Proof.
  intros Hu Hn.
  destruct (normalize_shape u v Hu Hn) as [S [hn [op [P [Qy [W ->]]]]]].
  destruct W as [WS WH WP WPa WPh WPq WPhd WQ WQh].
  exists S, (List.map ascii_lower hn ++ port_text op),
    (path_text P ++ query_text Qy).
  split; [reflexivity|]. split; [exact WS|]. split; [|split].
  - rewrite forallb_app. apply andb_true_iff. split.
    + apply (forallb_map_impl ascii_lower hostcharb);
        [exact lowered_authority_char|exact WH].
    + apply port_text_authority.
  - destruct (path_text_head P WPhd) as [t Ht]. rewrite Ht.
    exists (t ++ query_text Qy). reflexivity.
  - rewrite mem_app. apply orb_false_iff. split.
    + apply mem_false_iff. apply path_text_sub; [reflexivity|].
      apply mem_false_iff. exact WPh.
    + destruct (query_text_cases Qy) as [[_ ->] | ->]; [reflexivity|].
      unfold mem. cbn [existsb]. exact WQh.
Qed.

End WithTables.

Lemma normalize_output_shape_witness :
  exists S authority tail,
    lit "http://example.com:8080/a"
    = S ++ lit "://" ++ authority ++ tail
    /\ (S = lit "http" \/ S = lit "https")
    /\ forallb authority_char authority = true
    /\ (exists t, tail = 47%N :: t)
    /\ mem 35 tail = false.
Proof.
  apply (normalize_output_shape
           (lit "http://user:pw@Example.COM:8080/a/#top")).
  - vm_compute. reflexivity.
  - vm_compute. reflexivity.
Defined.

End NormalFormFacts.

(* ------------------------------------------------------------------ *)
(** ** The lines of a report and the feature values                     *)
(* ------------------------------------------------------------------ *)

Module ReportFacts.
Import Py UrlLib HeuristicEngine.

(** A line is in the report when one of the checks yields it. *)
Lemma in_fired {A B} (l : B) (cs : list (option (A * B))) :
  In l (List.map snd
          (flat_map (fun c => match c with Some x => [x] | None => [] end) cs))
  <-> exists p, In (Some (p, l)) cs.
Proof.
  induction cs as [|[[p0 l0]|] cs IH]; cbn [flat_map app List.map In snd].
  - split; [tauto|intros [p []]].
  - rewrite IH. split.
    + intros [<- | [p H]]; [exists p0; auto|exists p; auto].
    + intros [p [H | H]]; [left; congruence|right; exists p; exact H].
  - rewrite IH. split.
    + intros [p H]. exists p. auto.
    + intros [p [H | H]]; [discriminate|exists p; exact H].
Qed.

Lemma in_lines_of (l : reason) (fired : list (R * reason)) :
  l <> NoIndicators ->
  (In l (ScoreFacts.lines_of fired) <-> In l (List.map snd fired)).
Proof.
  intro H. destruct fired as [|x fired]; [|reflexivity].
  cbn. split; [intros [E | []]; congruence|tauto].
Qed.

Lemma inR_Some (c : option (Q * reason)) (p : R) (l : reason) :
  inR c = Some (p, l) <-> exists q, c = Some (q, l) /\ p = Q2R q.
Proof.
  destruct c as [[q l0]|]; cbn.
  - split.
    + intro H. injection H as <- <-. exists q. auto.
    + intros [q0 [H ->]]. injection H as <- <-. reflexivity.
  - split; [discriminate|intros [q [H _]]; discriminate].
Qed.

Section WithTables.
Context {T : Tables}.

Lemma fired_line (url : str) (parsed : ParseResult) (l : reason) :
  l <> NoIndicators ->
  (In l (reasoning (assess url parsed))
   <-> exists p, In (Some (p, l))
         [ inR (check_domain_length (host_of parsed));
           check_entropy (host_of parsed);
           inR (check_hyphens (host_of parsed));
           inR (check_keywords (host_of parsed ++ path parsed));
           inR (check_tld (host_of parsed));
           inR (check_ip (host_of parsed));
           inR (check_subdomains (host_of parsed));
           inR (check_homographs (host_of parsed));
           inR (check_brands (host_of parsed));
           inR (check_https parsed);
           inR (check_path_depth (path parsed));
           inR (check_at_sign url);
           inR (check_digit_ratio (host_of parsed)) ]).
Proof.
  intro H. rewrite ScoreFacts.assess_reasoning, (in_lines_of l _ H).
  unfold fired_checks. apply in_fired.
Qed.

(** What each check says when it fires. *)
Lemma kind_domain_length (host : str) (q : Q) (l : reason) :
  check_domain_length host = Some (q, l) ->
  l = LongDomain (length host) /\ (30 < length host)%nat.
Proof.
  unfold check_domain_length.
  destruct (30 <? length host)%nat eqn:E; [|discriminate].
  intro H. injection H as _ <-. apply Nat.ltb_lt in E. auto.
Qed.

Lemma kind_entropy (host : str) (p : R) (l : reason) :
  check_entropy host = Some (p, l) -> l = HighEntropy.
Proof.
  unfold check_entropy.
  destruct (Rlt_dec (38 / 10) (_shannon_entropy host)); [|discriminate].
  intro H. injection H as _ <-. reflexivity.
Qed.

Lemma kind_hyphens (host : str) (q : Q) (l : reason) :
  check_hyphens host = Some (q, l) ->
  l = MultipleHyphens (count 45 host) /\ (2 <= count 45 host)%nat.
Proof.
  unfold check_hyphens.
  destruct (2 <=? count 45 host)%nat eqn:E; [|discriminate].
  intro H. injection H as _ <-. apply Nat.leb_le in E. auto.
Qed.

Lemma kind_keywords (full : str) (q : Q) (l : reason) :
  check_keywords full = Some (q, l) ->
  l = SuspiciousKeywords (find_keywords full) /\ find_keywords full <> [].
Proof.
  unfold check_keywords.
  destruct (find_keywords full) as [|k ks]; [discriminate|].
  intro H. cbn [nonempty] in H. injection H as _ <-.
  split; [reflexivity|discriminate].
Qed.

Lemma kind_tld (host : str) (q : Q) (l : reason) :
  check_tld host = Some (q, l) -> l = HighRiskTLD.
Proof.
  unfold check_tld.
  destruct (negb (Qeq_bool (tld_risk host) 0)); [|discriminate].
  intro H. injection H as _ <-. reflexivity.
Qed.

Lemma kind_ip (host : str) (q : Q) (l : reason) :
  check_ip host = Some (q, l) ->
  l = RawIPAddress /\ _is_ip_address host = true.
Proof.
  unfold check_ip.
  destruct (_is_ip_address host); [|discriminate].
  intro H. injection H as _ <-. auto.
Qed.

Lemma kind_subdomains (host : str) (q : Q) (l : reason) :
  check_subdomains host = Some (q, l) ->
  l = DeepSubdomains (subdomain_depth_of host)
  /\ (3 <= subdomain_depth_of host)%Z.
Proof.
  unfold check_subdomains.
  destruct (3 <=? subdomain_depth_of host)%Z eqn:E; [|discriminate].
  intro H. injection H as _ <-. apply Z.leb_le in E. auto.
Qed.

Lemma kind_homographs (host : str) (q : Q) (l : reason) :
  check_homographs host = Some (q, l) ->
  l = HomographChars (_detect_homographs host)
  /\ _detect_homographs host <> [].
Proof.
  unfold check_homographs.
  destruct (_detect_homographs host) as [|h hs]; [discriminate|].
  intro H. cbn [nonempty] in H. injection H as _ <-.
  split; [reflexivity|discriminate].
Qed.

Lemma kind_brands (host : str) (q : Q) (l : reason) :
  check_brands host = Some (q, l) -> exists names, l = BrandSpoofing names.
Proof.
  unfold check_brands.
  destruct (nonempty (_detect_brand_spoofing host)); [|discriminate].
  intro H. injection H as _ <-. eexists. reflexivity.
Qed.

Lemma kind_https (parsed : ParseResult) (q : Q) (l : reason) :
  check_https parsed = Some (q, l) ->
  l = NoHTTPS /\ uses_https_of parsed = false.
Proof.
  unfold check_https.
  destruct (uses_https_of parsed); [discriminate|].
  intro H. cbn [negb] in H. injection H as _ <-. auto.
Qed.

Lemma kind_path_depth (path : str) (q : Q) (l : reason) :
  check_path_depth path = Some (q, l) ->
  l = DeepPath (path_depth_of path) /\ (5 < path_depth_of path)%nat.
Proof.
  unfold check_path_depth.
  destruct (5 <? path_depth_of path)%nat eqn:E; [|discriminate].
  intro H. injection H as _ <-. apply Nat.ltb_lt in E. auto.
Qed.

Lemma kind_at_sign (url : str) (q : Q) (l : reason) :
  check_at_sign url = Some (q, l) -> l = AtSign /\ mem 64 url = true.
Proof.
  unfold check_at_sign.
  destruct (mem 64 url); [|discriminate].
  intro H. injection H as _ <-. auto.
Qed.

Lemma kind_digit_ratio (host : str) (q : Q) (l : reason) :
  check_digit_ratio host = Some (q, l) -> l = HighDigitRatio.
Proof.
  unfold check_digit_ratio.
  destruct (Qltb (3 # 10) (digit_ratio_of host)); [|discriminate].
  intro H. injection H as _ <-. reflexivity.
Qed.

(** The line of a fired check, with what the check found. *)
Inductive backed (url : str) (parsed : ParseResult) : reason -> Prop :=
| b_domain_length :
    (30 < length (host_of parsed))%nat ->
    backed url parsed (LongDomain (length (host_of parsed)))
| b_entropy : backed url parsed HighEntropy
| b_hyphens :
    (2 <= count 45 (host_of parsed))%nat ->
    backed url parsed (MultipleHyphens (count 45 (host_of parsed)))
| b_keywords :
    find_keywords (host_of parsed ++ path parsed) <> [] ->
    backed url parsed
           (SuspiciousKeywords (find_keywords (host_of parsed ++ path parsed)))
| b_tld : backed url parsed HighRiskTLD
| b_ip :
    _is_ip_address (host_of parsed) = true -> backed url parsed RawIPAddress
| b_subdomains :
    (3 <= subdomain_depth_of (host_of parsed))%Z ->
    backed url parsed (DeepSubdomains (subdomain_depth_of (host_of parsed)))
| b_homographs :
    _detect_homographs (host_of parsed) <> [] ->
    backed url parsed (HomographChars (_detect_homographs (host_of parsed)))
| b_brands (names : list str) : backed url parsed (BrandSpoofing names)
| b_https :
    uses_https_of parsed = false -> backed url parsed NoHTTPS
| b_path_depth :
    (5 < path_depth_of (path parsed))%nat ->
    backed url parsed (DeepPath (path_depth_of (path parsed)))
| b_at_sign : mem 64 url = true -> backed url parsed AtSign
| b_digit_ratio : backed url parsed HighDigitRatio.

Lemma inR_kind (c : option (Q * reason)) (p : R) (l : reason) :
  inR c = Some (p, l) -> exists q, c = Some (q, l).
Proof. intro H. apply inR_Some in H. destruct H as [q [H _]]. eauto. Qed.

Lemma fired_backed (url : str) (parsed : ParseResult) (l : reason) :
  l <> NoIndicators ->
  In l (reasoning (assess url parsed)) -> backed url parsed l.
Proof.
  intros Hl H. apply (fired_line url parsed l Hl) in H.
  destruct H as [p H]. cbn [In] in H.
  destruct H as [H|[H|[H|[H|[H|[H|[H|[H|[H|[H|[H|[H|[H|[]]]]]]]]]]]]]];
    try (apply inR_kind in H; destruct H as [q H]).
  - apply kind_domain_length in H. destruct H as [-> H]. constructor. exact H.
  - apply kind_entropy in H. subst l. constructor.
  - apply kind_hyphens in H. destruct H as [-> H]. constructor. exact H.
  - apply kind_keywords in H. destruct H as [-> H]. constructor. exact H.
  - apply kind_tld in H. subst l. constructor.
  - apply kind_ip in H. destruct H as [-> H]. constructor. exact H.
  - apply kind_subdomains in H. destruct H as [-> H]. constructor. exact H.
  - apply kind_homographs in H. destruct H as [-> H]. constructor. exact H.
  - apply kind_brands in H. destruct H as [names ->]. constructor.
  - apply kind_https in H. destruct H as [-> H]. constructor. exact H.
  - apply kind_path_depth in H. destruct H as [-> H]. constructor. exact H.
  - apply kind_at_sign in H. destruct H as [-> H]. constructor. exact H.
  - apply kind_digit_ratio in H. subst l. constructor.
Qed.

Ltac line_cases K :=
  split;
  [ intro K; apply fired_backed in K; [|discriminate]; inversion K
  | intro K; apply fired_line; [discriminate|] ].

Lemma line_ip (url : str) (parsed : ParseResult) :
  In RawIPAddress (reasoning (assess url parsed))
  <-> _is_ip_address (host_of parsed) = true.
Proof.
  line_cases K.
  - assumption.
  - exists (Q2R 15). cbn [In]. do 5 right. left.
    unfold check_ip. rewrite K. reflexivity.
Qed.

Lemma line_https (url : str) (parsed : ParseResult) :
  In NoHTTPS (reasoning (assess url parsed))
  <-> uses_https_of parsed = false.
Proof.
  line_cases K.
  - assumption.
  - exists (Q2R 5). cbn [In]. do 9 right. left.
    unfold check_https. rewrite K. reflexivity.
Qed.

Lemma line_at_sign (url : str) (parsed : ParseResult) :
  In AtSign (reasoning (assess url parsed)) <-> mem 64 url = true.
Proof.
  line_cases K.
  - assumption.
  - exists (Q2R 10). cbn [In]. do 11 right. left.
    unfold check_at_sign. rewrite K. reflexivity.
Qed.

Lemma line_domain_length (url : str) (parsed : ParseResult) (n : nat) :
  In (LongDomain n) (reasoning (assess url parsed))
  <-> n = length (host_of parsed) /\ (30 < n)%nat.
Proof.
  line_cases K.
  - auto.
  - destruct K as [-> K]. apply Nat.ltb_lt in K.
    eexists. cbn [In]. left.
    unfold check_domain_length. rewrite K. reflexivity.
Qed.

Lemma line_hyphens (url : str) (parsed : ParseResult) (n : nat) :
  In (MultipleHyphens n) (reasoning (assess url parsed))
  <-> n = count 45 (host_of parsed) /\ (2 <= n)%nat.
Proof.
  line_cases K.
  - auto.
  - destruct K as [-> K]. apply Nat.leb_le in K.
    eexists. cbn [In]. do 2 right. left.
    unfold check_hyphens. rewrite K. reflexivity.
Qed.

Lemma line_keywords (url : str) (parsed : ParseResult) (ks : list str) :
  In (SuspiciousKeywords ks) (reasoning (assess url parsed))
  <-> ks = find_keywords (host_of parsed ++ path parsed) /\ ks <> [].
Proof.
  line_cases K.
  - auto.
  - destruct K as [-> K].
    destruct (find_keywords (host_of parsed ++ path parsed))
      as [|k l] eqn:F; [congruence|].
    eexists. cbn [In]. do 3 right. left.
    unfold check_keywords. rewrite F. reflexivity.
Qed.

Lemma line_homographs (url : str) (parsed : ParseResult)
      (hs : list (N * N)) :
  In (HomographChars hs) (reasoning (assess url parsed))
  <-> hs = _detect_homographs (host_of parsed) /\ hs <> [].
Proof.
  line_cases K.
  - auto.
  - destruct K as [-> K].
    destruct (_detect_homographs (host_of parsed)) as [|h l] eqn:F;
      [congruence|].
    eexists. cbn [In]. do 7 right. left.
    unfold check_homographs. rewrite F. reflexivity.
Qed.

Lemma line_subdomains (url : str) (parsed : ParseResult) (d : Z) :
  In (DeepSubdomains d) (reasoning (assess url parsed))
  <-> d = Z.max (subdomain_depth_of (host_of parsed)) 0 /\ (3 <= d)%Z.
Proof.
  line_cases K.
  - split; lia.
  - destruct K as [-> K].
    assert (E : Z.max (subdomain_depth_of (host_of parsed)) 0
                = subdomain_depth_of (host_of parsed)) by lia.
    rewrite E in *. apply Z.leb_le in K.
    eexists. cbn [In]. do 6 right. left.
    unfold check_subdomains. rewrite K. reflexivity.
Qed.

Lemma line_path_depth (url : str) (parsed : ParseResult) (n : nat) :
  In (DeepPath n) (reasoning (assess url parsed))
  <-> n = path_depth_of (path parsed) /\ (5 < n)%nat.
Proof.
  line_cases K.
  - auto.
  - destruct K as [-> K]. apply Nat.ltb_lt in K.
    eexists. cbn [In]. do 10 right. left.
    unfold check_path_depth. rewrite K. reflexivity.
Qed.

(** Each line of a report is backed by the value that the features
    dictionary shows: the lines for a raw IP address, for missing HTTPS and
    for an ['@'] are present exactly when the flags [is_ip_address],
    [uses_https] and [has_at_sign] say so, and the lines that print a value
    (domain length, hyphens, keywords, confusable characters, sub-domain
    depth, path depth) print the value of the feature, past its threshold. *)
Theorem reasons_match_features (url : str) (r : Assessment) :
  analyze_url url = Ok r ->
  exists f,
    features r = Some f
    /\ (In RawIPAddress (reasoning r) <-> f_is_ip_address f = true)
    /\ (In NoHTTPS (reasoning r) <-> f_uses_https f = false)
    /\ (In AtSign (reasoning r) <-> f_has_at_sign f = true)
    /\ (forall n, In (LongDomain n) (reasoning r)
                  <-> n = f_domain_length f /\ (30 < n)%nat)
    /\ (forall n, In (MultipleHyphens n) (reasoning r)
                  <-> n = f_hyphen_count f /\ (2 <= n)%nat)
    /\ (forall ks, In (SuspiciousKeywords ks) (reasoning r)
                   <-> ks = f_suspicious_keywords f /\ ks <> [])
    /\ (forall hs, In (HomographChars hs) (reasoning r)
                   <-> hs = f_homograph_chars f /\ hs <> [])
    /\ (forall d, In (DeepSubdomains d) (reasoning r)
                  <-> d = f_subdomain_depth f /\ (3 <= d)%Z)
    /\ (forall n, In (DeepPath n) (reasoning r)
                  <-> n = f_path_depth f /\ (5 < n)%nat).
Proof.
  intro H.
  destruct (ScoreFacts.analyze_url_assess url r H) as [parsed [_ ->]].
  exists (extract_features (prepare url) parsed).
  split; [reflexivity|].
  cbn [extract_features f_is_ip_address f_uses_https f_has_at_sign
       f_domain_length f_hyphen_count f_suspicious_keywords
       f_homograph_chars f_subdomain_depth f_path_depth].
  split; [apply line_ip|]. split; [apply line_https|].
  split; [apply line_at_sign|].
  split; [intro; apply line_domain_length|].
  split; [intro; apply line_hyphens|].
  split; [intro; apply line_keywords|].
  split; [intro; apply line_homographs|].
  split; [intro; apply line_subdomains|].
  intro; apply line_path_depth.
Qed.

End WithTables.

Lemma reasons_match_features_witness :
  exists r f,
    analyze_url (lit "https://example.com") = Ok r
    /\ features r = Some f
    /\ (In NoHTTPS (reasoning r) <-> f_uses_https f = false).
Proof.
  assert (E : analyze_url (lit "https://example.com")
              = Ok (assess (lit "https://example.com")
                      ScoreFacts.parsed_plain)).
  { unfold analyze_url.
    replace (prepare (lit "https://example.com"))
      with (lit "https://example.com") by (vm_compute; reflexivity).
    replace (urlparse (lit "https://example.com"))
      with (Ok ScoreFacts.parsed_plain) by (vm_compute; reflexivity).
    reflexivity. }
  destruct (reasons_match_features _ _ E) as [f [F [_ [A _]]]].
  exists (assess (lit "https://example.com") ScoreFacts.parsed_plain), f.
  split; [exact E|]. split; [exact F|exact A].
Defined.

End ReportFacts.
